(** * znet/web.go: listener orchestration, registry and lifecycle

    A shallow embedding of [znet/web.go]: the package-level state and the
    sequential functions ([getPort], [New], [Server], [SetMode],
    [runNewProcess]) are functions over an explicit world, and [Run], whose
    goroutines share a [sync.Map], a [sync.WaitGroup] and the process itself,
    is an interleaving machine driven by a schedule. *)

From Stdlib Require Import ZArith DecimalString DecimalZ DecimalPos.
From stdpp Require Import gmap strings list.

Local Open Scope Z_scope.
Local Open Scope string_scope.

(** ** Values of the Go program *)

(** Go's [error] values reaching this file: [http.ErrServerClosed] is a
    package-level sentinel compared by identity, every other error is kept
    with its text.  A nil [error] is [None] in [option error]. *)
Inductive error :=
| ErrServerClosed
| ErrOther (msg : string).

Definition error_text (e : error) : string :=
  match e with
  | ErrServerClosed => "http: Server closed"
  | ErrOther msg => msg
  end.

#[global] Instance error_eq_dec : EqDecision error.
Proof. solve_decision. Defined.

(** [err != http.ErrServerClosed] on an interface value of type [error]. *)
Definition neq_ErrServerClosed (err : option error) : bool :=
  match err with
  | Some ErrServerClosed => false
  | _ => true
  end.

(** Modelled from the spec: the [zlog] package is not under src/.  Its
    loggers are used here only through calls of a severity class; [Fatal]
    and [Fatalf] log and terminate the process, [Panic] logs and panics,
    every other class only logs. *)
Inductive Level :=
| LogFatal | LogPanic | LogError | LogWarn | LogSuccess | LogInfo | LogDump.

#[global] Instance Level_eq_dec : EqDecision Level.
Proof. solve_decision. Defined.

(** Engines live behind pointers ([*Engine]); a pointer is the index of the
    engine in the heap of the world. *)
Definition loc := nat.
Bind Scope nat_scope with loc.

(** The logger a line is written to: the package logger [Log], or the
    logger [e.Log] of the engine at a pointer. *)
Inductive LoggerId :=
| PkgLog
| EngineLog (e : loc).

#[global] Instance LoggerId_eq_dec : EqDecision LoggerId.
Proof. solve_decision. Defined.

(** The dynamic type of the [interface{}] field [HTTPProcessing], as the
    type switch of [Run] sees it. *)
Inductive iface :=
| INil
| IString (s : string)
| IHandler (h : nat)
| IOther (tag : string).

#[global] Instance iface_eq_dec : EqDecision iface.
Proof. solve_decision. Defined.

Record TlsCfg := mkTlsCfg {
  Cert : string;
  Key : string;
  HTTPAddr : string;
  HTTPProcessing : iface;
  Config : option nat                (* *tls.Config, nil or a reference *)
}.

Record addrSt := mkAddrSt {
  addr : string;
  tls : TlsCfg                       (* the embedded TlsCfg *)
}.

#[global] Instance TlsCfg_eq_dec : EqDecision TlsCfg.
Proof. solve_decision. Defined.
#[global] Instance addrSt_eq_dec : EqDecision addrSt.
Proof. solve_decision. Defined.

Definition noTls : TlsCfg := mkTlsCfg "" "" "" INil None.

Record Logger := mkLogger {
  prefix : string;
  level : Level
}.

(** The fields of [Engine] this file reads or writes; the cache, the router,
    the pre-handler and the context pool are opaque to it and left out. *)
Record Engine := mkEngine {
  Log : Logger;
  readTimeout : Z;
  writeTimeout : Z;
  webModeName : string;
  webMode : Z;
  ShowFavicon : bool;
  MaxMultipartMemory : Z;
  BindTag : string;
  customMethodType : string;
  eaddr : list addrSt;               (* Engine.addr *)
  BindStructDelimiter : string;
  BindStructSuffix : string
}.

(** ** Constants *)

Definition defaultMultipartMemory : Z := Z.shiftl 32 20.
Definition DebugMode := "dev".
Definition ProdMode := "prod".
Definition TestMode := "test".
Definition defaultServerName := "Z".
Definition defaultBindTag := "json".
Definition prodCode : Z := 0.
(** [debugCode = iota] is the eighth constant of its block, [testCode]
    repeats the expression on the ninth. *)
Definition debugCode : Z := 7.
Definition testCode : Z := 8.

Definition defaultAddr : addrSt := mkAddrSt ":3788" noTls.
Definition pkgBindStructDelimiter := "-".
Definition pkgBindStructSuffix := "".

Definition second : Z := 1000000000.
Definition millisecond : Z := 1000000.

(** ** Observable events *)

(** What [srvMap] holds: [&serverMap{e, srv}].  A server instance is named
    by the number of the listener task that built it. *)
Record serverMap := mkServerMap {
  engine : loc;
  srv : nat
}.

#[global] Instance serverMap_eq_dec : EqDecision serverMap.
Proof. solve_decision. Defined.

(** The three ways the companion plaintext listener serves. *)
Inductive Strategy :=
| RedirectTo (domain : string)       (* &tlsRedirectHandler{Domain: processing} *)
| CustomHandler (h : nat)            (* processing *)
| SameEngine (e : loc).              (* e *)

#[global] Instance Strategy_eq_dec : EqDecision Strategy.
Proof. solve_decision. Defined.

Inductive Event :=
| ELog (who : LoggerId) (lvl : Level) (msg : string)
  (* the "Listen:" lines, whose host text comes from resolveHostname *)
| EListenLine (who : LoggerId) (scheme : string) (a : string)
| ENetListen (a : string)            (* net.Listen("tcp", a) *)
| ENetClose                          (* listener.Close() *)
| ERunNewProcess (md5 : string)      (* zshell.RunNewProcess(md5) *)
| EAdd                               (* m.Add(1) *)
| EGo (task : nat)                   (* go func(cfg, e) {...} *)
| EStore (a : string) (v : serverMap)
| EAfterFunc (task : nat) (d : Z)
| EGoCompanion (task : nat) (a : string)
| EServe (task : nat) (a : string) (tls : bool)
| EServeReturn (task : nat) (err : option error)
| ECompanionServe (task : nat) (a : string) (how : Strategy)
| EIsKill (b : bool)
| EWithTimeout (d : Z)
| EGoShutdown (v : serverMap)
| EShutdown (s : nat) (deadline : Z) (* s.srv.Shutdown(ctx) *)
| EShutdownReturn (s : nat) (err : option error)
| ESrvClose (s : nat)                (* s.srv.Close() *)
| EDone (s : nat)                    (* m.Done() *)
| EWaitReturn                        (* m.Wait() returns *)
| EShutdownDone                      (* ShutdownDone() *)
| ESleep (d : Z)
| ECancel                            (* the deferred cancel() *)
| EExit (code : Z).                  (* os.Exit *)

#[global] Instance Event_eq_dec : EqDecision Event.
Proof. solve_decision. Defined.

(** ** The world of package-level state *)

Record World := mkWorld {
  zservers : gmap string loc;        (* map[string]*Engine *)
  heap : list Engine;
  CloseHotRestart : bool;
  fileMd5 : string;
  ShutdownDone : bool;               (* is the callback non-nil *)
  out : list Event                   (* oldest first *)
}.

Definition emit (evs : list Event) (w : World) : World :=
  mkWorld (zservers w) (heap w) (CloseHotRestart w) (fileMd5 w)
          (ShutdownDone w) (out w ++ evs).

Definition set_zservers (m : gmap string loc) (w : World) : World :=
  mkWorld m (heap w) (CloseHotRestart w) (fileMd5 w) (ShutdownDone w) (out w).

Definition set_heap (h : list Engine) (w : World) : World :=
  mkWorld (zservers w) h (CloseHotRestart w) (fileMd5 w) (ShutdownDone w) (out w).

Definition set_fileMd5 (s : string) (w : World) : World :=
  mkWorld (zservers w) (heap w) (CloseHotRestart w) s (ShutdownDone w) (out w).

(** The world at process start, before any [New]: [init] has computed the
    fingerprint. *)
Definition world0 (md5 : string) : World :=
  mkWorld ∅ [] false md5 false [].

(** How a call ends: it returns, the process exits ([Fatal], [Fatalf]), or
    the goroutine panics. *)
Inductive Res (A : Type) :=
| Ret (a : A) (w : World)
| Exited (w : World)
| Panicked (msg : string) (w : World).
Arguments Ret {A} a w.
Arguments Exited {A} w.
Arguments Panicked {A} msg w.

Definition M (A : Type) := World → Res A.

Definition ret {A} (a : A) : M A := fun w => Ret a w.

Definition bind {A B} (m : M A) (k : A → M B) : M B :=
  fun w =>
    match m w with
    | Ret a w' => k a w'
    | Exited w' => Exited w'
    | Panicked msg w' => Panicked msg w'
    end.

Notation "x <- m ;; k" := (bind m (fun x => k))
  (at level 100, m at next level, right associativity).
Notation "m ;;; k" := (bind m (fun _ => k))
  (at level 100, right associativity).

Definition say (evs : list Event) : M unit := fun w => Ret tt (emit evs w).

Definition logf (who : LoggerId) (lvl : Level) (msg : string) : M unit :=
  say [ELog who lvl msg].

(** [Fatalf]: the line, then [os.Exit(1)]; nothing after it runs. *)
Definition Fatalf {A} (who : LoggerId) (msg : string) : M A :=
  fun w => Exited (emit [ELog who LogFatal msg; EExit 1] w).

(** [Panic]: the line, then a panic with the same text. *)
Definition Panic {A} (who : LoggerId) (msg : string) : M A :=
  fun w => Panicked msg (emit [ELog who LogPanic msg] w).

Definition world_of {A} (r : Res A) : World :=
  match r with
  | Ret _ w | Exited w | Panicked _ w => w
  end.

Definition value_of {A} (r : Res A) : option A :=
  match r with
  | Ret a _ => Some a
  | _ => None
  end.

(** ** Address resolution *)

Definition nl : string := String (Ascii.ascii_of_nat 10) EmptyString.

Fixpoint is_prefix (p s : string) : bool :=
  match p, s with
  | EmptyString, _ => true
  | String a p', String b s' => if decide (a = b) then is_prefix p' s' else false
  | String _ _, EmptyString => false
  end.

(** [strings.Contains(s, substr)]. *)
Fixpoint Contains (s substr : string) : bool :=
  if is_prefix substr s then true
  else match s with
       | EmptyString => false
       | String _ s' => Contains s' substr
       end.

(** [strconv.Itoa]. *)
Definition Itoa (n : Z) : string := NilZero.string_of_int (Z.to_int n).

(** What [net.Listen("tcp", ":0")] gives back: an error, or a listener
    whose address carries the port the system chose. *)
Inductive ListenResult :=
| ListenErr (e : error)
| Listening (port : Z).

Definition getPort (os : ListenResult) (a : string) : M string :=
  let a := if negb (Contains a ":") then ":" +:+ a else a in
  if negb (bool_decide (a = ":0")) then ret a
  else
    (* random port *)
    say [ENetListen ":0"] ;;;
    match os with
    | ListenErr err =>
        Fatalf PkgLog ("Listen: " +:+ error_text err +:+ nl)
    | Listening port =>
        let a := ":" +:+ Itoa port in
        say [ENetClose] ;;;
        ret a
    end.

(** ** The engine registry *)

Definition alloc (e : Engine) : M loc :=
  fun w => Ret (length (heap w)) (set_heap (heap w ++ [e]) w).

(** Reading through an engine pointer; a pointer outside the heap is a nil
    dereference. *)
Definition load (e : loc) : M Engine :=
  fun w =>
    match heap w !! e with
    | Some eng => Ret eng w
    | None => Panicked "invalid memory address or nil pointer dereference" w
    end.

Definition modify (e : loc) (f : Engine → Engine) : M unit :=
  eng <- load e ;;
  fun w => Ret tt (set_heap (<[e := f eng]> (heap w)) w).

Definition lookup_zservers (name : string) : M (option loc) :=
  fun w => Ret (zservers w !! name) w.

Definition store_zservers (name : string) (r : loc) : M unit :=
  fun w => Ret tt (set_zservers (<[name := r]> (zservers w)) w).

(** The name a variadic [serverName ...string] selects. *)
Definition name_of (serverName : list string) : string :=
  match serverName with
  | [] => defaultServerName
  | n :: _ => n
  end.

Definition newEngine (name : string) : Engine :=
  {| Log := mkLogger ("[" +:+ name +:+ "] ") LogInfo;
     readTimeout := 0 * second;
     writeTimeout := 0 * second;
     webModeName := ProdMode;
     webMode := prodCode;
     ShowFavicon := false;
     MaxMultipartMemory := defaultMultipartMemory;
     BindTag := defaultBindTag;
     customMethodType := "";
     eaddr := [defaultAddr];
     BindStructDelimiter := pkgBindStructDelimiter;
     BindStructSuffix := pkgBindStructSuffix |}.

Definition New (serverName : list string) : M loc :=
  let name := name_of serverName in
  r <- alloc (newEngine name) ;;
  found <- lookup_zservers name ;;
  (if found is Some _
   then Fatalf PkgLog ("serverName: " +:+ name +:+ " is has")
   else ret tt) ;;;
  store_zservers name r ;;;
  ret r.

Definition Server (serverName : list string) : M (loc * bool) :=
  let name := name_of serverName in
  found <- lookup_zservers name ;;
  match found with
  | Some engine => ret (engine, true)
  | None =>
      logf PkgLog LogWarn ("serverName: " +:+ name +:+ " is not") ;;;
      engine <- New [name] ;;
      ret (engine, false)
  end.

Definition CloseHotRestartFileMd5 : M unit :=
  fun w => Ret tt (set_fileMd5 "" w).

(** ** Engine setters *)

Definition with_webMode (c : Z) (e : Engine) : Engine :=
  mkEngine (Log e) (readTimeout e) (writeTimeout e) (webModeName e) c
           (ShowFavicon e) (MaxMultipartMemory e) (BindTag e)
           (customMethodType e) (eaddr e) (BindStructDelimiter e)
           (BindStructSuffix e).

Definition with_webModeName (n : string) (e : Engine) : Engine :=
  mkEngine (Log e) (readTimeout e) (writeTimeout e) n (webMode e)
           (ShowFavicon e) (MaxMultipartMemory e) (BindTag e)
           (customMethodType e) (eaddr e) (BindStructDelimiter e)
           (BindStructSuffix e).

(** [e.Log.SetLogLevel(level)]. *)
Definition with_LogLevel (l : Level) (e : Engine) : Engine :=
  mkEngine (mkLogger (prefix (Log e)) l) (readTimeout e) (writeTimeout e)
           (webModeName e) (webMode e) (ShowFavicon e) (MaxMultipartMemory e)
           (BindTag e) (customMethodType e) (eaddr e) (BindStructDelimiter e)
           (BindStructSuffix e).

Definition with_timeouts (r w : Z) (e : Engine) : Engine :=
  mkEngine (Log e) r w (webModeName e) (webMode e)
           (ShowFavicon e) (MaxMultipartMemory e) (BindTag e)
           (customMethodType e) (eaddr e) (BindStructDelimiter e)
           (BindStructSuffix e).

Definition SetMode (e : loc) (value : string) : M unit :=
  lvl <- (if bool_decide (value = ProdMode) || bool_decide (value = "") then
            modify e (with_webMode prodCode) ;;; ret LogSuccess
          else if bool_decide (value = DebugMode) then
            modify e (with_webMode debugCode) ;;; ret LogDump
          else if bool_decide (value = TestMode) then
            modify e (with_webMode testCode) ;;; ret LogInfo
          else
            Panic (EngineLog e) ("web mode unknown: " +:+ value)) ;;
  let value := if bool_decide (value = "") then ProdMode else value in
  modify e (with_webModeName value) ;;;
  modify e (with_LogLevel lvl).

Definition IsDebug (e : loc) : M bool :=
  eng <- load e ;;
  ret (bool_decide (webMode eng > prodCode)).

Definition SetTimeout (e : loc) (Timeout : Z) (WriteTimeout : list Z) : M unit :=
  match WriteTimeout with
  | wt :: _ => modify e (with_timeouts Timeout wt)
  | [] => modify e (with_timeouts Timeout Timeout)
  end.

(** ** The restart and the two returns handled in [Run] *)

(** [runNewProcess]; [spawn] is what [zshell.RunNewProcess] returns as its
    error. *)
Definition runNewProcess (spawn : option error) : M unit :=
  fun w =>
    ((if bool_decide (fileMd5 w = "")
      then logf PkgLog LogWarn "ignore execution file md5 check"
      else ret tt) ;;;
     say [ERunNewProcess (fileMd5 w)] ;;;
     match spawn with
     | Some err => logf PkgLog LogError (error_text err)
     | None => ret tt
     end) w.

(** The text [%s] or [Info] prints for an [error] value. *)
Definition show_err (err : option error) : string :=
  match err with
  | None => "<nil>"
  | Some e => error_text e
  end.

(** What a listener task does with the error its serve call returned. *)
Definition afterServe (e : loc) (err : option error) : M unit :=
  if bool_decide (err ≠ None) && neq_ErrServerClosed err then
    Fatalf (EngineLog e) ("Listen: " +:+ show_err err +:+ nl)
  else if neq_ErrServerClosed err then
    logf (EngineLog e) LogInfo (show_err err)
  else ret tt.

(** What a shutdown task does once [s.srv.Shutdown(ctx)] has returned. *)
Definition afterShutdown (iskill : bool) (s : serverMap) (err : option error) : M unit :=
  let r := engine s in
  if bool_decide (err ≠ None) then
    (if iskill then logf (EngineLog r) LogError "Timeout forced close" else ret tt) ;;;
    say [ESrvClose (srv s)]
  else
    (if iskill then logf (EngineLog r) LogSuccess "Shutdown server done" else ret tt).

(** The type switch on [cfg.HTTPProcessing] in the companion goroutine. *)
Definition companionStrategy (e : loc) (processing : iface) : Strategy :=
  match processing with
  | IString domain => RedirectTo domain
  | IHandler h => CustomHandler h
  | _ => SameEngine e
  end.

(** [isTls := cfg.Cert != "" || cfg.Config != nil]. *)
Definition isTls (cfg : addrSt) : bool :=
  negb (bool_decide (Cert (tls cfg) = "")) || bool_decide (Config (tls cfg) ≠ None).

(** ** [Run]: the goroutines and what they share *)

(** The fields of [http.Server] that [Run] sets. *)
Record HttpServer := mkHttpServer {
  Addr : string;
  Handler : loc;
  ReadTimeout : Z;
  WriteTimeout : Z;
  TLSConfig : option nat
}.

Definition with_TLSConfig (c : option nat) (s : HttpServer) : HttpServer :=
  mkHttpServer (Addr s) (Handler s) (ReadTimeout s) (WriteTimeout s) c.

(** Where a listener goroutine stands. *)
Inductive ListenerPc :=
| LStart                             (* nothing run yet *)
| LBuilt (s : HttpServer)            (* srv built, next: srvMap.Store *)
| LStored (s : HttpServer)           (* next: time.AfterFunc *)
| LTimed (s : HttpServer)            (* next: the isTls branch *)
| LReady (s : HttpServer)            (* next: the serve call *)
| LServing (s : HttpServer)          (* inside ListenAndServe[TLS] *)
| LReturned (s : HttpServer).        (* the goroutine is over *)

Record Listener := mkListener {
  l_engine : loc;
  l_cfg : addrSt;
  l_pc : ListenerPc
}.

Inductive CompanionPc := CStart | CServing (how : Strategy) | CReturned.

Record Companion := mkCompanion {
  c_task : nat;                      (* the listener that started it *)
  c_engine : loc;
  c_addr : string;                   (* httpAddr *)
  c_processing : iface;              (* cfg.HTTPProcessing *)
  c_pc : CompanionPc
}.

Inductive ShutdownPc := SStart | SWaiting | SSignal | SDone.

Record ShutdownTask := mkShutdownTask {
  s_val : serverMap;
  s_iskill : bool;                   (* captured by the closure *)
  s_ctx : Z;                         (* the timeout of the captured ctx *)
  s_pc : ShutdownPc
}.

Record Timer := mkTimer {
  t_engine : loc;
  t_scheme : string;
  t_addr : string;
  t_fired : bool
}.

(** Where the goroutine that called [Run] stands. *)
Inductive MainPc :=
| MLoop (rest : list (loc * addrSt)) (* the two nested range loops *)
| MWithTimeout (iskill : bool)
| MRestart (iskill : bool) (ctx : Z)
| MRange (iskill : bool) (ctx : Z) (start : gset string) (visited : list string)
| MWait (iskill : bool)
| MCallback (iskill : bool)
| MSleep (iskill : bool)
| MReturned (iskill : bool).

Record State := mkState {
  world : World;
  mainpc : MainPc;
  listeners : list Listener;
  companions : list Companion;
  shutdowns : list ShutdownTask;
  timers : list Timer;
  srvMap : gmap string serverMap;    (* sync.Map *)
  wg : Z;                            (* the counter of the WaitGroup m *)
  halted : bool                      (* the process is gone *)
}.

(** What the outside answers when a goroutine asks. *)
Record Env := mkEnv {
  os : ListenResult;                 (* net.Listen("tcp", ":0") *)
  served : option error;             (* what a serve call returns *)
  stopped : option error;            (* what srv.Shutdown(ctx) returns *)
  spawned : option error;            (* the error of zshell.RunNewProcess *)
  kill : bool;                       (* isKill() *)
  pick : option string               (* the key Range visits next *)
}.

Inductive Tid :=
| TMain
| TListener (i : nat)
| TCompanion (i : nat)
| TShutdown (i : nat)
| TTimer (i : nat).

Definition set_world (w : World) (s : State) : State :=
  mkState w (mainpc s) (listeners s) (companions s) (shutdowns s) (timers s)
          (srvMap s) (wg s) (halted s).

Definition set_mainpc (pc : MainPc) (s : State) : State :=
  mkState (world s) pc (listeners s) (companions s) (shutdowns s) (timers s)
          (srvMap s) (wg s) (halted s).

Definition set_listeners (l : list Listener) (s : State) : State :=
  mkState (world s) (mainpc s) l (companions s) (shutdowns s) (timers s)
          (srvMap s) (wg s) (halted s).

Definition set_companions (l : list Companion) (s : State) : State :=
  mkState (world s) (mainpc s) (listeners s) l (shutdowns s) (timers s)
          (srvMap s) (wg s) (halted s).

Definition set_shutdowns (l : list ShutdownTask) (s : State) : State :=
  mkState (world s) (mainpc s) (listeners s) (companions s) l (timers s)
          (srvMap s) (wg s) (halted s).

Definition set_timers (l : list Timer) (s : State) : State :=
  mkState (world s) (mainpc s) (listeners s) (companions s) (shutdowns s) l
          (srvMap s) (wg s) (halted s).

Definition set_srvMap (m : gmap string serverMap) (s : State) : State :=
  mkState (world s) (mainpc s) (listeners s) (companions s) (shutdowns s)
          (timers s) m (wg s) (halted s).

Definition set_wg (n : Z) (s : State) : State :=
  mkState (world s) (mainpc s) (listeners s) (companions s) (shutdowns s)
          (timers s) (srvMap s) n (halted s).

Definition halt (s : State) : State :=
  mkState (world s) (mainpc s) (listeners s) (companions s) (shutdowns s)
          (timers s) (srvMap s) (wg s) true.

Definition tell (evs : list Event) (s : State) : State :=
  set_world (emit evs (world s)) s.

(** Running a piece of sequential code inside a goroutine: a return goes
    on with [k], an exit or an unrecovered panic takes the process down. *)
Definition lift {A} (m : M A) (s : State) (k : A → State → State) : State :=
  match m (world s) with
  | Ret a w => k a (set_world w s)
  | Exited w => halt (set_world w s)
  | Panicked _ w => halt (set_world w s)
  end.

Definition set_l_pc (pc : ListenerPc) (l : Listener) : Listener :=
  mkListener (l_engine l) (l_cfg l) pc.

Definition set_c_pc (pc : CompanionPc) (c : Companion) : Companion :=
  mkCompanion (c_task c) (c_engine c) (c_addr c) (c_processing c) pc.

Definition set_s_pc (pc : ShutdownPc) (t : ShutdownTask) : ShutdownTask :=
  mkShutdownTask (s_val t) (s_iskill t) (s_ctx t) pc.

Definition at_listener (i : nat) (pc : ListenerPc) (s : State) : State :=
  set_listeners (alter (set_l_pc pc) i (listeners s)) s.

Definition at_companion (i : nat) (pc : CompanionPc) (s : State) : State :=
  set_companions (alter (set_c_pc pc) i (companions s)) s.

Definition at_shutdown (i : nat) (pc : ShutdownPc) (s : State) : State :=
  set_shutdowns (alter (set_s_pc pc) i (shutdowns s)) s.

(** *** The goroutine of one bind target (lines 263-322) *)

Definition listener_step (i : nat) (l : Listener) (env : Env) (s : State) : option State :=
  let e := l_engine l in
  let cfg := l_cfg l in
  match l_pc l with
  | LStart =>
      Some (lift (a <- getPort (os env) (addr cfg) ;;
                  eng <- load e ;;
                  ret (mkHttpServer a e (readTimeout eng) (writeTimeout eng) None))
                 s (fun srv s => at_listener i (LBuilt srv) s))
  | LBuilt srv =>
      let v := mkServerMap e i in
      Some (at_listener i (LStored srv)
              (tell [EStore (Addr srv) v]
                 (set_srvMap (<[Addr srv := v]> (srvMap s)) s)))
  | LStored srv =>
      let scheme := if isTls cfg then "https://" else "http://" in
      Some (at_listener i (LTimed srv)
              (tell [EAfterFunc i (100 * millisecond)]
                 (set_timers (timers s ++ [mkTimer e scheme (Addr srv) false]) s)))
  | LTimed srv =>
      if isTls cfg then
        let srv := if Config (tls cfg) is Some c then with_TLSConfig (Some c) srv else srv in
        if negb (bool_decide (HTTPAddr (tls cfg) = "")) then
          Some (lift (getPort (os env) (HTTPAddr (tls cfg))) s
                  (fun httpAddr s =>
                     at_listener i (LReady srv)
                       (tell [EGoCompanion i httpAddr]
                          (set_companions
                             (companions s ++
                                [mkCompanion i e httpAddr (HTTPProcessing (tls cfg)) CStart])
                             s))))
        else Some (at_listener i (LReady srv) s)
      else Some (at_listener i (LReady srv) s)
  | LReady srv =>
      Some (at_listener i (LServing srv) (tell [EServe i (Addr srv) (isTls cfg)] s))
  | LServing srv =>
      Some (lift (say [EServeReturn i (served env)] ;;; afterServe e (served env)) s
              (fun _ s => at_listener i (LReturned srv) s))
  | LReturned _ => None
  end.

(** *** The companion plaintext goroutine (lines 298-311) *)

Definition companion_step (i : nat) (c : Companion) (env : Env) (s : State) : option State :=
  let e := c_engine c in
  match c_pc c with
  | CStart =>
      let how := companionStrategy e (c_processing c) in
      Some (at_companion i (CServing how)
              (tell [EListenLine (EngineLog e) "http://" (c_addr c);
                     ECompanionServe (c_task c) (c_addr c) how] s))
  | CServing _ =>
      Some (lift (logf (EngineLog e) LogError ("HTTP Listen: " +:+ show_err (served env) +:+ nl))
              s (fun _ s => at_companion i CReturned s))
  | CReturned => None
  end.

(** *** The readiness line scheduled by [time.AfterFunc] *)

Definition timer_step (i : nat) (t : Timer) (s : State) : option State :=
  if t_fired t then None
  else Some (tell [EListenLine (EngineLog (t_engine t)) (t_scheme t) (t_addr t)]
               (set_timers (<[i := mkTimer (t_engine t) (t_scheme t) (t_addr t) true]> (timers s)) s)).

(** *** One shutdown goroutine (lines 336-355) *)

Definition shutdown_step (i : nat) (t : ShutdownTask) (env : Env) (s : State) : option State :=
  let v := s_val t in
  match s_pc t with
  | SStart =>
      Some (lift ((if s_iskill t
                   then logf (EngineLog (engine v)) LogInfo "Shutdown server ..."
                   else ret tt) ;;;
                  say [EShutdown (srv v) (s_ctx t)])
              s (fun _ s => at_shutdown i SWaiting s))
  | SWaiting =>
      Some (lift (say [EShutdownReturn (srv v) (stopped env)] ;;;
                  afterShutdown (s_iskill t) v (stopped env))
              s (fun _ s => at_shutdown i SSignal s))
  | SSignal =>
      (* m.Done(): a counter below zero panics *)
      if bool_decide (wg s - 1 < 0) then Some (halt s)
      else Some (at_shutdown i SDone (tell [EDone (srv v)] (set_wg (wg s - 1) s)))
  | SDone => None
  end.

(** *** The goroutine that called [Run] (lines 260-363) *)

Definition main_step (env : Env) (s : State) : option State :=
  match mainpc s with
  | MLoop ((e, cfg) :: rest) =>
      let i := length (listeners s) in
      Some (set_mainpc (MLoop rest)
              (tell [EAdd; EGo i]
                 (set_listeners (listeners s ++ [mkListener e cfg LStart])
                    (set_wg (wg s + 1) s))))
  | MLoop [] =>
      Some (set_mainpc (MWithTimeout (kill env)) (tell [EIsKill (kill env)] s))
  | MWithTimeout iskill =>
      Some (set_mainpc (MRestart iskill (20 * second))
              (tell [EWithTimeout (20 * second)] s))
  | MRestart iskill ctx =>
      Some (lift (if negb iskill && negb (CloseHotRestart (world s))
                  then runNewProcess (spawned env)
                  else ret tt)
              s (fun _ s => set_mainpc (MRange iskill ctx (dom (srvMap s)) []) s))
  | MRange iskill ctx start visited =>
      match pick env with
      | Some k =>
          if bool_decide (k ∈ visited) then None
          else match srvMap s !! k with
               | Some v =>
                   Some (set_mainpc (MRange iskill ctx start (k :: visited))
                           (tell [EGoShutdown v]
                              (set_shutdowns
                                 (shutdowns s ++ [mkShutdownTask v iskill ctx SStart]) s)))
               | None => None
               end
      | None =>
          if bool_decide (start ⊆ list_to_set visited)
          then Some (set_mainpc (MWait iskill) s)
          else None
      end
  | MWait iskill =>
      (* m.Wait() returns once the counter is zero *)
      if bool_decide (wg s = 0)
      then Some (set_mainpc (MCallback iskill) (tell [EWaitReturn] s))
      else None
  | MCallback iskill =>
      Some (set_mainpc (MSleep iskill)
              (if ShutdownDone (world s) then tell [EShutdownDone] s else s))
  | MSleep iskill =>
      Some (set_mainpc (MReturned iskill)
              (tell [ESleep (100 * millisecond); ECancel] s))
  | MReturned _ => None
  end.

(** *** The scheduler *)

Definition step (tid : Tid) (env : Env) (s : State) : option State :=
  if halted s then None
  else match tid with
       | TMain => main_step env s
       | TListener i => l ← listeners s !! i; listener_step i l env s
       | TCompanion i => c ← companions s !! i; companion_step i c env s
       | TShutdown i => t ← shutdowns s !! i; shutdown_step i t env s
       | TTimer i => t ← timers s !! i; timer_step i t s
       end.

(** A schedule names, turn by turn, the goroutine that runs and what the
    outside answers; a turn given to a goroutine that cannot move is lost. *)
Definition turn (s : State) (a : Tid * Env) : State :=
  default s (step a.1 a.2 s).

Definition exec (sched : list (Tid * Env)) (s : State) : State :=
  foldl turn s sched.

(** The targets in the order the two loops meet them, for the order
    [engines] in which [range zservers] yields the registry. *)
Definition targets_of (w : World) (engines : list loc) : list (loc * addrSt) :=
  e ← engines; cfg ← default [] (eaddr <$> heap w !! e); [(e, cfg)].

(** [Run] is observed from its call on: the trace starts empty. *)
Definition silent (w : World) : World :=
  mkWorld (zservers w) (heap w) (CloseHotRestart w) (fileMd5 w) (ShutdownDone w) [].

Definition start (w : World) (targets : list (loc * addrSt)) : State :=
  mkState (silent w) (MLoop targets) [] [] [] [] ∅ 0 false.

Definition Run (w : World) (engines : list loc) (sched : list (Tid * Env)) : State :=
  exec sched (start w (targets_of w engines)).

(** ** Reading a state *)

(** The server a listener has built, if it has got that far, and the one it
    has put into [srvMap]. *)
Definition built (pc : ListenerPc) : option HttpServer :=
  match pc with
  | LStart => None
  | LBuilt s | LStored s | LTimed s | LReady s | LServing s | LReturned s => Some s
  end.

Definition stored (pc : ListenerPc) : option HttpServer :=
  match pc with
  | LStart | LBuilt _ => None
  | LStored s | LTimed s | LReady s | LServing s | LReturned s => Some s
  end.

(** The serve call of the listener has begun. *)
Definition serving (pc : ListenerPc) : bool :=
  match pc with
  | LServing _ | LReturned _ => true
  | _ => false
  end.

(** The listener has left the [isTls] branch behind. *)
Definition past_tls (pc : ListenerPc) : bool :=
  match pc with
  | LReady _ | LServing _ | LReturned _ => true
  | _ => false
  end.

Definition resolved_addr (l : Listener) : option string := Addr <$> built (l_pc l).
Definition stored_addr (l : Listener) : option string := Addr <$> stored (l_pc l).

(** The addresses the listeners have resolved, and those they have stored. *)
Definition resolved_addrs (s : State) : list string := omap resolved_addr (listeners s).
Definition stored_addrs (s : State) : list string := omap stored_addr (listeners s).

Definition is_done (t : ShutdownTask) : bool :=
  match s_pc t with
  | SDone => true
  | _ => false
  end.

(** How many shutdown goroutines have called [m.Done()]. *)
Definition signaled (s : State) : nat := length (List.filter is_done (shutdowns s)).

(** [m.Wait()] has returned. *)
Definition past_wait (pc : MainPc) : bool :=
  match pc with
  | MCallback _ | MSleep _ | MReturned _ => true
  | _ => false
  end.

(** The restart decision of line 331 is behind. *)
Definition past_restart (pc : MainPc) : bool :=
  match pc with
  | MLoop _ | MWithTimeout _ | MRestart _ _ => false
  | _ => true
  end.

(** [context.WithTimeout] has been called. *)
Definition past_deadline (pc : MainPc) : bool :=
  match pc with
  | MLoop _ | MWithTimeout _ => false
  | _ => true
  end.

(** What [isKill()] returned, once it has. *)
Definition iskill_of (pc : MainPc) : option bool :=
  match pc with
  | MLoop _ => None
  | MWithTimeout b | MRestart b _ | MRange b _ _ _
  | MWait b | MCallback b | MSleep b | MReturned b => Some b
  end.

(** The trace seen through the events of one concern. *)
Definition is_barrier (ev : Event) : bool :=
  match ev with
  | EDone _ | EWaitReturn | EShutdownDone | ESleep _ | ECancel => true
  | _ => false
  end.

Definition is_spawn (ev : Event) : bool :=
  match ev with
  | ERunNewProcess _ => true
  | _ => false
  end.

Definition is_deadline (ev : Event) : bool :=
  match ev with
  | EWithTimeout _ => true
  | _ => false
  end.

(** The lines a shutdown goroutine writes. *)
Definition is_shutdown_line (ev : Event) : bool :=
  match ev with
  | ELog (EngineLog _) LogInfo msg => String.eqb msg "Shutdown server ..."
  | ELog (EngineLog _) LogError msg => String.eqb msg "Timeout forced close"
  | ELog (EngineLog _) LogSuccess msg => String.eqb msg "Shutdown server done"
  | _ => false
  end.

Definition view (p : Event → bool) (s : State) : list Event :=
  List.filter p (out (world s)).

(** The end of the barrier view, by where [Run] stands: the return of
    [m.Wait()], the callback when one is set, the drain sleep and the
    deferred cancel. *)
Definition barrier_tail (pc : MainPc) (callback : bool) : list Event :=
  let cb := if callback then [EShutdownDone] else [] in
  match pc with
  | MCallback _ => [EWaitReturn]
  | MSleep _ => EWaitReturn :: cb
  | MReturned _ => EWaitReturn :: cb ++ [ESleep (100 * millisecond); ECancel]
  | _ => []
  end.

(** The companions a listener task has started. *)
Definition companions_of (i : nat) (s : State) : list Companion :=
  List.filter (fun c => Nat.eqb (c_task c) i) (companions s).

(** A companion is wanted for a bind target. *)
Definition wants_companion (cfg : addrSt) : bool :=
  isTls cfg && negb (bool_decide (HTTPAddr (tls cfg) = "")).

(** Two worlds that differ in their trace only. *)
Definition same_globals (w w' : World) : Prop :=
  zservers w' = zservers w ∧ heap w' = heap w ∧
  CloseHotRestart w' = CloseHotRestart w ∧ fileMd5 w' = fileMd5 w ∧
  ShutdownDone w' = ShutdownDone w.

(** ** What the sequential pieces compute, in closed form *)

(** The address once the delimiter has been supplied (lines 380-382). *)
Definition with_delimiter (a : string) : string :=
  if negb (Contains a ":") then ":" +:+ a else a.

(** The traces a call of [getPort] can leave. *)
Inductive getPort_events : list Event → Prop :=
| gp_fixed : getPort_events []
| gp_ok : getPort_events [ENetListen ":0"; ENetClose]
| gp_fatal msg : getPort_events [ENetListen ":0"; ELog PkgLog LogFatal msg; EExit 1].

(** The trace of [runNewProcess]. *)
Definition restart_events (md5 : string) (spawn : option error) : list Event :=
  (if bool_decide (md5 = "")
   then [ELog PkgLog LogWarn "ignore execution file md5 check"] else []) ++
  ERunNewProcess md5 ::
  match spawn with
  | Some err => [ELog PkgLog LogError (error_text err)]
  | None => []
  end.

(** The trace of a shutdown goroutine after [Shutdown] has returned [err]. *)
Definition stop_events (iskill : bool) (v : serverMap) (err : option error) : list Event :=
  match err with
  | Some _ =>
      (if iskill then [ELog (EngineLog (engine v)) LogError "Timeout forced close"] else [])
      ++ [ESrvClose (srv v)]
  | None =>
      if iskill then [ELog (EngineLog (engine v)) LogSuccess "Shutdown server done"] else []
  end.

(** The engine [SetMode] leaves behind. *)
Definition in_mode (c : Z) (name : string) (l : Level) (e : Engine) : Engine :=
  with_LogLevel l (with_webModeName name (with_webMode c e)).

(** Every registered pointer is an engine of the heap. *)
Definition registry_ok (w : World) : Prop :=
  ∀ name e, zservers w !! name = Some e → (e < length (heap w))%nat.

(** The world [New] leaves when it returns. *)
Definition registered (name : string) (w : World) : World :=
  set_zservers (<[name := length (heap w)]> (zservers w))
    (set_heap (heap w ++ [newEngine name]) w).

(** A world holding the default engine only. *)
Definition one_engine : World := world_of (New [] (world0 "")).

(** A world with two engines, both on the default address. *)
Definition two_engines : World := world_of ((New ["a"] ;;; New ["b"]) (world0 "abc")).

(** ** Invariants of the machine *)

(** The bookkeeping of the barrier, for [n] bind targets: the counter is
    the number of listeners launched less the number of shutdown
    goroutines that have signaled; [Range] starts one shutdown goroutine
    per key it visits, and every key was stored by a listener. *)
Record accounted (n : nat) (s : State) : Prop := mkAccounted {
  acc_count : wg s = Z.of_nat (length (listeners s)) - Z.of_nat (signaled s);
  acc_loop :
    match mainpc s with
    | MLoop rest => (length (listeners s) + length rest = n)%nat
    | _ => length (listeners s) = n
    end;
  acc_range :
    match mainpc s with
    | MLoop _ | MWithTimeout _ | MRestart _ _ => shutdowns s = []
    | MRange _ _ _ visited =>
        NoDup visited ∧ (∀ k, k ∈ visited → is_Some (srvMap s !! k)) ∧
        length (shutdowns s) = length visited
    | _ => True
    end;
  acc_tasks : (length (shutdowns s) ≤ size (srvMap s))%nat;
  acc_dom : ∀ k, is_Some (srvMap s !! k) → k ∈ stored_addrs s;
  acc_wait : past_wait (mainpc s) = true → wg s = 0
}.

(** What the spawn view must show, by where [Run] stands. *)
Definition spawn_expected (w0 : World) (pc : MainPc) : list Event :=
  match pc with
  | MLoop _ | MWithTimeout _ | MRestart _ _ => []
  | MRange b _ _ _ | MWait b | MCallback b | MSleep b | MReturned b =>
      if negb b && negb (CloseHotRestart w0)
      then [ERunNewProcess (fileMd5 w0)]
      else []
  end.

Definition on_deadline (ev : Event) : Prop :=
  match ev with
  | EShutdown _ d => d = 20 * second
  | _ => True
  end.

(** The coordinator against the world [w0] that [Run] started in: the
    globals stay as they were, the restart and the deadline happen once and
    where the code has them, and every shutdown goroutine carries the
    deadline and the kill flag of the run. *)
Record coordinated (w0 : World) (s : State) : Prop := mkCoordinated {
  co_globals : same_globals w0 (world s);
  co_spawn : view is_spawn s = spawn_expected w0 (mainpc s);
  co_deadline :
    view is_deadline s =
      if past_deadline (mainpc s) then [EWithTimeout (20 * second)] else [];
  co_ctx :
    match mainpc s with
    | MRestart _ ctx | MRange _ ctx _ _ => ctx = 20 * second
    | _ => True
    end;
  co_tasks :
    ∀ i t, shutdowns s !! i = Some t →
      s_ctx t = 20 * second ∧ iskill_of (mainpc s) = Some (s_iskill t);
  co_calls : Forall on_deadline (out (world s));
  co_lines : iskill_of (mainpc s) ≠ Some true → view is_shutdown_line s = []
}.

(** The barrier view: the signals of the shutdown goroutines, then the
    tail of [Run]. *)
Definition barrier_ok (callback : bool) (s : State) : Prop :=
  ∃ ds : list nat,
    view is_barrier s = ((EDone <$> ds) ++ barrier_tail (mainpc s) callback)%list ∧
    length ds = signaled s.

Definition is_serve (ev : Event) : bool :=
  match ev with
  | EServe _ _ _ => true
  | _ => false
  end.

(** In a trace, every serve call of a listener comes after the store of
    its address with its own server. *)
Definition stored_before_serving (t : list Event) : Prop :=
  ∀ pre post i a tl,
    t = (pre ++ EServe i a tl :: post)%list →
    ∃ e, EStore a (mkServerMap e i) ∈ pre.

(** The listeners and their companions: what is stored was stored by a
    listener under the address it serves, the store precedes the serve
    call, and a companion exists exactly for the bind targets that ask for
    one, with the strategy its [HTTPProcessing] selects. *)
Record supervised (s : State) : Prop := mkSupervised {
  su_stored :
    ∀ i l sv, listeners s !! i = Some l → stored (l_pc l) = Some sv →
      EStore (Addr sv) (mkServerMap (l_engine l) i) ∈ out (world s) ∧
      is_Some (srvMap s !! Addr sv);
  su_entry :
    ∀ a v, srvMap s !! a = Some v →
      ∃ l sv, listeners s !! srv v = Some l ∧ stored (l_pc l) = Some sv ∧
              Addr sv = a ∧ engine v = l_engine l;
  su_order : stored_before_serving (out (world s));
  cm_owner :
    ∀ j c, companions s !! j = Some c →
      ∃ l, listeners s !! c_task c = Some l ∧
           wants_companion (l_cfg l) = true ∧ past_tls (l_pc l) = true ∧
           c_engine c = l_engine l ∧
           c_processing c = HTTPProcessing (tls (l_cfg l)) ∧
           ∀ how, c_pc c = CServing how →
                  how = companionStrategy (c_engine c) (c_processing c);
  cm_count :
    ∀ i, length (companions_of i s) =
         match listeners s !! i with
         | Some l => if past_tls (l_pc l) && wants_companion (l_cfg l) then 1%nat else 0%nat
         | None => 0%nat
         end;
  cm_serve :
    ∀ i a how, ECompanionServe i a how ∈ out (world s) →
      ∃ l, listeners s !! i = Some l ∧ wants_companion (l_cfg l) = true ∧
           how = companionStrategy (l_engine l) (HTTPProcessing (tls (l_cfg l)))
}.

(** The events the invariant of the listeners does not look at. *)
Definition quiet (ev : Event) : bool :=
  match ev with
  | EStore _ _ | EServe _ _ _ | ECompanionServe _ _ _ => false
  | _ => true
  end.

Definition is_callback (ev : Event) : bool :=
  match ev with
  | EShutdownDone => true
  | _ => false
  end.

(** The callback has been reached and passed. *)
Definition past_callback (pc : MainPc) : bool :=
  match pc with
  | MSleep _ | MReturned _ => true
  | _ => false
  end.

(** ** Worlds and schedules to run on *)

(** [ShutdownDone = func() {...}]. *)
Definition with_ShutdownDone (w : World) : World :=
  mkWorld (zservers w) (heap w) (CloseHotRestart w) (fileMd5 w) true (out w).

Definition with_addr (l : list addrSt) (e : Engine) : Engine :=
  mkEngine (Log e) (readTimeout e) (writeTimeout e) (webModeName e) (webMode e)
           (ShowFavicon e) (MaxMultipartMemory e) (BindTag e)
           (customMethodType e) l (BindStructDelimiter e) (BindStructSuffix e).

(** [SetAddr] and [AddAddr]; [resolveAddr] is not under src/, so the bind
    target it returns is passed in. *)
Definition SetAddr (e : loc) (resolved : addrSt) : M unit :=
  modify e (with_addr [resolved]).

Definition AddAddr (e : loc) (resolved : addrSt) : M unit :=
  eng <- load e ;;
  modify e (with_addr (eaddr eng ++ [resolved])).

(** A TLS bind target with a plaintext address that redirects. *)
Definition tls_target : addrSt :=
  mkAddrSt ":443" (mkTlsCfg "cert.pem" "key.pem" ":80" (IString "example.com") None).

Definition tls_engine : World :=
  world_of ((e <- New [] ;; SetAddr e tls_target) (world0 "")).

(** The outside at its most ordinary: ports can be had, blocking calls
    return the shutdown sentinel, nobody killed the process. *)
Definition calm : Env :=
  mkEnv (Listening 40000) (Some ErrServerClosed) None None false None.

Definition visiting (k : string) : Env :=
  mkEnv (Listening 40000) (Some ErrServerClosed) None None false (Some k).

(** The process was killed from outside. *)
Definition killed : Env :=
  mkEnv (Listening 40000) (Some ErrServerClosed) None None true None.

(** A graceful stop that runs into the deadline. *)
Definition overdue : Env :=
  mkEnv (Listening 40000) (Some ErrServerClosed)
        (Some (ErrOther "context deadline exceeded")) None false None.

(** One listener launched and brought into its serve call. *)
Definition up_to_serving : list (Tid * Env) :=
  (TMain, calm) :: replicate 5 (TListener 0, calm).

(** From there to the point where [Run] waits on the barrier, every
    shutdown goroutine having signaled. *)
Definition up_to_wait (k : string) : list (Tid * Env) :=
  (up_to_serving ++ replicate 3 (TMain, calm) ++
   [(TMain, visiting k); (TMain, calm)] ++ replicate 3 (TShutdown 0, calm))%list.

(** Two listeners launched and their addresses resolved. *)
Definition both_resolved : list (Tid * Env) :=
  [(TMain, calm); (TMain, calm); (TListener 0, calm); (TListener 1, calm)].

(** An attempt to finish from there. *)
Definition try_to_finish : list (Tid * Env) :=
  ([(TListener 0, calm); (TListener 1, calm)] ++ replicate 3 (TMain, calm) ++
   [(TMain, visiting ":3788"); (TMain, calm)] ++ replicate 3 (TShutdown 0, calm) ++
   replicate 3 (TMain, calm))%list.

(** One listener serving, the process killed, and the shutdown goroutine
    inside [Shutdown]. *)
Definition up_to_stopping : list (Tid * Env) :=
  (up_to_serving ++ replicate 3 (TMain, killed) ++
   [(TMain, visiting ":3788"); (TShutdown 0, calm)])%list.

(** [Range] runs before the listener has stored its server: the goroutine
    of [Run] goes all the way to [m.Wait()] first, the listener is brought
    into its serve call afterwards. *)
Definition range_before_store : list (Tid * Env) :=
  (replicate 5 (TMain, calm) ++ replicate 5 (TListener 0, calm))%list.

(** ** More of the engine's setters *)

Definition with_customMethodType (f : string) (e : Engine) : Engine :=
  mkEngine (Log e) (readTimeout e) (writeTimeout e) (webModeName e) (webMode e)
           (ShowFavicon e) (MaxMultipartMemory e) (BindTag e)
           f (eaddr e) (BindStructDelimiter e) (BindStructSuffix e).

Definition SetCustomMethodField (e : loc) (field : string) : M unit :=
  modify e (with_customMethodType field).

(** The bind targets of one engine, as [Run] ranges over them. *)
Definition addrs_of (w : World) (e : loc) : list addrSt :=
  default [] (eaddr <$> heap w !! e).

(** The modes [SetMode] knows. *)
Definition known_mode (value : string) : bool :=
  bool_decide (value = ProdMode) || bool_decide (value = "") ||
  bool_decide (value = DebugMode) || bool_decide (value = TestMode).

(** ** Reading a state, continued *)

(** The bind target a listener was launched for. *)
Definition target_of (l : Listener) : loc * addrSt := (l_engine l, l_cfg l).

(** The listeners launched so far and the targets still to come are the
    bind targets of the run, in order. *)
Definition launched (targets : list (loc * addrSt)) (s : State) : Prop :=
  match mainpc s with
  | MLoop rest => ((target_of <$> listeners s) ++ rest)%list = targets
  | _ => target_of <$> listeners s = targets
  end.

(** The [http.Server] of a listener against the engine [eng] it was built
    from: handler and timeouts are the engine's, the address is the bind
    address resolved, and the TLS configuration is set once the [isTls]
    branch is behind. *)
Definition server_of (eng : Engine) (l : Listener) (sv : HttpServer) : Prop :=
  Handler sv = l_engine l ∧
  ReadTimeout sv = readTimeout eng ∧ WriteTimeout sv = writeTimeout eng ∧
  (Addr sv = with_delimiter (addr (l_cfg l)) ∧ with_delimiter (addr (l_cfg l)) ≠ ":0" ∨
   with_delimiter (addr (l_cfg l)) = ":0" ∧ ∃ p, Addr sv = ":" +:+ Itoa p) ∧
  TLSConfig sv = if past_tls (l_pc l) then Config (tls (l_cfg l)) else None.

Definition well_built (w0 : World) (l : Listener) : Prop :=
  ∀ sv, built (l_pc l) = Some sv →
    ∃ eng, heap w0 !! l_engine l = Some eng ∧ server_of eng l sv.

Definition is_exit (ev : Event) : bool :=
  match ev with
  | EExit _ => true
  | _ => false
  end.

(** The trace of a process that a fatal [Listen:] line has ended. *)
Definition fatal_listen (t : list Event) : Prop :=
  ∃ pre who msg,
    t = (pre ++ [ELog who LogFatal ("Listen: " +:+ msg +:+ nl); EExit 1])%list.

(** The process is gone exactly when the trace holds its one exit, and
    then the fatal line stands right before it, at the end. *)
Definition ended (s : State) : Prop :=
  view is_exit s = (if halted s then [EExit 1] else []) ∧
  (halted s = true → fatal_listen (out (world s))).

(** Every engine pointer of the bind targets is an engine of the heap. *)
Definition targets_ok (w : World) (targets : list (loc * addrSt)) : Prop :=
  Forall (λ t, is_Some (heap w !! t.1)) targets.

(** The server [v] of [srvMap] is the one the listener with its number has
    stored under the address [a], together with that listener's engine. *)
Definition owned (ls : list Listener) (v : serverMap) (a : string) : Prop :=
  ∃ l, ls !! srv v = Some l ∧ stored_addr l = Some a ∧ engine v = l_engine l.

(** While [Range] runs, the keys it has visited. *)
Definition in_visited (pc : MainPc) (a : string) : Prop :=
  match pc with
  | MRange _ _ _ visited => a ∈ visited
  | _ => True
  end.

(** The shutdown goroutines against the listeners: each works on a server
    that a listener has stored, under a key [Range] has visited, and no
    two of them work on the same server. *)
Definition dispatched_on (pc : MainPc) (ls : list Listener) (ts : list ShutdownTask) : Prop :=
  (∀ j t, ts !! j = Some t → ∃ a, owned ls (s_val t) a ∧ in_visited pc a) ∧
  (∀ j1 j2 t1 t2, ts !! j1 = Some t1 → ts !! j2 = Some t2 →
     srv (s_val t1) = srv (s_val t2) → j1 = j2).

Definition dispatched (s : State) : Prop :=
  dispatched_on (mainpc s) (listeners s) (shutdowns s).

(** The listener has scheduled its readiness line. *)
Definition timed (l : Listener) : bool :=
  match l_pc l with
  | LTimed _ | LReady _ | LServing _ | LReturned _ => true
  | _ => false
  end.

Definition is_afterfunc (ev : Event) : bool :=
  match ev with
  | EAfterFunc _ _ => true
  | _ => false
  end.

Definition is_listen_line (ev : Event) : bool :=
  match ev with
  | EListenLine _ _ _ => true
  | _ => false
  end.

(** The companion has written its line and entered its serve call. *)
Definition started (c : Companion) : bool :=
  match c_pc c with
  | CStart => false
  | _ => true
  end.

(** [hostname := "http://"; if isTls { hostname = "https://" }]. *)
Definition scheme_of (cfg : addrSt) : string :=
  if isTls cfg then "https://" else "http://".

(** The timer was set by a listener that has stored its server: the line
    it will write names that listener's engine, scheme and address. *)
Definition timer_for (ls : list Listener) (t : Timer) : Prop :=
  ∃ i l sv, ls !! i = Some l ∧ stored (l_pc l) = Some sv ∧ timed l = true ∧
            t_engine t = l_engine l ∧ t_addr t = Addr sv ∧
            t_scheme t = scheme_of (l_cfg l).

Definition after_100ms (ev : Event) : Prop :=
  match ev with
  | EAfterFunc _ d => d = 100 * millisecond
  | _ => True
  end.

(** The readiness lines: one timer per listener that has got past
    [time.AfterFunc], and one line in the trace per timer that has fired
    and per companion that has started. *)
Record announced (s : State) : Prop := mkAnnounced {
  an_timer : ∀ j t, timers s !! j = Some t → timer_for (listeners s) t;
  an_count : length (timers s) = length (List.filter timed (listeners s));
  an_sched : length (view is_afterfunc s) = length (timers s);
  an_delay : Forall after_100ms (out (world s));
  an_lines :
    length (view is_listen_line s) =
      (length (List.filter t_fired (timers s)) +
       length (List.filter started (companions s)))%nat
}.

(** The keys [Range] set out to visit are keys of [srvMap]. *)
Definition range_ok (s : State) : Prop :=
  match mainpc s with
  | MRange _ _ start _ => start ⊆ dom (srvMap s)
  | _ => True
  end.

(** The goroutine of [Run] can take a step, for some answer of the
    outside. *)
Definition main_can_move (s : State) : Prop :=
  ∃ env s', step TMain env s = Some s'.

(** * Properties *)

(** ** Worlds and traces *)

Lemma emit_nil w : emit [] w = w.
Proof. destruct w; unfold emit; simpl. by rewrite app_nil_r. Qed.

Lemma emit_emit evs evs' w : emit evs' (emit evs w) = emit (evs ++ evs') w.
Proof. unfold emit; simpl. by rewrite app_assoc. Qed.

(** ** Address resolution *)

Lemma Itoa_numeric p : option_map Z.of_int (NilZero.int_of_string (Itoa p)) = Some p.
Proof.
  unfold Itoa. rewrite NilZero.isi.
  - simpl. f_equal. apply DecimalZ.of_to.
  - destruct p; simpl; try discriminate; intros [= H]; by apply Unsigned.to_uint_nonnil in H.
  - destruct p; simpl; try discriminate; intros [= H]; by apply Unsigned.to_uint_nonnil in H.
Qed.

Lemma getPort_fixed os a w :
  with_delimiter a ≠ ":0" → getPort os a w = Ret (with_delimiter a) w.
Proof.
  intros H. unfold getPort. fold (with_delimiter a).
  by rewrite bool_decide_false.
Qed.

Lemma getPort_ephemeral os a w :
  with_delimiter a = ":0" →
  getPort os a w =
    match os with
    | Listening p => Ret (":" +:+ Itoa p) (emit [ENetListen ":0"; ENetClose] w)
    | ListenErr e =>
        Exited (emit [ENetListen ":0";
                      ELog PkgLog LogFatal ("Listen: " +:+ error_text e +:+ nl);
                      EExit 1] w)
    end.
Proof.
  intros H. unfold getPort. fold (with_delimiter a). rewrite H. simpl.
  destruct os; unfold bind, say, ret, Fatalf; simpl; by rewrite emit_emit.
Qed.

Lemma with_delimiter_zero a :
  with_delimiter a = ":0" ↔ a = ":0" ∨ a = "0".
Proof.
  unfold with_delimiter. split.
  - destruct (Contains a ":") eqn:E; simpl; [by left|].
    intros H. right. injection H as H. exact H.
  - by intros [-> | ->].
Qed.

Lemma getPort_cases os a w :
  ∃ evs, getPort_events evs ∧
    ((∃ a', getPort os a w = Ret a' (emit evs w)) ∨ getPort os a w = Exited (emit evs w)).
Proof.
  destruct (decide (with_delimiter a = ":0")) as [H|H].
  - rewrite (getPort_ephemeral _ _ _ H). destruct os; eexists; split;
      [apply gp_fatal | by right | apply gp_ok | left; eauto].
  - rewrite (getPort_fixed _ _ _ H). exists []. rewrite emit_nil. split; [constructor | eauto].
Qed.

(** C3 (as amended): an address without [:] other than ["0"] comes back
    with [:] prepended, an address with [:] other than [":0"] comes back
    unchanged, and both [":0"] and ["0"] are replaced by [":<p>"], where
    [p] is the port of a throwaway listener on [":0"] that is closed at
    once; when that listener cannot be had, the fatal line is logged and
    the process exits. *)
Theorem getPort_resolves os a w :
  (Contains a ":" = false → a ≠ "0" → getPort os a w = Ret (":" +:+ a) w) ∧
  (Contains a ":" = true → a ≠ ":0" → getPort os a w = Ret a w) ∧
  (a = ":0" ∨ a = "0" →
   match os with
   | Listening p =>
       getPort os a w = Ret (":" +:+ Itoa p) (emit [ENetListen ":0"; ENetClose] w) ∧
       option_map Z.of_int (NilZero.int_of_string (Itoa p)) = Some p
   | ListenErr e =>
       getPort os a w =
         Exited (emit [ENetListen ":0";
                       ELog PkgLog LogFatal ("Listen: " +:+ error_text e +:+ nl);
                       EExit 1] w)
   end).
Proof.
  split_and!.
  - intros Hc Hz. rewrite getPort_fixed; unfold with_delimiter; rewrite Hc; simpl; [done|].
    intros H. apply Hz. injection H as H. exact H.
  - intros Hc Hz. rewrite getPort_fixed; unfold with_delimiter; rewrite Hc; simpl; done.
  - intros Hz. apply with_delimiter_zero in Hz.
    rewrite (getPort_ephemeral _ _ _ Hz). destruct os; [done|].
    split; [done | apply Itoa_numeric].
Qed.

Lemma getPort_resolves_witness :
  getPort (Listening 40123) "8080" (world0 "") = Ret ":8080" (world0 "") ∧
  getPort (Listening 40123) "127.0.0.1:9090" (world0 "") = Ret "127.0.0.1:9090" (world0 "") ∧
  value_of (getPort (Listening 40123) ":0" (world0 "")) = Some ":40123".
Proof.
  destruct (getPort_resolves (Listening 40123) "8080" (world0 "")) as (H1 & _ & _).
  destruct (getPort_resolves (Listening 40123) "127.0.0.1:9090" (world0 "")) as (_ & H2 & _).
  destruct (getPort_resolves (Listening 40123) ":0" (world0 "")) as (_ & _ & H3).
  split_and!.
  - apply H1; [reflexivity | discriminate].
  - apply H2; [reflexivity | discriminate].
  - destruct H3 as [-> _]; [by left | reflexivity].
Defined.

Lemma getPort_zero_counterexample :
  Contains "0" ":" = false ∧
  getPort (Listening 40123) "0" (world0 "") ≠ Ret (":" +:+ "0") (world0 "") ∧
  value_of (getPort (Listening 40123) "0" (world0 "")) = Some ":40123".
Proof. split_and!; [reflexivity | discriminate | reflexivity]. Qed.

(** ** The return of the serve call *)

Lemma afterServe_cases e err w :
  afterServe e err w =
    match err with
    | Some ErrServerClosed => Ret tt w
    | Some (ErrOther msg) =>
        Exited (emit [ELog (EngineLog e) LogFatal ("Listen: " +:+ msg +:+ nl); EExit 1] w)
    | None => Ret tt (emit [ELog (EngineLog e) LogInfo "<nil>"] w)
    end.
Proof. by destruct err as [[|msg]|]. Qed.



(** ** The operating mode *)

Lemma modify_ok e f eng w :
  heap w !! e = Some eng → modify e f w = Ret tt (set_heap (<[e := f eng]> (heap w)) w).
Proof. intros H. unfold modify, bind, load. by rewrite H. Qed.

(** C5 (as amended): [SetMode] accepts [prod], [dev], [test] and the empty
    string, which stands for [prod]; for these it sets the mode code, the
    mode name and the log level of the engine without error, and for every
    other value it logs and raises the panic [web mode unknown]. *)
Theorem SetMode_modes e eng value w :
  heap w !! e = Some eng →
  (value = ProdMode ∨ value = "" →
     SetMode e value w =
       Ret tt (set_heap (<[e := in_mode prodCode ProdMode LogSuccess eng]> (heap w)) w)) ∧
  (value = DebugMode →
     SetMode e value w =
       Ret tt (set_heap (<[e := in_mode debugCode DebugMode LogDump eng]> (heap w)) w)) ∧
  (value = TestMode →
     SetMode e value w =
       Ret tt (set_heap (<[e := in_mode testCode TestMode LogInfo eng]> (heap w)) w)) ∧
  (value ≠ ProdMode → value ≠ "" → value ≠ DebugMode → value ≠ TestMode →
     SetMode e value w =
       Panicked ("web mode unknown: " +:+ value)
                (emit [ELog (EngineLog e) LogPanic ("web mode unknown: " +:+ value)] w)).
Proof.
  intros H. pose proof (lookup_lt_Some _ _ _ H) as Hlt.
  assert (∀ c (l : Level) name,
    (lvl <- (modify e (with_webMode c) ;;; ret l) ;;
     modify e (with_webModeName name) ;;; modify e (with_LogLevel lvl)) w =
    Ret tt (set_heap (<[e := in_mode c name l eng]> (heap w)) w)) as Hgo.
  { intros c l name. unfold bind, ret. rewrite (modify_ok _ _ _ _ H).
    erewrite modify_ok; last by (simpl; apply list_lookup_insert_eq).
    erewrite modify_ok; last by (simpl; apply list_lookup_insert_eq; rewrite length_insert).
    simpl. by rewrite !list_insert_insert_eq. }
  split_and!.
  - intros [-> | ->]; apply Hgo.
  - intros ->. apply Hgo.
  - intros ->. apply Hgo.
  - intros H1 H2 H3 H4. unfold SetMode.
    rewrite !bool_decide_false by done. done.
Qed.

Lemma SetMode_modes_witness :
  SetMode 0 "dev" one_engine =
    Ret tt (set_heap (<[0%nat := in_mode debugCode DebugMode LogDump (newEngine "Z")]>
                        (heap one_engine)) one_engine) ∧
  SetMode 0 "release" one_engine =
    Panicked ("web mode unknown: " +:+ "release")
      (emit [ELog (EngineLog 0) LogPanic ("web mode unknown: " +:+ "release")] one_engine).
Proof.
  destruct (SetMode_modes 0 (newEngine "Z") "dev" one_engine eq_refl) as (_ & H2 & _ & _).
  destruct (SetMode_modes 0 (newEngine "Z") "release" one_engine eq_refl) as (_ & _ & _ & H4).
  split; [by apply H2 | by apply H4].
Defined.

Lemma SetMode_empty_counterexample :
  "" ≠ ProdMode ∧ "" ≠ DebugMode ∧ "" ≠ TestMode ∧
  SetMode 0 "" one_engine =
    Ret tt (set_heap [in_mode prodCode ProdMode LogSuccess (newEngine "Z")] one_engine).
Proof. by split_and!. Qed.

(** ** The engine registry *)

Lemma New_fresh names w :
  zservers w !! name_of names = None →
  New names w = Ret (length (heap w)) (registered (name_of names) w).
Proof. intros H. unfold New, bind, alloc, lookup_zservers. simpl. by rewrite H. Qed.

Lemma New_duplicate names e w :
  zservers w !! name_of names = Some e →
  New names w =
    Exited (emit [ELog PkgLog LogFatal ("serverName: " +:+ name_of names +:+ " is has");
                  EExit 1]
              (set_heap (heap w ++ [newEngine (name_of names)]) w)).
Proof. intros H. unfold New, bind, alloc, lookup_zservers. simpl. by rewrite H. Qed.

Lemma Server_found names e w :
  zservers w !! name_of names = Some e → Server names w = Ret (e, true) w.
Proof. intros H. unfold Server, bind, lookup_zservers. by rewrite H. Qed.

Lemma Server_absent names w :
  zservers w !! name_of names = None →
  Server names w =
    Ret (length (heap w), false)
        (registered (name_of names)
           (emit [ELog PkgLog LogWarn ("serverName: " +:+ name_of names +:+ " is not")] w)).
Proof.
  intros H. unfold Server, bind, lookup_zservers, logf, say. rewrite H.
  rewrite New_fresh; [done | done].
Qed.

Lemma registered_lookup name w :
  zservers (registered name w) !! name = Some (length (heap w)) ∧
  heap (registered name w) !! length (heap w) = Some (newEngine name) ∧
  (∀ n, n ≠ name → zservers (registered name w) !! n = zservers w !! n) ∧
  (∀ e eng, heap w !! e = Some eng → heap (registered name w) !! e = Some eng).
Proof.
  split_and!; simpl.
  - apply lookup_insert_eq.
  - by rewrite lookup_app_r, Nat.sub_diag.
  - intros n Hn. by rewrite lookup_insert_ne.
  - intros e eng H. by apply lookup_app_l_Some.
Qed.

Lemma registry_ok_registered name w :
  registry_ok w → registry_ok (registered name w).
Proof.
  intros Hok n e. simpl. rewrite length_app. simpl.
  destruct (decide (n = name)) as [-> | Hne].
  - rewrite lookup_insert_eq. intros [= <-]. lia.
  - rewrite lookup_insert_ne by done. intros H. apply Hok in H. lia.
Qed.

(** C4: [New] under a name that is already registered logs the fatal line
    and exits, and [Server] of that name returns the registered engine and
    leaves the world as it was; engines registered under two distinct fresh
    names are distinct and both are found again; [Server] of an absent name
    logs a warning, registers a fresh default engine under that name and
    returns it, leaving every other registration and engine alone. *)
Theorem registry_names_unique w :
  (∀ names e, zservers w !! name_of names = Some e →
     New names w =
       Exited (emit [ELog PkgLog LogFatal ("serverName: " +:+ name_of names +:+ " is has");
                     EExit 1]
                 (set_heap (heap w ++ [newEngine (name_of names)]) w)) ∧
     Server names w = Ret (e, true) w) ∧
  (∀ n1 n2, n1 ≠ n2 → zservers w !! n1 = None → zservers w !! n2 = None →
     ∃ e1 e2 w2,
       (New [n1] ;;; New [n2]) w = Ret e2 w2 ∧
       New [n1] w = Ret e1 (registered n1 w) ∧
       e1 ≠ e2 ∧
       Server [n1] w2 = Ret (e1, true) w2 ∧ Server [n2] w2 = Ret (e2, true) w2 ∧
       heap w2 !! e1 = Some (newEngine n1) ∧ heap w2 !! e2 = Some (newEngine n2)) ∧
  (∀ names, zservers w !! name_of names = None →
     ∃ e w',
       Server names w = Ret (e, false) w' ∧
       out w' = (out w ++ [ELog PkgLog LogWarn ("serverName: " +:+ name_of names +:+ " is not")])%list ∧
       zservers w' !! name_of names = Some e ∧
       heap w' !! e = Some (newEngine (name_of names)) ∧
       heap w !! e = None ∧
       (∀ n, n ≠ name_of names → zservers w' !! n = zservers w !! n) ∧
       (∀ e' eng, heap w !! e' = Some eng → heap w' !! e' = Some eng) ∧
       (registry_ok w → ∀ n, n ≠ name_of names → zservers w' !! n ≠ Some e)).
Proof.
  split_and!.
  - intros names e H. split; [by eapply New_duplicate | by apply Server_found].
  - intros n1 n2 Hne H1 H2.
    exists (length (heap w)), (length (heap (registered n1 w))),
           (registered n2 (registered n1 w)).
    assert (zservers (registered n1 w) !! n2 = None) as H2'.
    { simpl. by rewrite lookup_insert_ne. }
    split_and!.
    + unfold bind. rewrite (New_fresh [n1]) by done. by rewrite (New_fresh [n2]).
    + by apply (New_fresh [n1]).
    + simpl. rewrite length_app. simpl. lia.
    + apply Server_found. simpl. rewrite lookup_insert_ne by done.
      apply lookup_insert_eq.
    + apply Server_found. simpl. apply lookup_insert_eq.
    + destruct (registered_lookup n1 w) as (_ & R2 & _ & _).
      destruct (registered_lookup n2 (registered n1 w)) as (_ & _ & _ & R4).
      by apply R4.
    + by destruct (registered_lookup n2 (registered n1 w)) as (_ & R2 & _ & _).
  - intros names H. eexists _, _. rewrite (Server_absent _ _ H).
    split; [reflexivity|].
    set (w1 := emit _ w).
    destruct (registered_lookup (name_of names) w1) as (R1 & R2 & R3 & R4).
    split_and!; try done.
    + by apply lookup_ge_None_2.
    + intros Hok n Hn. rewrite R3 by done. intros Hc. apply Hok in Hc. simpl in Hc. lia.
Qed.

(** ** The sequential pieces of the shutdown phase *)

Lemma runNewProcess_emits spawn w :
  runNewProcess spawn w = Ret tt (emit (restart_events (fileMd5 w) spawn) w).
Proof.
  unfold runNewProcess, restart_events, bind, logf, say, ret.
  destruct (bool_decide (fileMd5 w = "")), spawn; simpl;
    rewrite ?emit_emit; try done.
Qed.

Lemma afterShutdown_emits iskill v err w :
  afterShutdown iskill v err w = Ret tt (emit (stop_events iskill v err) w).
Proof.
  unfold afterShutdown, stop_events, bind, logf, say, ret.
  destruct err, iskill; simpl; rewrite ?emit_emit, ?emit_nil; done.
Qed.

(** ** Schedules *)

Lemma exec_app sched sched' s : exec (sched ++ sched') s = exec sched' (exec sched s).
Proof. apply foldl_app. Qed.

Lemma exec_invariant (P : State → Prop) s0 :
  P s0 →
  (∀ s tid env s', P s → step tid env s = Some s' → P s') →
  ∀ sched, P (exec sched s0).
Proof.
  intros H0 Hstep sched. revert s0 H0.
  induction sched as [|a sched IH]; intros s0 H0; [done|].
  simpl. apply IH. unfold turn.
  destruct (step a.1 a.2 s0) eqn:E; simpl; eauto.
Qed.

Ltac step_cases H :=
  let Hh := fresh "Hhalt" in
  unfold step in H;
  match type of H with
  | context [halted ?s] => destruct (halted s) eqn:Hh; [discriminate H|]
  end;
  match type of H with
  | context [match ?t with TMain => _ | _ => _ end] =>
      destruct t as [ | ?i | ?i | ?i | ?i ]
  end;
  [ unfold main_step in H;
    match type of H with
    | context [mainpc ?s] =>
        destruct (mainpc s)
          as [ [|[? ?] ?] | ? | ? ? | ? ? ? ? | ? | ? | ? | ? ] eqn:?HpcM
    end
  | match type of H with
    | context [listeners ?s !! ?j] =>
        destruct (listeners s !! j) as [?l|] eqn:?Hl; [|discriminate H]
    end;
    simpl in H; unfold listener_step in H;
    match type of H with
    | context [l_pc ?l] => destruct (l_pc l) eqn:?HpcL
    end
  | match type of H with
    | context [companions ?s !! ?j] =>
        destruct (companions s !! j) as [?c|] eqn:?Hc; [|discriminate H]
    end;
    simpl in H; unfold companion_step in H;
    match type of H with
    | context [c_pc ?c] => destruct (c_pc c) eqn:?HpcC
    end
  | match type of H with
    | context [shutdowns ?s !! ?j] =>
        destruct (shutdowns s !! j) as [?t|] eqn:?Ht; [|discriminate H]
    end;
    simpl in H; unfold shutdown_step in H;
    match type of H with
    | context [s_pc ?t] => destruct (s_pc t) eqn:?HpcS
    end
  | match type of H with
    | context [timers ?s !! ?j] =>
        destruct (timers s !! j) as [?t|] eqn:?Ht; [|discriminate H]
    end;
    simpl in H; unfold timer_step in H;
    match type of H with
    | context [t_fired ?t] => destruct (t_fired t) eqn:?Hf
    end ];
  try discriminate H.

Ltac step_norm H :=
  unfold lift, bind, say, logf in H;
  repeat match type of H with
  | context [if ?b then runNewProcess ?e else ret tt] => destruct b eqn:?Hif
  end;
  unfold ret in H;
  rewrite ?runNewProcess_emits, ?afterShutdown_emits, ?afterServe_cases in H;
  simpl in H;
  repeat match type of H with
  | context [getPort ?o ?a ?w] =>
      let evs := fresh "evs" in
      let Hev := fresh "Hev" in
      let a' := fresh "a'" in
      let Hg := fresh "Hg" in
      destruct (getPort_cases o a w) as (evs & Hev & [[a' Hg] | Hg]);
      rewrite Hg in H; clear Hg; simpl in H
  | context [load ?e ?w] =>
      unfold load in H; simpl in H;
      destruct (heap _ !! e) eqn:?Hheap; simpl in H
  | context [match served ?env with _ => _ end] =>
      destruct (served env) as [[|?msg]|] eqn:?Herr; simpl in H
  | context [match pick ?env with _ => _ end] =>
      destruct (pick env) eqn:?Hpick; simpl in H
  | context [match srvMap ?s !! ?k with _ => _ end] =>
      destruct (srvMap s !! k) eqn:?Hget; simpl in H
  | context [match Config ?x with _ => _ end] =>
      destruct (Config x) eqn:?Hcfg; simpl in H
  | context [if ?b then _ else _] => destruct b eqn:?Hif; simpl in H
  end;
  try discriminate H;
  injection H as <-.


(** ** Lists of goroutines *)

Lemma filter_alter_length {A} (p : A → bool) (f : A → A) (l : list A) i x :
  l !! i = Some x →
  (length (List.filter p (alter f i l)) + (if p x then 1 else 0) =
   length (List.filter p l) + (if p (f x) then 1 else 0))%nat.
Proof.
  revert i. induction l as [|y l IH]; intros [|i] H; simplify_eq/=.
  - destruct (p x), (p (f x)); simpl; lia.
  - specialize (IH _ H). destruct (p y); simpl; lia.
Qed.

Lemma filter_length_le {A} (p : A → bool) (l : list A) :
  (length (List.filter p l) ≤ length l)%nat.
Proof. induction l as [|y l IH]; simpl; [done|]. destruct (p y); simpl; lia. Qed.

Lemma filter_length_all {A} (p : A → bool) (l : list A) i x :
  length (List.filter p l) = length l → l !! i = Some x → p x = true.
Proof.
  revert i. induction l as [|y l IH]; intros [|i] Hlen H; simplify_eq/=.
  - destruct (p x) eqn:E; [done|]. pose proof (filter_length_le p l). lia.
  - destruct (p y) eqn:E; simpl in Hlen.
    + eapply IH; [lia | done].
    + pose proof (filter_length_le p l). lia.
Qed.

Lemma omap_length_le {A B} (g : A → option B) (l : list A) :
  (length (omap g l) ≤ length l)%nat.
Proof. induction l as [|y l IH]; csimpl; [done|]. destruct (g y); simpl; lia. Qed.

Lemma omap_length_all {A B} (g : A → option B) (l : list A) i x :
  length (omap g l) = length l → l !! i = Some x →
  ∃ b, g x = Some b ∧ omap g l !! i = Some b.
Proof.
  revert i. induction l as [|y l IH]; intros [|i] Hlen H; simplify_eq/=; csimpl in *.
  - destruct (g x) eqn:E; [eauto|]. pose proof (omap_length_le g l). lia.
  - destruct (g y) eqn:E; simpl in Hlen.
    + apply IH; [lia | done].
    + pose proof (omap_length_le g l). lia.
Qed.

Lemma elem_of_omap_lookup {A B} (g : A → option B) (l : list A) b :
  b ∈ omap g l ↔ ∃ i x, l !! i = Some x ∧ g x = Some b.
Proof.
  rewrite list_elem_of_omap. split.
  - intros (x & Hx & Hg). apply list_elem_of_lookup in Hx as [i Hi]. eauto.
  - intros (i & x & Hi & Hg). exists x. split; [|done].
    apply list_elem_of_lookup. eauto.
Qed.

Lemma size_list_to_set_le (l : list string) :
  (size (list_to_set (C := gset string) l) ≤ length l)%nat.
Proof.
  induction l as [|x l IH].
  - by rewrite list_to_set_nil, size_empty.
  - rewrite list_to_set_cons, size_union_alt, size_singleton. simpl.
    assert (list_to_set l ∖ {[x]} ⊆ list_to_set (C := gset string) l) as Hsub
      by (intros k Hk; by apply elem_of_difference in Hk as [? _]).
    apply subseteq_size in Hsub. lia.
Qed.

Lemma size_list_to_set_NoDup (l : list string) :
  size (list_to_set (C := gset string) l) = length l → NoDup l.
Proof.
  induction l as [|x l IH]; intros H; [constructor|].
  rewrite list_to_set_cons in H. simpl in H.
  pose proof (size_list_to_set_le l) as Hle.
  destruct (decide (x ∈ l)) as [Hin|Hin].
  - assert ({[x]} ∪ list_to_set l = list_to_set (C := gset string) l) as Heq.
    { apply set_eq. intros k. rewrite elem_of_union, elem_of_singleton, elem_of_list_to_set.
      split; [intros [-> | ?]; done | auto]. }
    rewrite Heq in H. lia.
  - constructor; [done|]. apply IH.
    rewrite size_union in H.
    + rewrite size_singleton in H. lia.
    + intros k Hk1 Hk2. apply elem_of_singleton in Hk1 as ->.
      by apply elem_of_list_to_set in Hk2.
Qed.

(** ** The bookkeeping of the barrier *)

Lemma size_srvMap_le_stored n s :
  accounted n s → (size (srvMap s) ≤ length (stored_addrs s))%nat.
Proof.
  intros Hacc. rewrite <- size_dom.
  etrans; [|apply size_list_to_set_le].
  apply subseteq_size. intros k Hk. apply elem_of_dom in Hk.
  apply elem_of_list_to_set. by apply (acc_dom _ _ Hacc).
Qed.

Lemma accounted_chain n s :
  accounted n s →
  (signaled s ≤ length (shutdowns s) ∧ length (shutdowns s) ≤ size (srvMap s) ∧
   size (srvMap s) ≤ length (stored_addrs s) ∧
   length (stored_addrs s) ≤ length (listeners s))%nat.
Proof.
  intros Hacc. split_and!.
  - apply filter_length_le.
  - apply (acc_tasks _ _ Hacc).
  - by eapply size_srvMap_le_stored.
  - apply omap_length_le.
Qed.

Lemma accounted_start w targets : accounted (length targets) (start w targets).
Proof.
  constructor; unfold signaled; simpl; try done; try lia.
  intros k [v Hk]. by rewrite lookup_empty in Hk.
Qed.

Lemma stored_addr_set_l_pc pc l :
  stored_addr (set_l_pc pc l) = Addr <$> stored pc.
Proof. done. Qed.

Lemma stored_addrs_alter pc i (ls : list Listener) l k :
  ls !! i = Some l →
  (∀ a, stored_addr l = Some a → Addr <$> stored pc = Some a) →
  k ∈ omap stored_addr ls → k ∈ omap stored_addr (alter (set_l_pc pc) i ls).
Proof.
  intros Hl Hkeep. rewrite !elem_of_omap_lookup.
  intros (j & x & Hj & Hx). destruct (decide (j = i)) as [-> | Hne].
  - exists i, (set_l_pc pc l). rewrite list_lookup_alter_eq, Hl. simplify_eq. split; [done|].
    rewrite stored_addr_set_l_pc. auto.
  - exists j, x. by rewrite list_lookup_alter_ne.
Qed.

Lemma stored_addrs_alter_new pc i (ls : list Listener) l srv :
  ls !! i = Some l → stored pc = Some srv →
  Addr srv ∈ omap stored_addr (alter (set_l_pc pc) i ls).
Proof.
  intros Hl Hpc. apply elem_of_omap_lookup.
  exists i, (set_l_pc pc l). rewrite list_lookup_alter_eq, Hl. split; [done|].
  by rewrite stored_addr_set_l_pc, Hpc.
Qed.

Lemma size_insert_ge (m : gmap string serverMap) k v :
  (size m ≤ size (<[k := v]> m))%nat.
Proof.
  destruct (m !! k) eqn:E.
  - rewrite map_size_insert_Some; [done | eauto].
  - rewrite map_size_insert_None by done. lia.
Qed.

Lemma NoDup_length_le_size (l : list string) (m : gmap string serverMap) :
  NoDup l → (∀ k, k ∈ l → is_Some (m !! k)) → (length l ≤ size m)%nat.
Proof.
  intros Hnd Hin. rewrite <- size_dom, <- (size_list_to_set (C := gset string) l) by done.
  apply subseteq_size. intros k Hk. apply elem_of_list_to_set in Hk.
  apply elem_of_dom. auto.
Qed.

Lemma accounted_step n s tid env s' :
  accounted n s → step tid env s = Some s' → accounted n s'.
Proof.
  intros Hacc H.
  pose proof (accounted_chain _ _ Hacc) as Hchain.
  destruct Hacc as [Hcount Hloop Hrange Htasks Hdom Hwait].
  step_cases H; step_norm H.
  all: constructor; simpl.
  all: unfold signaled, stored_addrs in *; simpl in *.
  all: rewrite ?HpcM in *; simpl in *.
  all: rewrite ?length_alter, ?length_app; simpl.
  all: try done.
  all: try lia.
  all: try (intros k Hk; apply Hdom in Hk;
            eapply stored_addrs_alter; [done | | done]; unfold stored_addr;
            rewrite ?HpcL; simpl; by auto).
  all: try match goal with
       | |- context [List.filter is_done (alter (set_s_pc ?pc) ?i ?l)] =>
           match goal with
           | Ht : l !! i = Some ?t |- _ =>
               pose proof (filter_alter_length is_done (set_s_pc pc) l i t Ht) as Hfl;
               unfold is_done at 2 4 in Hfl; simpl in Hfl; rewrite HpcS in Hfl
           end
       end.
  all: try lia.
  - intros k Hk. rewrite omap_app. apply elem_of_app. left. auto.
  - rewrite Hrange. split_and!; [constructor | by intros k ?%elem_of_nil | done].
  - rewrite Hrange. split_and!; [constructor | by intros k ?%elem_of_nil | done].
  - rewrite List.filter_app. simpl. by rewrite app_nil_r.
  - destruct Hrange as (Hnd & Hin & Hlen). apply bool_decide_eq_false in Hif.
    split_and!; [by constructor | | lia].
    intros k [-> | Hk]%elem_of_cons; eauto.
  - destruct Hrange as (Hnd & Hin & Hlen). apply bool_decide_eq_false in Hif.
    pose proof (NoDup_length_le_size (s0 :: visited) (srvMap s)) as Hle.
    simpl in Hle. rewrite Nat.add_1_r, Hlen. apply Hle; [by constructor|].
    intros k [-> | Hk]%elem_of_cons; eauto.
  - intros _. by apply bool_decide_eq_true in Hif.
  - destruct (mainpc s); try done. destruct Hrange as (Hnd & Hin & Hlen).
    split_and!; [done | | done]. intros k Hk. apply lookup_insert_is_Some'. auto.
  - etrans; [apply Htasks | apply size_insert_ge].
  - intros k Hk. apply lookup_insert_is_Some' in Hk as [<- | Hk].
    + by eapply stored_addrs_alter_new.
    + eapply stored_addrs_alter; [done | | by apply Hdom].
      unfold stored_addr. by rewrite HpcL.
  - destruct (mainpc s); try done; by rewrite Hrange in Ht.
  - destruct (mainpc s); try done; by rewrite Hrange in Ht.
  - destruct (mainpc s); try done; by rewrite Hrange in Ht.
  - destruct (mainpc s); try done; by rewrite Hrange in Ht.
  - intros Hp. specialize (Hwait Hp). exfalso.
    assert (length (List.filter is_done (shutdowns s)) = length (shutdowns s)) as Hall
      by (destruct (mainpc s); simpl in *; try done; lia).
    pose proof (filter_length_all _ _ _ _ Hall Ht) as Hd.
    unfold is_done in Hd. by rewrite HpcS in Hd.
Qed.

Lemma accounted_exec w targets sched :
  accounted (length targets) (exec sched (start w targets)).
Proof.
  apply exec_invariant; [apply accounted_start | intros; by eapply accounted_step].
Qed.

Lemma size_srvMap_le_set n s :
  accounted n s →
  (size (srvMap s) ≤ size (list_to_set (C := gset string) (stored_addrs s)))%nat.
Proof.
  intros Hacc. rewrite <- size_dom.
  apply subseteq_size. intros k Hk. apply elem_of_dom in Hk.
  apply elem_of_list_to_set. by apply (acc_dom _ _ Hacc).
Qed.

(** Once [m.Wait()] has returned, every listener has stored its server
    under an address of its own and every shutdown goroutine has signaled. *)
Lemma released_distinct n s :
  accounted n s → past_wait (mainpc s) = true →
  length (listeners s) = n ∧
  length (stored_addrs s) = n ∧ NoDup (stored_addrs s) ∧
  length (shutdowns s) = n ∧ signaled s = n ∧ wg s = 0.
Proof.
  intros Hacc Hp.
  pose proof (accounted_chain _ _ Hacc) as (H1 & H2 & H3 & H4).
  pose proof (size_srvMap_le_set _ _ Hacc) as H5.
  pose proof (size_list_to_set_le (stored_addrs s)) as H6.
  pose proof (acc_wait _ _ Hacc Hp) as Hwg.
  pose proof (acc_count _ _ Hacc) as Hc.
  pose proof (acc_loop _ _ Hacc) as Hl.
  assert (length (listeners s) = n) as Hn by (destruct (mainpc s); done).
  split_and!; try lia.
  apply size_list_to_set_NoDup. lia.
Qed.

Lemma omap_distinct {A B} (g : A → option B) (l : list A) i j x y b :
  NoDup (omap g l) → length (omap g l) = length l →
  l !! i = Some x → l !! j = Some y → g x = Some b → g y = Some b → i = j.
Proof.
  intros Hnd Hlen Hi Hj Hx Hy.
  destruct (omap_length_all g l i x Hlen Hi) as (b1 & Hb1 & Hi').
  destruct (omap_length_all g l j y Hlen Hj) as (b2 & Hb2 & Hj').
  simplify_eq. by eapply NoDup_lookup.
Qed.

(** ** The coordinator *)

Lemma restart_events_view md5 spawn :
  List.filter is_spawn (restart_events md5 spawn) = [ERunNewProcess md5] ∧
  List.filter is_deadline (restart_events md5 spawn) = [] ∧
  List.filter is_barrier (restart_events md5 spawn) = [] ∧
  List.filter is_shutdown_line (restart_events md5 spawn) = [] ∧
  Forall on_deadline (restart_events md5 spawn).
Proof.
  unfold restart_events.
  destruct (bool_decide (md5 = "")), spawn; simpl; split_and!; try done;
    repeat constructor.
Qed.

Lemma stop_events_view iskill v err :
  List.filter is_spawn (stop_events iskill v err) = [] ∧
  List.filter is_deadline (stop_events iskill v err) = [] ∧
  List.filter is_barrier (stop_events iskill v err) = [] ∧
  (iskill = false → List.filter is_shutdown_line (stop_events iskill v err) = []) ∧
  Forall on_deadline (stop_events iskill v err).
Proof.
  unfold stop_events.
  destruct iskill, err; simpl; split_and!; try done; repeat constructor.
Qed.

Lemma coordinated_start w targets : coordinated w (start w targets).
Proof. by constructor. Qed.

Lemma shutdowns_alter_keep pc i (ts : list ShutdownTask) j t' (P : ShutdownTask → Prop) :
  (∀ t, P t → P (set_s_pc pc t)) →
  (∀ j t, ts !! j = Some t → P t) →
  alter (set_s_pc pc) i ts !! j = Some t' → P t'.
Proof.
  intros Hkeep Hall. destruct (decide (i = j)) as [-> | Hne].
  - rewrite list_lookup_alter_eq. destruct (ts !! j) eqn:E; simpl; [|done].
    intros [= <-]. eauto.
  - rewrite list_lookup_alter_ne by done. eauto.
Qed.

Lemma coordinated_step w0 s tid env s' :
  coordinated w0 s → step tid env s = Some s' → coordinated w0 s'.
Proof.
  intros [Hglob Hspawn Hdl Hctx Htasks Hcalls Hlines] H.
  destruct Hglob as (G1 & G2 & G3 & G4 & G5).
  step_cases H; step_norm H.
  all: try destruct Hev.
  all: constructor; unfold same_globals, view in *; simpl in *.
  all: rewrite ?HpcM in *; simpl in *.
  all: rewrite ?List.filter_app, ?Forall_app; simpl.
  all: rewrite ?app_nil_r.
  all: try done.
  all: try (split_and!; done).
  all: try (intros i0 t0 Hi0;
            eapply (shutdowns_alter_keep _ _ _ _ _
                      (λ t, s_ctx t = 20 * second ∧ iskill_of (mainpc s) = Some (s_iskill t)));
            [done | apply Htasks | done]).
  all: try (intros i0 t0 Hi0; by apply Htasks in Hi0 as [_ ?]).
  all: try pose proof (Htasks _ _ Ht) as [Hd Hk].
  all: try (split_and!; try done; repeat constructor; done).
  all: try match goal with
       | |- context [restart_events ?m ?e] =>
           destruct (restart_events_view m e) as (R1 & R2 & R3 & R4 & R5);
           rewrite ?R1, ?R2, ?R3, ?R4, ?app_nil_r
       | |- context [stop_events ?b ?v ?e] =>
           destruct (stop_events_view b v e) as (R1 & R2 & R3 & R4 & R5);
           rewrite ?R1, ?R2, ?R3, ?app_nil_r
       end.
  all: try done.
  all: try (split_and!; try done; repeat constructor; done).
  - intros _. by apply Hlines.
  - by rewrite Hdl.
  - rewrite Hspawn, <- G3, <- G4, Hif. done.
  - rewrite Hspawn, <- G3, Hif. done.
  - intros j t' [Hj | [_ Hj]]%lookup_app_Some.
    + by apply Htasks in Hj.
    + by apply list_lookup_singleton_Some in Hj as [_ <-].
  - by destruct (ShutdownDone (world s)).
  - by destruct (ShutdownDone (world s)).
  - rewrite Hk, Hif. by intros [].
  - intros Hne. rewrite Hlines, R4; [done | | done].
    rewrite Hk in Hne. by destruct (s_iskill t).
Qed.

Lemma coordinated_exec w targets sched :
  coordinated w (exec sched (start w targets)).
Proof.
  apply exec_invariant; [apply coordinated_start | intros; by eapply coordinated_step].
Qed.

(** ** The barrier *)

Lemma signaled_alter_keep s i t pc :
  shutdowns s !! i = Some t → s_pc t ≠ SDone → pc ≠ SDone →
  length (List.filter is_done (alter (set_s_pc pc) i (shutdowns s))) = signaled s.
Proof.
  intros Ht Hold Hnew.
  pose proof (filter_alter_length is_done (set_s_pc pc) _ _ _ Ht) as Hfl.
  unfold is_done at 2 4 in Hfl. simpl in Hfl. unfold signaled.
  destruct (s_pc t), pc; try done; lia.
Qed.

Lemma signaled_alter_done s i t :
  shutdowns s !! i = Some t → s_pc t ≠ SDone →
  length (List.filter is_done (alter (set_s_pc SDone) i (shutdowns s))) = S (signaled s).
Proof.
  intros Ht Hold.
  pose proof (filter_alter_length is_done (set_s_pc SDone) _ _ _ Ht) as Hfl.
  unfold is_done at 2 4 in Hfl. simpl in Hfl. unfold signaled.
  destruct (s_pc t); try done; lia.
Qed.

Lemma barrier_ok_start w targets cb : barrier_ok cb (start w targets).
Proof. by exists []. Qed.

Lemma barrier_ok_step n w0 s tid env s' :
  accounted n s → coordinated w0 s → barrier_ok (ShutdownDone w0) s →
  step tid env s = Some s' → barrier_ok (ShutdownDone w0) s'.
Proof.
  intros Hacc Hco (ds & Hview & Hlen) H.
  pose proof (released_distinct _ _ Hacc) as Hrel.
  destruct (co_globals _ _ Hco) as (_ & _ & _ & _ & G5).
  unfold barrier_ok, view, signaled in *.
  step_cases H; step_norm H.
  all: try destruct Hev.
  all: simpl in *; rewrite ?HpcM in *; simpl in *.
  all: rewrite ?List.filter_app; simpl; rewrite ?app_nil_r.
  all: try match goal with
       | |- context [restart_events ?m ?e] =>
           destruct (restart_events_view m e) as (R1 & R2 & R3 & R4 & R5);
           rewrite ?R3, ?app_nil_r
       | |- context [stop_events ?b ?v ?e] =>
           destruct (stop_events_view b v e) as (R1 & R2 & R3 & R4 & R5);
           rewrite ?R3, ?app_nil_r
       end.
  all: try (exists ds; split; [done|];
            rewrite ?List.filter_app; simpl; rewrite ?app_nil_r, ?length_app; simpl;
            try done; try lia).
  - exists ds. rewrite Hview, app_nil_r. done.
  - exists ds. rewrite Hview, <- G5, <- app_assoc. done.
  - exists ds. rewrite Hview, <- G5. done.
  - exists ds. rewrite Hview, <- !app_assoc. done.
  - rewrite (signaled_alter_keep s i t); [done | done | by rewrite HpcS | done].
  - rewrite (signaled_alter_keep s i t); [done | done | by rewrite HpcS | done].
  - rewrite (signaled_alter_keep s i t); [done | done | by rewrite HpcS | done].
  - assert (past_wait (mainpc s) = false) as Hnp.
    { destruct (past_wait (mainpc s)) eqn:Hp; [|done]. exfalso.
      destruct (Hrel eq_refl) as (_ & _ & _ & Hl & Hs & _).
      assert (is_done t = true) as Hd
        by (eapply filter_length_all; [|done]; lia).
      unfold is_done in Hd. by rewrite HpcS in Hd. }
    exists (ds ++ [srv (s_val t)])%list.
    rewrite (signaled_alter_done s i t); [| done | by rewrite HpcS].
    rewrite Hview, fmap_app, length_app. simpl. split; [|unfold signaled; lia].
    destruct (mainpc s); try done; by rewrite !app_nil_r.
Qed.

(** The three invariants together, for a run on [n] bind targets. *)
Lemma run_invariants w targets sched :
  let s := exec sched (start w targets) in
  accounted (length targets) s ∧ coordinated w s ∧ barrier_ok (ShutdownDone w) s.
Proof.
  apply (exec_invariant
           (λ s, accounted (length targets) s ∧ coordinated w s ∧
                 barrier_ok (ShutdownDone w) s)).
  - split_and!; [apply accounted_start | apply coordinated_start | apply barrier_ok_start].
  - intros s tid env s' (Ha & Hc & Hb) Hstep. split_and!.
    + by eapply accounted_step.
    + by eapply coordinated_step.
    + by eapply barrier_ok_step.
Qed.

(** ** Listeners and companions *)

Lemma stored_before_serving_quiet t evs :
  stored_before_serving t → Forall (λ ev, is_serve ev = false) evs →
  stored_before_serving (t ++ evs).
Proof.
  intros Ht Hq pre post i a tl Heq.
  apply app_eq_inv in Heq as [(k & -> & Hk) | (k & -> & Hk)].
  - destruct k as [|x k]; simpl in Hk.
    + rewrite <- Hk in Hq. by inversion Hq.
    + injection Hk as <- _. by eapply (Ht pre k).
  - rewrite Hk in Hq. apply Forall_app in Hq as [_ Hq]. by inversion Hq.
Qed.

Lemma stored_before_serving_serve t i a tl e :
  stored_before_serving t → EStore a (mkServerMap e i) ∈ t →
  stored_before_serving (t ++ [EServe i a tl]).
Proof.
  intros Ht Hin pre post j b tl' Heq.
  apply app_eq_inv in Heq as [(k & -> & Hk) | (k & -> & Hk)].
  - destruct k as [|x k]; simpl in Hk.
    + injection Hk as <- <- <- _. rewrite app_nil_r in Hin. eauto.
    + injection Hk as <- Hk.
      by eapply (Ht pre k).
  - destruct k as [|x [|y k]]; simplify_eq/=.
    exists e. apply elem_of_app. by left.
Qed.

Lemma supervised_start w targets : supervised (start w targets).
Proof.
  constructor; simpl; try done.
  - intros ?????. by destruct pre.
  - intros ??? H. by apply elem_of_nil in H.
Qed.

Lemma listeners_alter_back pc i (ls : list Listener) j l' :
  alter (set_l_pc pc) i ls !! j = Some l' →
  ∃ l, ls !! j = Some l ∧ l_engine l' = l_engine l ∧ l_cfg l' = l_cfg l ∧
       l_pc l' = (if decide (i = j) then pc else l_pc l).
Proof.
  destruct (decide (i = j)) as [-> | Hne].
  - rewrite list_lookup_alter_eq. destruct (ls !! j) eqn:E; simpl; [|done].
    intros [= <-]. eauto.
  - rewrite list_lookup_alter_ne by done. eauto.
Qed.

Lemma listeners_alter_forth pc i (ls : list Listener) j l :
  ls !! j = Some l →
  ∃ l', alter (set_l_pc pc) i ls !! j = Some l' ∧
        l_engine l' = l_engine l ∧ l_cfg l' = l_cfg l ∧
        l_pc l' = (if decide (i = j) then pc else l_pc l).
Proof.
  intros Hl. destruct (decide (i = j)) as [-> | Hne].
  - rewrite list_lookup_alter_eq, Hl. simpl. eauto.
  - rewrite list_lookup_alter_ne by done. eauto.
Qed.

Lemma quiet_elem_of (t evs : list Event) ev :
  Forall (λ ev, quiet ev = true) evs → quiet ev = false →
  ev ∈ (t ++ evs)%list → ev ∈ t.
Proof.
  intros Hq Hev [Hin | Hin]%elem_of_app; [done|].
  rewrite Forall_forall in Hq. apply Hq in Hin. congruence.
Qed.

Lemma quiet_not_serve evs :
  Forall (λ ev, quiet ev = true) evs → Forall (λ ev, is_serve ev = false) evs.
Proof. intros H. eapply Forall_impl; [done|]. by intros []. Qed.

(** A step that leaves the listeners, the companions and the registry
    alone. *)
Lemma supervised_frame s s' evs :
  supervised s →
  listeners s' = listeners s → companions s' = companions s →
  srvMap s' = srvMap s →
  out (world s') = (out (world s) ++ evs)%list →
  Forall (λ ev, quiet ev = true) evs →
  supervised s'.
Proof.
  intros [Hstored Hentry Horder Howner Hcount Hserve] Hl Hc Hm Ho Hq.
  constructor; unfold companions_of in *; rewrite ?Hl, ?Hc, ?Hm, ?Ho; try done.
  - intros i l sv Hi Hsv. destruct (Hstored i l sv Hi Hsv) as [Hin Hsome].
    split; [|done]. apply elem_of_app. by left.
  - apply stored_before_serving_quiet; [done | by apply quiet_not_serve].
  - intros i a how Hin. apply (Hserve i a how). by eapply quiet_elem_of.
Qed.

(** A listener that moves on without storing, without starting a companion
    and without serving. *)
Lemma supervised_move s s' evs i l pc :
  supervised s →
  listeners s !! i = Some l →
  listeners s' = alter (set_l_pc pc) i (listeners s) →
  companions s' = companions s → srvMap s' = srvMap s →
  out (world s') = (out (world s) ++ evs)%list →
  Forall (λ ev, quiet ev = true) evs →
  Addr <$> stored pc = Addr <$> stored (l_pc l) →
  (past_tls pc = past_tls (l_pc l) ∨
   past_tls (l_pc l) = false ∧ wants_companion (l_cfg l) = false) →
  supervised s'.
Proof.
  intros [Hstored Hentry Horder Howner Hcount Hserve] Hi Hl Hc Hm Ho Hq Hst Htls.
  constructor; unfold companions_of in *; rewrite ?Hl, ?Hc, ?Hm, ?Ho.
  - intros j l' sv Hj Hsv.
    apply listeners_alter_back in Hj as (l0 & Hj & He & _ & Hp).
    rewrite He, elem_of_app. rewrite Hp in Hsv.
    destruct (decide (i = j)) as [<- | Hne].
    + rewrite Hi in Hj. injection Hj as <-.
      rewrite Hsv in Hst. simpl in Hst.
      destruct (stored (l_pc l)) as [sv0|] eqn:E; [|done].
      injection Hst as Hst. rewrite Hst.
      destruct (Hstored i l sv0 Hi E) as [Hin Hsome]. auto.
    + destruct (Hstored j l0 sv Hj Hsv). auto.
  - intros a v Hv. destruct (Hentry a v Hv) as (l0 & sv & Hl0 & Hsv & Ha & He).
    destruct (listeners_alter_forth pc i _ _ _ Hl0) as (l' & Hl' & He' & _ & Hp).
    destruct (decide (i = srv v)) as [Heq | Hne].
    + rewrite Heq in Hi. rewrite Hi in Hl0. injection Hl0 as <-.
      rewrite Hsv in Hst. simpl in Hst.
      destruct (stored pc) as [sv'|] eqn:E; [|done].
      injection Hst as Hst.
      exists l', sv'. rewrite Hp, He', Hst. done.
    + exists l', sv. rewrite Hp, He'. done.
  - apply stored_before_serving_quiet; [done | by apply quiet_not_serve].
  - intros j c Hj.
    destruct (Howner j c Hj) as (l0 & Hl0 & Hw & Hp & R1 & R2 & R3).
    destruct (listeners_alter_forth pc i _ _ _ Hl0) as (l' & Hl' & He' & Hc' & Hp').
    exists l'. rewrite Hc', He', Hp'.
    assert (past_tls (if decide (i = c_task c) then pc else l_pc l0) = true); [|done].
    destruct (decide (i = c_task c)) as [Heq | Hne]; [|done].
    rewrite Heq in Hi. rewrite Hi in Hl0. injection Hl0 as <-.
    destruct Htls as [-> | [? ?]]; congruence.
  - intros j. rewrite Hcount.
    destruct (listeners s !! j) as [l0|] eqn:Hj.
    + destruct (listeners_alter_forth pc i _ _ _ Hj) as (l' & -> & _ & Hc' & Hp').
      rewrite Hc', Hp'. destruct (decide (i = j)) as [Heq | Hne]; [|done].
      rewrite Heq in Hi. rewrite Hi in Hj. injection Hj as <-.
      destruct Htls as [-> | [-> ->]]; [done|].
      by rewrite !andb_false_r.
    + destruct (alter (set_l_pc pc) i (listeners s) !! j) eqn:E; [|done].
      apply listeners_alter_back in E as (? & ? & _). congruence.
  - intros j a how Hin. apply (quiet_elem_of _ _ (ECompanionServe j a how) Hq eq_refl) in Hin.
    destruct (Hserve j a how Hin) as (l0 & Hl0 & Hw & Hhow).
    destruct (listeners_alter_forth pc i _ _ _ Hl0) as (l' & Hl' & He' & Hc' & _).
    exists l'. by rewrite Hc', He'.
Qed.

(** The loop launches one more listener. *)
Lemma supervised_launch s s' evs e cfg :
  supervised s →
  listeners s' = (listeners s ++ [mkListener e cfg LStart])%list →
  companions s' = companions s → srvMap s' = srvMap s →
  out (world s') = (out (world s) ++ evs)%list →
  Forall (λ ev, quiet ev = true) evs →
  supervised s'.
Proof.
  intros [Hstored Hentry Horder Howner Hcount Hserve] Hl Hc Hm Ho Hq.
  constructor; unfold companions_of in *; rewrite ?Hl, ?Hc, ?Hm, ?Ho.
  - intros j l' sv [Hj | [_ Hj]]%lookup_app_Some Hsv.
    + destruct (Hstored j l' sv Hj Hsv). rewrite elem_of_app. auto.
    + apply list_lookup_singleton_Some in Hj as [_ <-]. done.
  - intros a v Hv. destruct (Hentry a v Hv) as (l0 & sv & Hl0 & Hrest).
    exists l0, sv. split; [by apply lookup_app_l_Some | done].
  - apply stored_before_serving_quiet; [done | by apply quiet_not_serve].
  - intros j c Hj. destruct (Howner j c Hj) as (l0 & Hl0 & Hrest).
    exists l0. split; [by apply lookup_app_l_Some | done].
  - intros j. rewrite Hcount.
    destruct (listeners s !! j) as [l0|] eqn:Hj.
    + by rewrite (lookup_app_l_Some _ _ _ _ Hj).
    + destruct ((listeners s ++ [mkListener e cfg LStart])%list !! j) eqn:E; [|done].
      apply lookup_app_Some in E as [E | [_ E]]; [congruence|].
      by apply list_lookup_singleton_Some in E as [_ <-].
  - intros j a how Hin.
    apply (quiet_elem_of _ _ (ECompanionServe j a how) Hq eq_refl) in Hin.
    destruct (Hserve j a how Hin) as (l0 & Hl0 & Hrest).
    exists l0. split; [by apply lookup_app_l_Some | done].
Qed.

(** A listener stores its server (line 281). *)
Lemma supervised_store s s' i l sv :
  supervised s →
  listeners s !! i = Some l → l_pc l = LBuilt sv →
  listeners s' = alter (set_l_pc (LStored sv)) i (listeners s) →
  companions s' = companions s →
  srvMap s' = <[Addr sv := mkServerMap (l_engine l) i]> (srvMap s) →
  out (world s') =
    (out (world s) ++ [EStore (Addr sv) (mkServerMap (l_engine l) i)])%list →
  supervised s'.
Proof.
  intros [Hstored Hentry Horder Howner Hcount Hserve] Hi Hpc Hl Hc Hm Ho.
  constructor; unfold companions_of in *; rewrite ?Hl, ?Hc, ?Hm, ?Ho.
  - intros j l' sv' Hj Hsv.
    apply listeners_alter_back in Hj as (l0 & Hj & He & _ & Hp).
    rewrite He, elem_of_app, lookup_insert_is_Some'. rewrite Hp in Hsv.
    destruct (decide (i = j)) as [<- | Hne].
    + rewrite Hi in Hj. injection Hj as <-. injection Hsv as <-.
      split; [right; apply list_elem_of_singleton|]; auto.
    + destruct (Hstored j l0 sv' Hj Hsv). auto.
  - intros a v Hv. apply lookup_insert_Some in Hv as [[<- <-] | [Hne Hv]].
    + destruct (listeners_alter_forth (LStored sv) i _ _ _ Hi) as (l' & Hl' & He' & _ & Hp).
      rewrite decide_True in Hp by done.
      exists l', sv. simpl. by rewrite Hp.
    + destruct (Hentry a v Hv) as (l0 & sv0 & Hl0 & Hsv & Ha & He).
      destruct (listeners_alter_forth (LStored sv) i _ _ _ Hl0) as (l' & Hl' & He' & _ & Hp).
      destruct (decide (i = srv v)) as [Heq | Hne'].
      * rewrite Heq in Hi. rewrite Hi in Hl0. injection Hl0 as <-.
        by rewrite Hpc in Hsv.
      * exists l', sv0. by rewrite Hp, He'.
  - apply stored_before_serving_quiet; [done | by repeat constructor].
  - intros j c Hj.
    destruct (Howner j c Hj) as (l0 & Hl0 & Hw & Hp & R1 & R2 & R3).
    destruct (listeners_alter_forth (LStored sv) i _ _ _ Hl0) as (l' & Hl' & He' & Hc' & Hp').
    exists l'. rewrite Hc', He', Hp'.
    assert (past_tls (if decide (i = c_task c) then LStored sv else l_pc l0) = true); [|done].
    destruct (decide (i = c_task c)) as [Heq | Hne]; [|done].
    rewrite Heq in Hi. rewrite Hi in Hl0. injection Hl0 as <-.
    by rewrite Hpc in Hp.
  - intros j. rewrite Hcount.
    destruct (listeners s !! j) as [l0|] eqn:Hj.
    + destruct (listeners_alter_forth (LStored sv) i _ _ _ Hj) as (l' & -> & _ & Hc' & Hp').
      rewrite Hc', Hp'. destruct (decide (i = j)) as [Heq | Hne]; [|done].
      rewrite Heq in Hi. rewrite Hi in Hj. injection Hj as <-.
      by rewrite Hpc.
    + destruct (alter (set_l_pc (LStored sv)) i (listeners s) !! j) eqn:E; [|done].
      apply listeners_alter_back in E as (? & ? & _). congruence.
  - intros j a how Hin.
    apply elem_of_app in Hin as [Hin | Hin];
      [| by apply list_elem_of_singleton in Hin].
    destruct (Hserve j a how Hin) as (l0 & Hl0 & Hw & Hhow).
    destruct (listeners_alter_forth (LStored sv) i _ _ _ Hl0) as (l' & Hl' & He' & Hc' & _).
    exists l'. by rewrite Hc', He'.
Qed.

(** A listener enters its serve call (lines 313 and 315). *)
Lemma supervised_serve s s' i l sv tl :
  supervised s →
  listeners s !! i = Some l → l_pc l = LReady sv →
  listeners s' = alter (set_l_pc (LServing sv)) i (listeners s) →
  companions s' = companions s → srvMap s' = srvMap s →
  out (world s') = (out (world s) ++ [EServe i (Addr sv) tl])%list →
  supervised s'.
Proof.
  intros Hsup Hi Hpc Hl Hc Hm Ho.
  assert (supervised (set_world (emit [] (world s)) (at_listener i (LServing sv) s)))
    as [Hstored Hentry Horder Howner Hcount Hserve].
  { eapply (supervised_move s _ [] i l (LServing sv)); try done; simpl.
    - by rewrite Hpc.
    - left. by rewrite Hpc. }
  simpl in *. rewrite app_nil_r in *.
  constructor; unfold companions_of in *; simpl in *; rewrite ?Hl, ?Hc, ?Hm, ?Ho; try done.
  - intros j l' sv' Hj Hsv. destruct (Hstored j l' sv' Hj Hsv).
    rewrite elem_of_app. auto.
  - destruct Hsup as [Hstored0 _ Horder0 _ _ _].
    eapply stored_before_serving_serve; [done|].
    apply (Hstored0 i l sv Hi). by rewrite Hpc.
  - intros j a how Hin. apply (Hserve j a how).
    apply elem_of_app in Hin as [Hin | Hin]; [done|].
    by apply list_elem_of_singleton in Hin.
Qed.

Lemma filter_alter_same {A} (p : A → bool) (f : A → A) (l : list A) i :
  (∀ x, p (f x) = p x) →
  length (List.filter p (alter f i l)) = length (List.filter p l).
Proof.
  intros Hp. revert i. induction l as [|y l IH]; intros [|i]; simpl; try done.
  - rewrite Hp. by destruct (p y).
  - destruct (p y); simpl; [f_equal|]; apply IH.
Qed.

(** A listener starts its companion (lines 296-311). *)
Lemma supervised_companion s s' evs i l sv sv' a :
  supervised s →
  listeners s !! i = Some l → l_pc l = LTimed sv →
  wants_companion (l_cfg l) = true → Addr sv' = Addr sv →
  listeners s' = alter (set_l_pc (LReady sv')) i (listeners s) →
  companions s' =
    (companions s ++
     [mkCompanion i (l_engine l) a (HTTPProcessing (tls (l_cfg l))) CStart])%list →
  srvMap s' = srvMap s →
  out (world s') = (out (world s) ++ evs)%list →
  Forall (λ ev, quiet ev = true) evs →
  supervised s'.
Proof.
  intros [Hstored Hentry Horder Howner Hcount Hserve] Hi Hpc Hw Ha Hl Hc Hm Ho Hq.
  constructor; unfold companions_of in *; rewrite ?Hl, ?Hc, ?Hm, ?Ho.
  - intros j l' sv0 Hj Hsv.
    apply listeners_alter_back in Hj as (l0 & Hj & He & _ & Hp).
    rewrite He, elem_of_app. rewrite Hp in Hsv.
    destruct (decide (i = j)) as [<- | Hne].
    + rewrite Hi in Hj. injection Hj as <-. injection Hsv as <-.
      rewrite Ha. destruct (Hstored i l sv Hi) as [Hin Hsome]; [by rewrite Hpc | auto].
    + destruct (Hstored j l0 sv0 Hj Hsv). auto.
  - intros b v Hv. destruct (Hentry b v Hv) as (l0 & sv0 & Hl0 & Hsv & Hb & He).
    destruct (listeners_alter_forth (LReady sv') i _ _ _ Hl0) as (l' & Hl' & He' & _ & Hp).
    destruct (decide (i = srv v)) as [Heq | Hne].
    + rewrite Heq in Hi. rewrite Hi in Hl0. injection Hl0 as <-.
      rewrite Hpc in Hsv. injection Hsv as <-.
      exists l', sv'. rewrite Hp, He', Ha. done.
    + exists l', sv0. rewrite Hp, He'. done.
  - apply stored_before_serving_quiet; [done | by apply quiet_not_serve].
  - intros j c [Hj | [_ Hj]]%lookup_app_Some.
    + destruct (Howner j c Hj) as (l0 & Hl0 & Hw0 & Hp & R1 & R2 & R3).
      destruct (listeners_alter_forth (LReady sv') i _ _ _ Hl0) as (l' & Hl' & He' & Hc' & Hp').
      exists l'. rewrite Hc', He', Hp'.
      assert (past_tls (if decide (i = c_task c) then LReady sv' else l_pc l0) = true);
        [|done].
      by destruct (decide (i = c_task c)).
    + apply list_lookup_singleton_Some in Hj as [_ <-]. simpl.
      destruct (listeners_alter_forth (LReady sv') i _ _ _ Hi) as (l' & Hl' & He' & Hc' & Hp').
      rewrite decide_True in Hp' by done.
      exists l'. by rewrite Hc', He', Hp'.
  - intros j. rewrite List.filter_app, length_app, Hcount. simpl.
    destruct (listeners s !! j) as [l0|] eqn:Hj.
    + destruct (listeners_alter_forth (LReady sv') i _ _ _ Hj) as (l' & -> & _ & Hc' & Hp').
      rewrite Hc', Hp'. destruct (decide (i = j)) as [Heq | Hne].
      * rewrite Heq in Hi. rewrite Hi in Hj. injection Hj as <-.
        rewrite Heq, Nat.eqb_refl, Hpc, Hw. done.
      * apply Nat.eqb_neq in Hne. rewrite Hne. simpl. lia.
    + destruct (decide (i = j)) as [Heq | Hne]; [congruence|].
      destruct (alter (set_l_pc (LReady sv')) i (listeners s) !! j) eqn:E.
      * apply listeners_alter_back in E as (? & ? & _). congruence.
      * apply Nat.eqb_neq in Hne. by rewrite Hne.
  - intros j b how Hin.
    apply (quiet_elem_of _ _ (ECompanionServe j b how) Hq eq_refl) in Hin.
    destruct (Hserve j b how Hin) as (l0 & Hl0 & Hw0 & Hhow).
    destruct (listeners_alter_forth (LReady sv') i _ _ _ Hl0) as (l' & Hl' & He' & Hc' & _).
    exists l'. by rewrite Hc', He'.
Qed.

(** A companion moves on: it starts serving with the strategy of its
    [HTTPProcessing], or its serve call returns. *)
Lemma supervised_companion_move s s' evs j c pc :
  supervised s →
  companions s !! j = Some c →
  listeners s' = listeners s →
  companions s' = alter (set_c_pc pc) j (companions s) →
  srvMap s' = srvMap s →
  out (world s') = (out (world s) ++ evs)%list →
  Forall (λ ev, quiet ev = true ∨
                ∃ a, ev = ECompanionServe (c_task c) a
                            (companionStrategy (c_engine c) (c_processing c))) evs →
  (∀ how, pc = CServing how → how = companionStrategy (c_engine c) (c_processing c)) →
  supervised s'.
Proof.
  intros [Hstored Hentry Horder Howner Hcount Hserve] Hj Hl Hc Hm Ho Hq Hpc.
  constructor; unfold companions_of in *; rewrite ?Hl, ?Hc, ?Hm, ?Ho; try done.
  - intros i l sv Hi Hsv. destruct (Hstored i l sv Hi Hsv). rewrite elem_of_app. auto.
  - apply stored_before_serving_quiet; [done|].
    eapply Forall_impl; [done|]. intros ev [Hev | [a ->]]; [by destruct ev | done].
  - intros k c'. destruct (decide (j = k)) as [<- | Hne].
    + rewrite list_lookup_alter_eq, Hj. simpl. intros [= <-]. simpl.
      destruct (Howner j c Hj) as (l0 & Hl0 & Hw & Hp & R1 & R2 & R3).
      exists l0. split_and!; done.
    + rewrite list_lookup_alter_ne by done. apply Howner.
  - intros i. rewrite <- Hcount. by apply filter_alter_same.
  - intros i a how [Hin | Hin]%elem_of_app; [by apply (Hserve i a how)|].
    rewrite Forall_forall in Hq. destruct (Hq _ Hin) as [Hev | [b Hev]]; [done|].
    injection Hev as -> -> ->.
    destruct (Howner j c Hj) as (l0 & Hl0 & Hw & Hp & R1 & R2 & R3).
    exists l0. by rewrite <- R1, <- R2.
Qed.

Ltac quiet_events :=
  repeat first
    [ apply Forall_nil_2
    | apply Forall_cons; split; [reflexivity|]
    | apply Forall_app; split ].

Lemma restart_events_quiet md5 spawn :
  Forall (λ ev, quiet ev = true) (restart_events md5 spawn).
Proof.
  unfold restart_events. destruct (bool_decide (md5 = "")), spawn; simpl; quiet_events.
Qed.

Lemma stop_events_quiet iskill v err :
  Forall (λ ev, quiet ev = true) (stop_events iskill v err).
Proof. unfold stop_events. destruct iskill, err; simpl; quiet_events. Qed.

Lemma supervised_step s tid env s' :
  supervised s → step tid env s = Some s' → supervised s'.
Proof.
  intros Hsup H.
  step_cases H; step_norm H.
  all: try destruct Hev.
  all: try (eapply supervised_frame;
            [exact Hsup | reflexivity | reflexivity | reflexivity
            | simpl; first [ symmetry; apply app_nil_r
                           | rewrite <- ?app_assoc; reflexivity ] |];
            simpl; first [apply restart_events_quiet | quiet_events; try apply stop_events_quiet];
            fail).
  all: try (eapply supervised_launch;
            [exact Hsup | reflexivity | reflexivity | reflexivity | reflexivity |];
            quiet_events; fail).
  all: try (eapply (supervised_store s _ i l);
            [exact Hsup | done | done | reflexivity | reflexivity | reflexivity
            | reflexivity]; fail).
  all: try (eapply (supervised_serve s _ i l);
            [exact Hsup | done | done | reflexivity | reflexivity | reflexivity
            | reflexivity]; fail).
  all: try (eapply (supervised_companion s _ _ i l);
            [exact Hsup | done | done
            | unfold wants_companion; by rewrite ?Hif, ?Hif0, ?Hif1
            | | reflexivity | reflexivity | reflexivity
            | simpl; rewrite <- ?app_assoc; reflexivity |];
            [reflexivity | simpl; quiet_events]; fail).
  all: try (eapply (supervised_move s _ _ i l);
            [exact Hsup | done | reflexivity | reflexivity | reflexivity
            | simpl; first [ symmetry; apply app_nil_r
                           | rewrite <- ?app_assoc; reflexivity ]
            | simpl; quiet_events
            | by rewrite HpcL
            | rewrite HpcL; simpl; first [by left | right; split; [done|] ];
              unfold wants_companion; by rewrite ?Hif, ?Hif0, ?Hif1, ?andb_false_r ];
            fail).
  all: try (eapply (supervised_companion_move s _ _ i c);
            [exact Hsup | done | reflexivity | reflexivity | reflexivity
            | simpl; rewrite <- ?app_assoc; reflexivity
            | simpl; repeat (apply Forall_cons; split; [by eauto|]); apply Forall_nil_2
            | by intros ? [= <-] ];
            fail).
Qed.

Lemma supervised_exec w targets sched :
  supervised (exec sched (start w targets)).
Proof.
  apply exec_invariant; [apply supervised_start | intros; by eapply supervised_step].
Qed.


(** Once resolved, the address of a listener stays. *)
Lemma step_resolved s tid env s' i l a :
  step tid env s = Some s' →
  listeners s !! i = Some l → resolved_addr l = Some a →
  ∃ l', listeners s' !! i = Some l' ∧ resolved_addr l' = Some a.
Proof.
  intros H Hi Ha. unfold resolved_addr in *.
  step_cases H; step_norm H; simpl.
  all: try (exists l; done).
  all: try (exists l; split; [by apply lookup_app_l_Some | done]).
  all: match goal with
       | |- context [alter (set_l_pc ?pc) _ _] =>
           destruct (listeners_alter_forth pc i0 _ _ _ Hi) as (l' & Hl' & _ & _ & Hp)
       end;
       exists l'; (split; [exact Hl'|]); rewrite Hp;
       destruct (decide (i0 = i)) as [Heq | Hne]; [|done];
       rewrite Heq in Hl; rewrite Hi in Hl; injection Hl as <-;
       rewrite HpcL in Ha; simpl in *; done.
Qed.

Lemma exec_resolved sched s i l a :
  listeners s !! i = Some l → resolved_addr l = Some a →
  ∃ l', listeners (exec sched s) !! i = Some l' ∧ resolved_addr l' = Some a.
Proof.
  revert s l. induction sched as [|[tid env] sched IH]; intros s l Hi Ha; simpl.
  - eauto.
  - unfold turn. simpl. destruct (step tid env s) as [s'|] eqn:E; simpl.
    + destruct (step_resolved _ _ _ _ _ _ _ E Hi Ha) as (l' & Hl' & Ha').
      by eapply IH.
    + by eapply IH.
Qed.

(** ** Steps that are always possible *)

Lemma main_loop_runs env rest s :
  mainpc s = MLoop rest → halted s = false →
  let s' := exec (replicate (length rest) (TMain, env)) s in
  mainpc s' = MLoop [] ∧ halted s' = false.
Proof.
  revert s. induction rest as [|[e cfg] rest IH]; intros s Hpc Hh; simpl; [done|].
  assert (∃ s1, turn s (TMain, env) = s1 ∧ mainpc s1 = MLoop rest ∧ halted s1 = false)
    as (s1 & -> & Hpc1 & Hh1).
  { unfold turn, step. simpl. rewrite Hh. unfold main_step. rewrite Hpc. simpl. eauto. }
  by apply IH.
Qed.

Lemma restart_step env s b ctx :
  mainpc s = MRestart b ctx → halted s = false →
  ∃ s', step TMain env s = Some s' ∧ past_restart (mainpc s') = true ∧ halted s' = false.
Proof.
  intros Hpc Hh. unfold step. rewrite Hh. unfold main_step. rewrite Hpc.
  eexists. split; [reflexivity|]. unfold lift.
  destruct (negb b && negb (CloseHotRestart (world s))); unfold ret;
    rewrite ?runNewProcess_emits; by simpl.
Qed.

Lemma turn_step tid env s s' : step tid env s = Some s' → turn s (tid, env) = s'.
Proof. intros H. unfold turn. simpl. by rewrite H. Qed.

(** Left to run alone, the goroutine of [Run] launches every listener and
    gets past the restart decision. *)
Lemma reaches_restart w targets env :
  let s := exec (replicate (length targets + 3) (TMain, env)) (start w targets) in
  past_restart (mainpc s) = true ∧ iskill_of (mainpc s) = Some (kill env) ∧
  halted s = false.
Proof.
  rewrite replicate_add, exec_app.
  destruct (main_loop_runs env targets (start w targets) eq_refl eq_refl) as [Hpc Hh].
  set (s0 := exec (replicate (length targets) (TMain, env)) (start w targets)) in *.
  simpl.
  assert (∃ s1, turn s0 (TMain, env) = s1 ∧ mainpc s1 = MWithTimeout (kill env) ∧
                halted s1 = false) as (s1 & -> & Hpc1 & Hh1).
  { unfold turn, step. simpl. rewrite Hh. unfold main_step. rewrite Hpc. simpl. eauto. }
  assert (∃ s2, turn s1 (TMain, env) = s2 ∧
                mainpc s2 = MRestart (kill env) (20 * second) ∧
                halted s2 = false) as (s2 & -> & Hpc2 & Hh2).
  { unfold turn, step. simpl. rewrite Hh1. unfold main_step. rewrite Hpc1. simpl. eauto. }
  unfold turn, step. simpl. rewrite Hh2. unfold main_step, lift. rewrite Hpc2.
  destruct (negb (kill env) && negb (CloseHotRestart (world s2))); unfold ret;
    rewrite ?runNewProcess_emits; by simpl.
Qed.

(** ** The restart decision *)

(** C2: a successor is spawned exactly when [isKill()] was false and
    [CloseHotRestart] is false; the spawn view of a run is empty until the
    decision of line 331 is behind, and from then on it holds that single
    spawn or nothing. The decision is always taken once [Run] stands at
    it. *)
Theorem restart_decision w targets sched :
  let s := exec sched (start w targets) in
  (past_restart (mainpc s) = false → view is_spawn s = []) ∧
  (∀ b, past_restart (mainpc s) = true → iskill_of (mainpc s) = Some b →
        view is_spawn s =
          if negb b && negb (CloseHotRestart w)
          then [ERunNewProcess (fileMd5 w)] else []) ∧
  (iskill_of (mainpc s) = Some true → view is_spawn s = []) ∧
  (length (view is_spawn s) ≤ 1)%nat ∧
  (∀ env b ctx, mainpc s = MRestart b ctx → halted s = false →
     ∃ s', step TMain env s = Some s' ∧ past_restart (mainpc s') = true ∧
           halted s' = false) ∧
  (∀ env,
     let s1 := exec (replicate (length targets + 3) (TMain, env)) (start w targets) in
     halted s1 = false ∧
     view is_spawn s1 =
       if negb (kill env) && negb (CloseHotRestart w)
       then [ERunNewProcess (fileMd5 w)] else []).
Proof.
  intros s. pose proof (co_spawn _ _ (coordinated_exec w targets sched)) as Hs.
  fold s in Hs. split_and!.
  - intros Hp. rewrite Hs. by destruct (mainpc s).
  - intros b Hp Hb. rewrite Hs. destruct (mainpc s); simplify_eq/=; done.
  - intros Hb. rewrite Hs. destruct (mainpc s); simplify_eq/=; done.
  - rewrite Hs. destruct (mainpc s); simpl; try lia;
      destruct (negb _ && negb _); simpl; lia.
  - intros env b ctx. apply restart_step.
  - intros env s1. destruct (reaches_restart w targets env) as (Hp & Hk & Hh).
    fold s1 in Hp, Hk, Hh. split; [done|].
    pose proof (co_spawn _ _ (coordinated_exec w targets
                  (replicate (length targets + 3) (TMain, env)))) as Hs1.
    fold s1 in Hs1. rewrite Hs1. destruct (mainpc s1); simplify_eq/=; done.
Qed.

(** ** The shutdown deadline *)

Lemma shutdown_return_step i t env s :
  shutdowns s !! i = Some t → s_pc t = SWaiting → halted s = false →
  step (TShutdown i) env s =
    Some (at_shutdown i SSignal
            (set_world
               (emit (EShutdownReturn (srv (s_val t)) (stopped env)
                        :: stop_events (s_iskill t) (s_val t) (stopped env))
                  (world s)) s)).
Proof.
  intros Ht Hpc Hh. unfold step. rewrite Hh. simpl. rewrite Ht. simpl.
  unfold shutdown_step. rewrite Hpc. unfold lift, bind, say.
  by rewrite afterShutdown_emits, emit_emit.
Qed.

(** C6: one deadline of twenty seconds is set up per run, every shutdown
    goroutine calls [Shutdown] with it, a graceful stop that returns an
    error is followed at once by [Close] on the same server, and the lines
    of the shutdown phase are written only when [isKill()] was true. *)
Theorem shutdown_deadline w targets sched :
  let s := exec sched (start w targets) in
  view is_deadline s =
    (if past_deadline (mainpc s) then [EWithTimeout (20 * second)] else []) ∧
  (∀ i t, shutdowns s !! i = Some t →
     s_ctx t = 20 * second ∧ iskill_of (mainpc s) = Some (s_iskill t)) ∧
  Forall on_deadline (out (world s)) ∧
  (iskill_of (mainpc s) ≠ Some true → view is_shutdown_line s = []) ∧
  (∀ i t env, shutdowns s !! i = Some t → s_pc t = SWaiting → halted s = false →
     ∃ s', step (TShutdown i) env s = Some s' ∧ halted s' = false ∧
           shutdowns s' !! i = Some (set_s_pc SSignal t) ∧
           out (world s') =
             (out (world s) ++
              EShutdownReturn (srv (s_val t)) (stopped env) ::
              match stopped env, s_iskill t with
              | Some _, true =>
                  [ELog (EngineLog (engine (s_val t))) LogError "Timeout forced close";
                   ESrvClose (srv (s_val t))]
              | Some _, false => [ESrvClose (srv (s_val t))]
              | None, true =>
                  [ELog (EngineLog (engine (s_val t))) LogSuccess "Shutdown server done"]
              | None, false => []
              end)%list).
Proof.
  intros s. destruct (coordinated_exec w targets sched)
    as [_ _ Hdl _ Htasks Hcalls Hlines].
  fold s in Hdl, Htasks, Hcalls, Hlines. split_and!; try done.
  intros i t env Ht Hpc Hh. eexists. split; [by apply shutdown_return_step|].
  split_and!; try done.
  - simpl. by rewrite list_lookup_alter_eq, Ht.
  - simpl. f_equal. f_equal.
    unfold stop_events. by destruct (stopped env), (s_iskill t).
Qed.

(** ** The completion callback *)

Lemma filter_filter_sub {A} (p q : A → bool) (l : list A) :
  (∀ x, p x = true → q x = true) →
  List.filter p (List.filter q l) = List.filter p l.
Proof.
  intros Hpq. induction l as [|x l IH]; simpl; [done|].
  destruct (q x) eqn:Hq; simpl.
  - by rewrite IH.
  - destruct (p x) eqn:Hp; [|done]. apply Hpq in Hp. congruence.
Qed.

Lemma filter_callback_dones (ds : list nat) :
  List.filter is_callback (EDone <$> ds) = [].
Proof. by induction ds. Qed.

Lemma callback_steps env s b :
  mainpc s = MWait b → wg s = 0 → halted s = false →
  let s3 := exec [(TMain, env); (TMain, env); (TMain, env)] s in
  mainpc s3 = MReturned b ∧ halted s3 = false ∧
  out (world s3) =
    (out (world s) ++
     EWaitReturn :: (if ShutdownDone (world s) then [EShutdownDone] else []) ++
     [ESleep (100 * millisecond); ECancel])%list.
Proof.
  intros Hpc Hwg Hh. simpl.
  assert (∃ s1, turn s (TMain, env) = s1 ∧ mainpc s1 = MCallback b ∧
                halted s1 = false ∧ ShutdownDone (world s1) = ShutdownDone (world s) ∧
                out (world s1) = (out (world s) ++ [EWaitReturn])%list)
    as (s1 & -> & Hpc1 & Hh1 & Hcb1 & Ho1).
  { unfold turn, step. simpl. rewrite Hh. unfold main_step. rewrite Hpc, Hwg.
    simpl. eauto 6. }
  assert (∃ s2, turn s1 (TMain, env) = s2 ∧ mainpc s2 = MSleep b ∧
                halted s2 = false ∧
                out (world s2) =
                  (out (world s1) ++
                   if ShutdownDone (world s) then [EShutdownDone] else [])%list)
    as (s2 & -> & Hpc2 & Hh2 & Ho2).
  { unfold turn, step. simpl. rewrite Hh1. unfold main_step. rewrite Hpc1, Hcb1.
    eexists. split; [reflexivity|]. destruct (ShutdownDone (world s)); simpl;
      rewrite ?app_nil_r; done. }
  unfold turn, step. simpl. rewrite Hh2. unfold main_step. rewrite Hpc2. simpl.
  rewrite Ho2, Ho1. by rewrite <- !app_assoc.
Qed.

(** Once [Range] is over with fewer shutdown goroutines than listeners,
    the counter stays above zero and [Run] stays in [m.Wait()]. *)
Lemma missed_entry_blocks n s b :
  accounted n s → mainpc s = MWait b →
  (length (shutdowns s) < length (listeners s))%nat →
  ∀ sched,
    accounted n (exec sched s) ∧ mainpc (exec sched s) = MWait b ∧
    (length (shutdowns (exec sched s)) < length (listeners (exec sched s)))%nat.
Proof.
  intros Hacc Hpc Hlt.
  apply (exec_invariant
           (λ s, accounted n s ∧ mainpc s = MWait b ∧
                 (length (shutdowns s) < length (listeners s))%nat)); [done|].
  clear s Hacc Hpc Hlt. intros s tid env s' (Hacc & Hpc & Hlt) H.
  split; [by eapply accounted_step|].
  pose proof (accounted_chain _ _ Hacc) as (H1 & _).
  pose proof (acc_count _ _ Hacc) as Hc.
  step_cases H; step_norm H; simpl.
  all: rewrite ?length_alter.
  all: try done.
  all: try congruence.
  apply bool_decide_eq_true in Hif. lia.
Qed.

(** C7 (as amended): seen through the events of the barrier, the trace of
    a run is the signals of the shutdown goroutines, then the return of
    [m.Wait()], then the callback when one is set, then the drain sleep:
    the callback runs at most once, only after [m.Wait()] has returned and
    so after every shutdown goroutine has signaled, and exactly once in
    every run that gets past it; [Run] gets past it as soon as the counter
    is zero, and then sleeps and returns; and a run in which [Range] ended
    with fewer shutdown goroutines than listeners stays in [m.Wait()] and
    never runs the callback. *)
Theorem completion_callback w targets sched :
  let s := exec sched (start w targets) in
  (∃ ds : list nat,
     view is_barrier s =
       ((EDone <$> ds) ++ barrier_tail (mainpc s) (ShutdownDone w))%list ∧
     length ds = signaled s) ∧
  (past_wait (mainpc s) = true →
     signaled s = length (shutdowns s) ∧ length (shutdowns s) = length targets ∧
     length (listeners s) = length targets) ∧
  length (view is_callback s) =
    (if ShutdownDone w && past_callback (mainpc s) then 1 else 0)%nat ∧
  (∀ env b, mainpc s = MWait b → wg s = 0 → halted s = false →
     let s3 := exec [(TMain, env); (TMain, env); (TMain, env)] s in
     mainpc s3 = MReturned b ∧
     out (world s3) =
       (out (world s) ++
        EWaitReturn :: (if ShutdownDone w then [EShutdownDone] else []) ++
        [ESleep (100 * millisecond); ECancel])%list) ∧
  (∀ b sched', mainpc s = MWait b →
     (length (shutdowns s) < length (listeners s))%nat →
     mainpc (exec sched' s) = MWait b ∧ wg (exec sched' s) > 0 ∧
     view is_callback (exec sched' s) = []).
Proof.
  intros s. destruct (run_invariants w targets sched) as (Hacc & Hco & Hbar).
  fold s in Hacc, Hco, Hbar. split_and!.
  - done.
  - intros Hp. destruct (released_distinct _ _ Hacc Hp) as (? & ? & ? & ? & ? & ?).
    split_and!; congruence.
  - destruct Hbar as (ds & Hview & _). unfold view in *.
    rewrite <- (filter_filter_sub is_callback is_barrier) by (by intros []).
    rewrite Hview, List.filter_app, filter_callback_dones. simpl.
    destruct (mainpc s), (ShutdownDone w); done.
  - intros env b Hpc Hwg Hh.
    destruct (callback_steps env s b Hpc Hwg Hh) as (H1 & _ & H2).
    destruct (co_globals _ _ Hco) as (_ & _ & _ & _ & G5).
    rewrite G5 in H2. done.
  - intros b sched' Hpc Hlt.
    destruct (missed_entry_blocks _ _ _ Hacc Hpc Hlt sched') as (Hacc' & Hpc' & Hlt').
    pose proof (accounted_chain _ _ Hacc') as (H1 & _).
    pose proof (acc_count _ _ Hacc') as Hc.
    split_and!; [done | lia |].
    destruct (run_invariants w targets (sched ++ sched')) as (_ & _ & Hbar').
    rewrite exec_app in Hbar'. fold s in Hbar'.
    destruct Hbar' as (ds & Hview & _). unfold view in *.
    rewrite <- (filter_filter_sub is_callback is_barrier) by (by intros []).
    rewrite Hview, List.filter_app, filter_callback_dones, Hpc'. done.
Qed.

(** ** Registration before serving *)

Lemma serving_stored pc : serving pc = true → is_Some (stored pc).
Proof. by destruct pc. Qed.

(** C8: in every trace of [Run] the serve call of a listener comes after
    the store of its address with its own engine and server; a listener
    that is serving has its address in the registry, and every entry of
    the registry is the pair of a listener that stored it under the address
    it serves. *)
Theorem registered_before_serving w targets sched :
  let s := exec sched (start w targets) in
  (∀ pre post i a tl,
     out (world s) = (pre ++ EServe i a tl :: post)%list →
     ∃ e, EStore a (mkServerMap e i) ∈ pre) ∧
  (∀ i l, listeners s !! i = Some l → serving (l_pc l) = true →
     ∃ sv, stored (l_pc l) = Some sv ∧
           EStore (Addr sv) (mkServerMap (l_engine l) i) ∈ out (world s) ∧
           is_Some (srvMap s !! Addr sv)) ∧
  (∀ a v, srvMap s !! a = Some v →
     ∃ l sv, listeners s !! srv v = Some l ∧ stored (l_pc l) = Some sv ∧
             Addr sv = a ∧ engine v = l_engine l).
Proof.
  intros s. destruct (supervised_exec w targets sched) as [Hstored Hentry Horder _ _ _].
  fold s in Hstored, Hentry, Horder. split_and!; try done.
  intros i l Hi Hs. destruct (serving_stored _ Hs) as [sv Hsv].
  exists sv. split; [done|]. by apply Hstored.
Qed.

(** ** The companion plaintext listener *)



(** ** The return of a listener's serve call, inside [Run] *)

Lemma serve_return_step i l sv env s :
  listeners s !! i = Some l → l_pc l = LServing sv → halted s = false →
  step (TListener i) env s =
    Some (match served env with
          | Some ErrServerClosed =>
              at_listener i (LReturned sv) (tell [EServeReturn i (served env)] s)
          | Some (ErrOther msg) =>
              halt (tell [EServeReturn i (served env);
                          ELog (EngineLog (l_engine l)) LogFatal
                            ("Listen: " +:+ msg +:+ nl);
                          EExit 1] s)
          | None =>
              at_listener i (LReturned sv)
                (tell [EServeReturn i (served env);
                       ELog (EngineLog (l_engine l)) LogInfo "<nil>"] s)
          end).
Proof.
  intros Hl Hpc Hh. unfold step. rewrite Hh. simpl. rewrite Hl. simpl.
  unfold listener_step. rewrite Hpc. unfold lift, bind, say.
  rewrite afterServe_cases. unfold tell.
  destruct (served env) as [[|msg]|]; simpl; by rewrite ?emit_emit.
Qed.

(** ** The barrier and repeated addresses *)

Lemma stored_resolved l a : stored_addr l = Some a → resolved_addr l = Some a.
Proof. unfold stored_addr, resolved_addr. by destruct (l_pc l). Qed.

Lemma all_stored_resolved (ls : list Listener) :
  length (omap stored_addr ls) = length ls →
  omap resolved_addr ls = omap stored_addr ls.
Proof.
  induction ls as [|l ls IH]; csimpl; [done|]. intros Hlen.
  pose proof (omap_length_le stored_addr ls) as Hle.
  destruct (stored_addr l) as [a|] eqn:E; simpl in Hlen; [|lia].
  rewrite (stored_resolved _ _ E). f_equal. apply IH. lia.
Qed.

(** Two listeners on one address leave the counter above zero. *)
Lemma repeated_address_blocks n s i j li lj a :
  accounted n s → i ≠ j →
  listeners s !! i = Some li → listeners s !! j = Some lj →
  resolved_addr li = Some a → resolved_addr lj = Some a →
  (signaled s < length (listeners s))%nat ∧ wg s > 0 ∧ past_wait (mainpc s) = false.
Proof.
  intros Hacc Hne Hi Hj Hai Haj.
  pose proof (accounted_chain _ _ Hacc) as (H1 & H2 & H3 & H4).
  pose proof (size_srvMap_le_set _ _ Hacc) as H5.
  pose proof (size_list_to_set_le (stored_addrs s)) as H6.
  assert (signaled s < length (listeners s))%nat as Hlt.
  { destruct (decide (signaled s < length (listeners s))%nat) as [|Hge]; [done|].
    exfalso. apply Hne.
    assert (length (stored_addrs s) = length (listeners s)) as Hall by lia.
    assert (NoDup (stored_addrs s)) as Hnd by (apply size_list_to_set_NoDup; lia).
    unfold stored_addrs in *.
    destruct (omap_length_all _ _ _ _ Hall Hi) as (ai & Hsi & _).
    destruct (omap_length_all _ _ _ _ Hall Hj) as (aj & Hsj & _).
    pose proof (stored_resolved _ _ Hsi). pose proof (stored_resolved _ _ Hsj).
    eapply (omap_distinct stored_addr); try done; congruence. }
  pose proof (acc_count _ _ Hacc) as Hc.
  split_and!; [done | lia |].
  destruct (past_wait (mainpc s)) eqn:Hp; [|done].
  pose proof (acc_wait _ _ Hacc Hp). lia.
Qed.

Lemma store_step i l sv env s :
  listeners s !! i = Some l → l_pc l = LBuilt sv → halted s = false →
  step (TListener i) env s =
    Some (at_listener i (LStored sv)
            (tell [EStore (Addr sv) (mkServerMap (l_engine l) i)]
               (set_srvMap (<[Addr sv := mkServerMap (l_engine l) i]> (srvMap s)) s))).
Proof.
  intros Hl Hpc Hh. unfold step. rewrite Hh. simpl. rewrite Hl. simpl.
  unfold listener_step. by rewrite Hpc.
Qed.

(** C10: the counter of the barrier is the number of listeners launched
    less the number of shutdown goroutines that have signaled, and there
    are no more of those than entries in the registry; a store under an
    address already present replaces the entry; so once two listeners have
    resolved the same address, fewer shutdown goroutines than listeners
    ever signal, the counter stays above zero, [m.Wait()] never returns and
    the callback never runs; and when [m.Wait()] has returned, every
    listener has stored its server and the resolved addresses are pairwise
    distinct. *)
Theorem barrier_needs_distinct_addresses w targets sched :
  let s := exec sched (start w targets) in
  (wg s = Z.of_nat (length (listeners s)) - Z.of_nat (signaled s) ∧
   (signaled s ≤ length (shutdowns s))%nat ∧
   (length (shutdowns s) ≤ size (srvMap s))%nat) ∧
  (∀ i l sv env, listeners s !! i = Some l → l_pc l = LBuilt sv → halted s = false →
     ∃ s', step (TListener i) env s = Some s' ∧
           srvMap s' !! Addr sv = Some (mkServerMap (l_engine l) i) ∧
           (is_Some (srvMap s !! Addr sv) → size (srvMap s') = size (srvMap s))) ∧
  (∀ i j li lj a, i ≠ j →
     listeners s !! i = Some li → listeners s !! j = Some lj →
     resolved_addr li = Some a → resolved_addr lj = Some a →
     ∀ sched', let s' := exec sched' s in
       (signaled s' < length (listeners s'))%nat ∧ wg s' > 0 ∧
       past_wait (mainpc s') = false ∧ EShutdownDone ∉ out (world s')) ∧
  (past_wait (mainpc s) = true →
     length (resolved_addrs s) = length targets ∧ NoDup (resolved_addrs s) ∧
     length (listeners s) = length targets).
Proof.
  intros s. destruct (run_invariants w targets sched) as (Hacc & Hco & Hbar).
  fold s in Hacc, Hco, Hbar. split_and!.
  - apply (acc_count _ _ Hacc).
  - apply (accounted_chain _ _ Hacc).
  - apply (acc_tasks _ _ Hacc).
  - intros i l sv env Hi Hpc Hh. eexists. split; [by apply store_step|]. simpl.
    split; [apply lookup_insert_eq|].
    intros [v Hv]. by erewrite map_size_insert_Some.
  - intros i j li lj a Hne Hi Hj Hai Haj sched' s'.
    destruct (run_invariants w targets (sched ++ sched')) as (Hacc' & Hco' & Hbar').
    rewrite exec_app in Hacc', Hco', Hbar'. fold s in Hacc', Hco', Hbar'.
    fold s' in Hacc', Hco', Hbar'.
    destruct (exec_resolved sched' s i li a Hi Hai) as (li' & Hi' & Hai').
    destruct (exec_resolved sched' s j lj a Hj Haj) as (lj' & Hj' & Haj').
    fold s' in Hi', Hj'.
    destruct (repeated_address_blocks _ _ _ _ _ _ _ Hacc' Hne Hi' Hj' Hai' Haj')
      as (H1 & H2 & H3).
    split_and!; try done.
    destruct Hbar' as (ds & Hview & _). intros Hin.
    assert (EShutdownDone ∈ view is_barrier s') as Hin'.
    { unfold view. apply list_elem_of_In, List.filter_In.
      split; [by apply list_elem_of_In | done]. }
    rewrite Hview in Hin'. destruct (mainpc s'); try done; simpl in Hin';
      rewrite app_nil_r in Hin'; apply list_elem_of_fmap in Hin' as (? & ? & ?);
      done.
  - intros Hp. destruct (released_distinct _ _ Hacc Hp) as (Hn & Hlen & Hnd & _).
    unfold resolved_addrs, stored_addrs in *.
    rewrite all_stored_resolved by lia. done.
Qed.

(** The TLS branch of a listener: a companion is started exactly when one
    is wanted, unless the plaintext address asks for an ephemeral port and
    none can be had, which ends the process. *)
Lemma companion_branch_step i l sv env s :
  listeners s !! i = Some l → l_pc l = LTimed sv → halted s = false →
  ∃ s', step (TListener i) env s = Some s' ∧
    (halted s' = true ↔
       wants_companion (l_cfg l) = true ∧
       with_delimiter (HTTPAddr (tls (l_cfg l))) = ":0" ∧
       ∃ e, os env = ListenErr e) ∧
    (halted s' = false →
       (∃ l', listeners s' !! i = Some l' ∧ past_tls (l_pc l') = true) ∧
       length (companions s') =
         (length (companions s) + if wants_companion (l_cfg l) then 1 else 0)%nat).
Proof.
  intros Hl Hpc Hh. unfold step. rewrite Hh. simpl. rewrite Hl. simpl.
  unfold listener_step, wants_companion. rewrite Hpc.
  assert (∀ pc, ∃ l', alter (set_l_pc pc) i (listeners s) !! i = Some l' ∧
                      l_pc l' = pc) as Halt.
  { intros pc. rewrite list_lookup_alter_eq, Hl. simpl. eauto. }
  destruct (isTls (l_cfg l)); simpl.
  - destruct (bool_decide (HTTPAddr (tls (l_cfg l)) = "")); simpl.
    + eexists. split; [reflexivity|]. simpl. rewrite Hh. split.
      * split; [done | by intros [? _]].
      * intros _. split; [|lia]. destruct (Halt (LReady
          (if Config (tls (l_cfg l)) is Some c then with_TLSConfig (Some c) sv else sv)))
          as (l' & Hl' & Hp'). exists l'. by rewrite Hp'.
    + eexists. split; [reflexivity|]. unfold lift.
      destruct (decide (with_delimiter (HTTPAddr (tls (l_cfg l))) = ":0")) as [Hz | Hz].
      * rewrite (getPort_ephemeral _ _ _ Hz). destruct (os env) as [e | p]; simpl.
        -- split; [split; [eauto | done] | done].
        -- rewrite Hh. split; [split; [done | by intros (_ & _ & ? & ?)]|].
           intros _. rewrite length_app. simpl. split; [|done].
           destruct (Halt (LReady
             (if Config (tls (l_cfg l)) is Some c then with_TLSConfig (Some c) sv else sv)))
             as (l' & Hl' & Hp'). exists l'. by rewrite Hp'.
      * rewrite (getPort_fixed _ _ _ Hz). simpl. rewrite Hh.
        split; [split; [done | by intros (_ & ? & _)]|].
        intros _. rewrite length_app. simpl. split; [|done].
        destruct (Halt (LReady
          (if Config (tls (l_cfg l)) is Some c then with_TLSConfig (Some c) sv else sv)))
          as (l' & Hl' & Hp'). exists l'. by rewrite Hp'.
  - eexists. split; [reflexivity|]. simpl. rewrite Hh. split.
    + split; [done | by intros [? _]].
    + intros _. split; [|lia]. destruct (Halt (LReady sv)) as (l' & Hl' & Hp').
      exists l'. by rewrite Hp'.
Qed.

(** C1 (as amended): when the serve call of a listener returns, an error
    that is exactly [http.ErrServerClosed] is not escalated and nothing is
    logged for it; any other non-nil error is logged as fatal and ends the
    process; a nil error is logged at info level.  Inside [Run] the step
    that handles the return takes the process down exactly in the second
    case. *)
Theorem serve_return_handled :
  (∀ e err w,
     (err = Some ErrServerClosed → afterServe e err w = Ret tt w) ∧
     (∀ x, err = Some x → x ≠ ErrServerClosed →
        afterServe e err w =
          Exited (emit [ELog (EngineLog e) LogFatal ("Listen: " +:+ error_text x +:+ nl);
                        EExit 1] w)) ∧
     (err = None →
        afterServe e err w = Ret tt (emit [ELog (EngineLog e) LogInfo "<nil>"] w))) ∧
  (∀ i l sv env s,
     listeners s !! i = Some l → l_pc l = LServing sv → halted s = false →
     ∃ s', step (TListener i) env s = Some s' ∧
           (halted s' = true ↔ ∃ x, served env = Some x ∧ x ≠ ErrServerClosed) ∧
           (served env = Some ErrServerClosed →
              out (world s') = (out (world s) ++ [EServeReturn i (served env)])%list)).
Proof.
  split.
  - intros e err w. rewrite afterServe_cases. split_and!.
    + by intros ->.
    + intros x -> Hx. by destruct x.
    + by intros ->.
  - intros i l sv env s Hl Hpc Hh. eexists.
    split; [by eapply serve_return_step|].
    destruct (served env) as [[|msg]|]; simpl; rewrite ?Hh; split; try done.
    + split; [done | by intros (x & [= <-] & ?)].
    + split; [eauto | done].
    + split; [done | by intros (x & ? & ?)].
Qed.

Lemma serve_return_handled_witness :
  afterServe 0 (Some ErrServerClosed) (world0 "") = Ret tt (world0 "") ∧
  afterServe 0 (Some (ErrOther "bind: address already in use")) (world0 "") =
    Exited (emit [ELog (EngineLog 0) LogFatal
                    ("Listen: " +:+ "bind: address already in use" +:+ nl);
                  EExit 1] (world0 "")) ∧
  afterServe 0 None (world0 "") =
    Ret tt (emit [ELog (EngineLog 0) LogInfo "<nil>"] (world0 "")) ∧
  (∃ s', step (TListener 0) calm (Run one_engine [0%nat] up_to_serving) = Some s' ∧
         (halted s' = true ↔ ∃ x, served calm = Some x ∧ x ≠ ErrServerClosed) ∧
         out (world s') =
           (out (world (Run one_engine [0%nat] up_to_serving)) ++
            [EServeReturn 0 (Some ErrServerClosed)])%list).
Proof.
  destruct serve_return_handled as [Hf Hs].
  destruct (Hf 0%nat (Some ErrServerClosed) (world0 "")) as (H1 & _ & _).
  destruct (Hf 0%nat (Some (ErrOther "bind: address already in use")) (world0 ""))
    as (_ & H2 & _).
  destruct (Hf 0%nat None (world0 "")) as (_ & _ & H3).
  split_and!.
  - by apply H1.
  - by apply (H2 (ErrOther "bind: address already in use")).
  - by apply H3.
  - destruct (Hs 0%nat (mkListener 0 defaultAddr
                          (LServing (mkHttpServer ":3788" 0 0 0 None)))
                (mkHttpServer ":3788" 0 0 0 None) calm
                (Run one_engine [0%nat] up_to_serving))
      as (s' & Hstep & Hhalt & Hout);
      [vm_compute; reflexivity | reflexivity | vm_compute; reflexivity |].
    exists s'. split_and!; [exact Hstep | exact Hhalt | by apply Hout].
Defined.

(** C1, as it was claimed: the sentinel is said to be logged, but no line
    is written to the engine's logger for it. *)
Lemma sentinel_not_logged_counterexample :
  ¬ ∃ who lvl msg, ELog who lvl msg ∈
      out (world_of (afterServe 0 (Some ErrServerClosed) (world0 ""))).
Proof. intros (who & lvl & msg & H). simpl in H. by apply not_elem_of_nil in H. Qed.

(** ** The theorems at work *)

Lemma restart_decision_witness :
  view is_spawn (Run one_engine [0%nat] (replicate 4 (TMain, calm))) =
    [ERunNewProcess ""] ∧
  view is_spawn (Run one_engine [0%nat] (replicate 4 (TMain, killed))) = [] ∧
  view is_spawn (Run one_engine [0%nat] (replicate 3 (TMain, calm))) = [] ∧
  ∃ s', step TMain calm (Run one_engine [0%nat] (replicate 3 (TMain, calm))) = Some s' ∧
        past_restart (mainpc s') = true ∧ halted s' = false.
Proof.
  destruct (restart_decision one_engine (targets_of one_engine [0%nat])
              (replicate 4 (TMain, calm))) as (_ & H2 & _).
  destruct (restart_decision one_engine (targets_of one_engine [0%nat])
              (replicate 4 (TMain, killed))) as (_ & _ & H3 & _).
  destruct (restart_decision one_engine (targets_of one_engine [0%nat])
              (replicate 3 (TMain, calm))) as (H1 & _ & _ & _ & H5 & _).
  split_and!.
  - apply (H2 false); reflexivity.
  - apply H3; reflexivity.
  - apply H1; reflexivity.
  - apply (H5 calm false (20 * second)); reflexivity.
Defined.

Lemma registry_names_unique_witness :
  (New [] one_engine =
     Exited (emit [ELog PkgLog LogFatal "serverName: Z is has"; EExit 1]
               (set_heap (heap one_engine ++ [newEngine "Z"]) one_engine)) ∧
   Server [] one_engine = Ret (0%nat, true) one_engine) ∧
  (∃ e1 e2 w2,
     (New ["a"] ;;; New ["b"]) (world0 "") = Ret e2 w2 ∧
     New ["a"] (world0 "") = Ret e1 (registered "a" (world0 "")) ∧
     e1 ≠ e2 ∧
     Server ["a"] w2 = Ret (e1, true) w2 ∧ Server ["b"] w2 = Ret (e2, true) w2 ∧
     heap w2 !! e1 = Some (newEngine "a") ∧ heap w2 !! e2 = Some (newEngine "b")) ∧
  (∃ e w',
     Server ["api"] one_engine = Ret (e, false) w' ∧
     zservers w' !! "api" = Some e ∧ zservers w' !! "Z" = Some 0%nat ∧
     heap w' !! e = Some (newEngine "api")).
Proof.
  destruct (registry_names_unique one_engine) as (H1 & _ & H3).
  destruct (registry_names_unique (world0 "")) as (_ & H2 & _).
  split_and!.
  - apply (H1 [] 0%nat). reflexivity.
  - apply (H1 [] 0%nat). reflexivity.
  - apply (H2 "a" "b"); [discriminate | reflexivity | reflexivity].
  - destruct (H3 ["api"]) as (e & w' & Hs & _ & Hz & Hh & _ & Hother & _); [reflexivity|].
    exists e, w'. split_and!; try done.
    rewrite Hother; [reflexivity | discriminate].
Defined.

Lemma shutdown_deadline_witness :
  view is_shutdown_line (Run one_engine [0%nat] (up_to_wait ":3788")) = [] ∧
  (∃ s', step (TShutdown 0) overdue (Run one_engine [0%nat] up_to_stopping) = Some s' ∧
         halted s' = false ∧
         out (world s') =
           (out (world (Run one_engine [0%nat] up_to_stopping)) ++
            [EShutdownReturn 0 (Some (ErrOther "context deadline exceeded"));
             ELog (EngineLog 0) LogError "Timeout forced close";
             ESrvClose 0])%list) ∧
  s_ctx (mkShutdownTask (mkServerMap 0 0) true (20 * second) SWaiting) = 20 * second.
Proof.
  unfold Run.
  pose proof (shutdown_deadline one_engine (targets_of one_engine [0%nat])
                (up_to_wait ":3788")) as Hcalm.
  pose proof (shutdown_deadline one_engine (targets_of one_engine [0%nat])
                up_to_stopping) as Hkill.
  cbv zeta in Hcalm, Hkill.
  destruct Hcalm as (_ & _ & _ & H4 & _). destruct Hkill as (_ & H2 & _ & _ & H5).
  assert (shutdowns (exec up_to_stopping
                       (start one_engine (targets_of one_engine [0%nat]))) !! 0%nat =
          Some (mkShutdownTask (mkServerMap 0 0) true (20 * second) SWaiting)) as Ht
    by reflexivity.
  assert (halted (exec up_to_stopping
                    (start one_engine (targets_of one_engine [0%nat]))) = false) as Hh
    by reflexivity.
  assert (iskill_of (mainpc (exec (up_to_wait ":3788")
                               (start one_engine (targets_of one_engine [0%nat])))) =
          Some false) as Hk by reflexivity.
  split; [|split].
  - apply H4. intros Hk'. rewrite Hk in Hk'. discriminate Hk'.
  - specialize (H5 0%nat (mkShutdownTask (mkServerMap 0 0) true (20 * second) SWaiting)
                  overdue Ht eq_refl Hh).
    destruct H5 as (s' & Hs & Hh' & _ & Ho).
    exists s'. split; [exact Hs|]. split; [exact Hh'|]. exact Ho.
  - exact (proj1 (H2 0%nat
                    (mkShutdownTask (mkServerMap 0 0) true (20 * second) SWaiting) Ht)).
Defined.

Lemma completion_callback_witness :
  (let s3 := exec [(TMain, calm); (TMain, calm); (TMain, calm)]
               (Run (with_ShutdownDone one_engine) [0%nat] (up_to_wait ":3788")) in
   mainpc s3 = MReturned false ∧
   out (world s3) =
     (out (world (Run (with_ShutdownDone one_engine) [0%nat] (up_to_wait ":3788"))) ++
      [EWaitReturn; EShutdownDone; ESleep (100 * millisecond); ECancel])%list) ∧
  (let s := Run (with_ShutdownDone one_engine) [0%nat]
              (up_to_wait ":3788" ++ replicate 3 (TMain, calm)) in
   signaled s = length (shutdowns s) ∧ length (shutdowns s) = 1%nat ∧
   length (listeners s) = 1%nat).
Proof.
  unfold Run. cbv zeta.
  pose proof (completion_callback (with_ShutdownDone one_engine)
                (targets_of (with_ShutdownDone one_engine) [0%nat])
                (up_to_wait ":3788")) as Hwait.
  pose proof (completion_callback (with_ShutdownDone one_engine)
                (targets_of (with_ShutdownDone one_engine) [0%nat])
                (up_to_wait ":3788" ++ replicate 3 (TMain, calm))) as Hdone.
  cbv zeta in Hwait, Hdone.
  destruct Hwait as (_ & _ & _ & H4 & _). destruct Hdone as (_ & H2 & _).
  assert (mainpc (exec (up_to_wait ":3788")
                    (start (with_ShutdownDone one_engine)
                       (targets_of (with_ShutdownDone one_engine) [0%nat]))) =
          MWait false) as Hpc by reflexivity.
  assert (wg (exec (up_to_wait ":3788")
                (start (with_ShutdownDone one_engine)
                   (targets_of (with_ShutdownDone one_engine) [0%nat]))) = 0) as Hwg
    by reflexivity.
  assert (halted (exec (up_to_wait ":3788")
                    (start (with_ShutdownDone one_engine)
                       (targets_of (with_ShutdownDone one_engine) [0%nat]))) = false)
    as Hh by reflexivity.
  assert (past_wait (mainpc (exec (up_to_wait ":3788" ++ replicate 3 (TMain, calm))
                    (start (with_ShutdownDone one_engine)
                       (targets_of (with_ShutdownDone one_engine) [0%nat])))) = true)
    as Hp by reflexivity.
  split.
  - exact (H4 calm false Hpc Hwg Hh).
  - exact (H2 Hp).
Defined.

(** C7, as it was claimed: with the callback set, [Range] can run before
    the listener has stored its server; no shutdown goroutine is started,
    the counter stays at one, and however the run goes on the callback is
    never invoked, although the process is alive and the listener serves. *)
Lemma callback_never_invoked_counterexample :
  ShutdownDone (world (Run (with_ShutdownDone one_engine) [0%nat] range_before_store))
    = true ∧
  halted (Run (with_ShutdownDone one_engine) [0%nat] range_before_store) = false ∧
  mainpc (Run (with_ShutdownDone one_engine) [0%nat] range_before_store) = MWait false ∧
  wg (Run (with_ShutdownDone one_engine) [0%nat] range_before_store) = 1 ∧
  shutdowns (Run (with_ShutdownDone one_engine) [0%nat] range_before_store) = [] ∧
  listeners (Run (with_ShutdownDone one_engine) [0%nat] range_before_store) =
    [mkListener 0 defaultAddr (LServing (mkHttpServer ":3788" 0 0 0 None))] ∧
  ∀ sched',
    (EShutdownDone ∉ out (world (exec sched'
        (Run (with_ShutdownDone one_engine) [0%nat] range_before_store)))) ∧
    mainpc (exec sched'
        (Run (with_ShutdownDone one_engine) [0%nat] range_before_store)) = MWait false.
Proof.
  unfold Run.
  pose proof (run_invariants (with_ShutdownDone one_engine)
                (targets_of (with_ShutdownDone one_engine) [0%nat]) range_before_store)
    as Hinv.
  cbv zeta in Hinv. destruct Hinv as (Hacc & _ & _).
  assert (∀ sched',
            barrier_ok (ShutdownDone (with_ShutdownDone one_engine))
              (exec sched'
                 (exec range_before_store
                    (start (with_ShutdownDone one_engine)
                       (targets_of (with_ShutdownDone one_engine) [0%nat])))))
    as Hbar.
  { intros sched'. rewrite <- exec_app. apply run_invariants. }
  assert (ShutdownDone (world (exec range_before_store
            (start (with_ShutdownDone one_engine)
               (targets_of (with_ShutdownDone one_engine) [0%nat])))) = true)
    as Hcb by reflexivity.
  assert (halted (exec range_before_store
            (start (with_ShutdownDone one_engine)
               (targets_of (with_ShutdownDone one_engine) [0%nat]))) = false)
    as Hh by reflexivity.
  assert (mainpc (exec range_before_store
            (start (with_ShutdownDone one_engine)
               (targets_of (with_ShutdownDone one_engine) [0%nat]))) = MWait false)
    as Hpc by reflexivity.
  assert (wg (exec range_before_store
            (start (with_ShutdownDone one_engine)
               (targets_of (with_ShutdownDone one_engine) [0%nat]))) = 1)
    as Hwg by reflexivity.
  assert (shutdowns (exec range_before_store
            (start (with_ShutdownDone one_engine)
               (targets_of (with_ShutdownDone one_engine) [0%nat]))) = [])
    as Hts by reflexivity.
  assert (listeners (exec range_before_store
            (start (with_ShutdownDone one_engine)
               (targets_of (with_ShutdownDone one_engine) [0%nat]))) =
          [mkListener 0 defaultAddr (LServing (mkHttpServer ":3788" 0 0 0 None))])
    as Hls by reflexivity.
  set (s := exec range_before_store
              (start (with_ShutdownDone one_engine)
                 (targets_of (with_ShutdownDone one_engine) [0%nat]))) in *.
  clearbody s.
  split; [exact Hcb|]. split; [exact Hh|]. split; [exact Hpc|]. split; [exact Hwg|].
  split; [exact Hts|]. split; [exact Hls|].
  intros sched'.
  assert (length (shutdowns s) < length (listeners s))%nat as Hlt.
  { rewrite Hts, Hls. apply Nat.lt_0_1. }
  destruct (missed_entry_blocks _ _ _ Hacc Hpc Hlt sched') as (_ & Hpc' & _).
  destruct (Hbar sched') as (ds & Hview & _). unfold view in Hview.
  rewrite Hpc' in Hview. unfold barrier_tail in Hview. rewrite app_nil_r in Hview.
  split; [|exact Hpc'].
  intros Hin.
  assert (EShutdownDone ∈ List.filter is_barrier (out (world (exec sched' s)))) as Hin'.
  { apply list_elem_of_In, filter_In. split; [by apply list_elem_of_In | reflexivity]. }
  rewrite Hview in Hin'. apply list_elem_of_fmap in Hin' as (d & Hd & _).
  discriminate Hd.
Qed.

Lemma registered_before_serving_witness :
  (∃ e, EStore ":3788" (mkServerMap e 0)
          ∈ [EAdd; EGo 0; EStore ":3788" (mkServerMap 0 0);
             EAfterFunc 0 (100 * millisecond)]) ∧
  (∃ sv, stored (LServing (mkHttpServer ":3788" 0 0 0 None)) = Some sv ∧
         EStore (Addr sv) (mkServerMap 0 0)
           ∈ out (world (Run one_engine [0%nat] up_to_serving)) ∧
         is_Some (srvMap (Run one_engine [0%nat] up_to_serving) !! Addr sv)) ∧
  (∃ l sv, listeners (Run one_engine [0%nat] up_to_serving) !! 0%nat = Some l ∧
           stored (l_pc l) = Some sv ∧ Addr sv = ":3788" ∧ 0%nat = l_engine l).
Proof.
  unfold Run.
  pose proof (registered_before_serving one_engine (targets_of one_engine [0%nat])
                up_to_serving) as H.
  cbv zeta in H. destruct H as (H1 & H2 & H3).
  assert (out (world (exec up_to_serving
                        (start one_engine (targets_of one_engine [0%nat])))) =
          ([EAdd; EGo 0; EStore ":3788" (mkServerMap 0 0);
            EAfterFunc 0 (100 * millisecond)] ++ EServe 0 ":3788" false :: [])%list)
    as Ho by reflexivity.
  assert (listeners (exec up_to_serving
                       (start one_engine (targets_of one_engine [0%nat]))) !! 0%nat =
          Some (mkListener 0 defaultAddr (LServing (mkHttpServer ":3788" 0 0 0 None))))
    as Hl by reflexivity.
  assert (srvMap (exec up_to_serving
                    (start one_engine (targets_of one_engine [0%nat]))) !! ":3788" =
          Some (mkServerMap 0 0)) as Hm by reflexivity.
  split; [|split].
  - exact (H1 _ _ _ _ _ Ho).
  - exact (H2 0%nat _ Hl eq_refl).
  - exact (H3 ":3788" (mkServerMap 0 0) Hm).
Defined.


Lemma barrier_needs_distinct_addresses_witness :
  (let s' := exec try_to_finish (Run two_engines [0%nat; 1%nat] both_resolved) in
   (signaled s' < length (listeners s'))%nat ∧ wg s' > 0 ∧
   past_wait (mainpc s') = false ∧ EShutdownDone ∉ out (world s')) ∧
  (let s := Run one_engine [0%nat] (up_to_wait ":3788" ++ replicate 3 (TMain, calm)) in
   length (resolved_addrs s) = length (targets_of one_engine [0%nat]) ∧
   NoDup (resolved_addrs s) ∧
   length (listeners s) = length (targets_of one_engine [0%nat])) ∧
  (∃ s', step (TListener 1) calm
           (Run two_engines [0%nat; 1%nat] (both_resolved ++ [(TListener 0, calm)]))
         = Some s' ∧
         srvMap s' !! ":3788" = Some (mkServerMap 1 1) ∧
         size (srvMap s') =
           size (srvMap (Run two_engines [0%nat; 1%nat]
                           (both_resolved ++ [(TListener 0, calm)])))).
Proof.
  unfold Run. cbv zeta.
  pose proof (barrier_needs_distinct_addresses two_engines
                (targets_of two_engines [0%nat; 1%nat]) both_resolved) as Hdup.
  pose proof (barrier_needs_distinct_addresses one_engine
                (targets_of one_engine [0%nat])
                (up_to_wait ":3788" ++ replicate 3 (TMain, calm))) as Hone.
  pose proof (barrier_needs_distinct_addresses two_engines
                (targets_of two_engines [0%nat; 1%nat])
                (both_resolved ++ [(TListener 0, calm)])) as Hstore.
  cbv zeta in Hdup, Hone, Hstore.
  destruct Hdup as (_ & _ & H3 & _). destruct Hone as (_ & _ & _ & H4).
  destruct Hstore as (_ & H2 & _).
  assert (listeners (exec both_resolved
                       (start two_engines (targets_of two_engines [0%nat; 1%nat])))
            !! 0%nat =
          Some (mkListener 0 defaultAddr (LBuilt (mkHttpServer ":3788" 0 0 0 None))))
    as Hl0 by reflexivity.
  assert (listeners (exec both_resolved
                       (start two_engines (targets_of two_engines [0%nat; 1%nat])))
            !! 1%nat =
          Some (mkListener 1 defaultAddr (LBuilt (mkHttpServer ":3788" 1 0 0 None))))
    as Hl1 by reflexivity.
  assert (past_wait (mainpc (exec (up_to_wait ":3788" ++ replicate 3 (TMain, calm))
                               (start one_engine (targets_of one_engine [0%nat])))) =
          true) as Hp by reflexivity.
  assert (listeners (exec (both_resolved ++ [(TListener 0, calm)])
                       (start two_engines (targets_of two_engines [0%nat; 1%nat])))
            !! 1%nat =
          Some (mkListener 1 defaultAddr (LBuilt (mkHttpServer ":3788" 1 0 0 None))))
    as Hl1' by reflexivity.
  assert (halted (exec (both_resolved ++ [(TListener 0, calm)])
                    (start two_engines (targets_of two_engines [0%nat; 1%nat]))) =
          false) as Hh by reflexivity.
  assert (srvMap (exec (both_resolved ++ [(TListener 0, calm)])
                    (start two_engines (targets_of two_engines [0%nat; 1%nat])))
            !! ":3788" = Some (mkServerMap 0 0)) as Hm by reflexivity.
  split; [|split].
  - assert (0%nat ≠ 1%nat) as Hne by discriminate.
    exact (H3 0%nat 1%nat _ _ ":3788" Hne Hl0 Hl1 eq_refl eq_refl try_to_finish).
  - exact (H4 Hp).
  - destruct (H2 1%nat _ _ calm Hl1' eq_refl Hh) as (s' & Hs & Hm' & Hsz).
    exists s'. split; [exact Hs|]. split; [exact Hm'|].
    apply Hsz. exists (mkServerMap 0 0). exact Hm.
Defined.

(** * Further properties *)

(** ** Setters and the registry *)

Lemma targets_of_addrs w engines :
  targets_of w engines = e ← engines; (λ cfg, (e, cfg)) <$> addrs_of w e.
Proof.
  unfold targets_of, addrs_of. induction engines as [|e engines IH]; [done|].
  csimpl. rewrite IH. f_equal.
Qed.

Lemma addrs_of_insert w e e' eng f :
  heap w !! e = Some eng →
  addrs_of (set_heap (<[e := f eng]> (heap w)) w) e' =
    if decide (e' = e) then eaddr (f eng) else addrs_of w e'.
Proof.
  intros H. unfold addrs_of. simpl. destruct (decide (e' = e)) as [-> | Hne].
  - rewrite list_lookup_insert_eq; [done | by eapply lookup_lt_Some].
  - by rewrite list_lookup_insert_ne.
Qed.

Lemma targets_of_keep w w' engines :
  (∀ e, addrs_of w' e = addrs_of w e) → targets_of w' engines = targets_of w engines.
Proof.
  intros H. rewrite !targets_of_addrs.
  induction engines as [|e engines IH]; [done|]. csimpl. by rewrite H, IH.
Qed.

Lemma modify_keeps_targets w e eng f :
  heap w !! e = Some eng → eaddr (f eng) = eaddr eng →
  ∃ w', modify e f w = Ret tt w' ∧
        heap w' = <[e := f eng]> (heap w) ∧
        zservers w' = zservers w ∧ out w' = out w ∧
        CloseHotRestart w' = CloseHotRestart w ∧ fileMd5 w' = fileMd5 w ∧
        ShutdownDone w' = ShutdownDone w ∧
        ∀ engines, targets_of w' engines = targets_of w engines.
Proof.
  intros H Ha. eexists. split; [by apply modify_ok|]. split_and!; try done.
  intros engines. apply targets_of_keep. intros e'.
  rewrite (addrs_of_insert _ _ _ _ _ H). destruct (decide (e' = e)) as [-> | ?]; [|done].
  unfold addrs_of. by rewrite H, Ha.
Qed.

Lemma SetMode_known e eng value w :
  heap w !! e = Some eng → known_mode value = true →
  SetMode e value w =
    Ret tt (set_heap (<[e := in_mode
                              (if bool_decide (value = DebugMode) then debugCode
                               else if bool_decide (value = TestMode) then testCode
                               else prodCode)
                              (if bool_decide (value = "") then ProdMode else value)
                              (if bool_decide (value = DebugMode) then LogDump
                               else if bool_decide (value = TestMode) then LogInfo
                               else LogSuccess) eng]> (heap w)) w).
Proof.
  intros H Hk.
  assert (∀ c (l : Level) name,
    (lvl <- (modify e (with_webMode c) ;;; ret l) ;;
     modify e (with_webModeName name) ;;; modify e (with_LogLevel lvl)) w =
    Ret tt (set_heap (<[e := in_mode c name l eng]> (heap w)) w)) as Hgo.
  { intros c l name. unfold bind, ret. rewrite (modify_ok _ _ _ _ H).
    erewrite modify_ok; last by (simpl; apply list_lookup_insert_eq; eapply lookup_lt_Some).
    erewrite modify_ok;
      last by (simpl; apply list_lookup_insert_eq; rewrite length_insert;
               eapply lookup_lt_Some).
    simpl. by rewrite !list_insert_insert_eq. }
  unfold known_mode in Hk. unfold SetMode.
  destruct (decide (value = ProdMode)) as [-> | H1]; [apply Hgo|].
  destruct (decide (value = "")) as [-> | H2]; [apply Hgo|].
  destruct (decide (value = DebugMode)) as [-> | H3]; [apply Hgo|].
  destruct (decide (value = TestMode)) as [-> | H4]; [apply Hgo|].
  by rewrite !bool_decide_false in Hk.
Qed.

(** X1: [IsDebug] is decided by the last successful [SetMode]: after
    [SetMode] with a known mode it answers true exactly for [dev] and
    [test], in a fresh engine it answers false, and a second [SetMode]
    replaces all that the first one set. *)
Theorem IsDebug_follows_SetMode e eng value w :
  heap w !! e = Some eng → known_mode value = true →
  ∃ w', SetMode e value w = Ret tt w' ∧
        IsDebug e w' =
          Ret (bool_decide (value = DebugMode) || bool_decide (value = TestMode)) w' ∧
        IsDebug e w = Ret (bool_decide (webMode eng > prodCode)) w ∧
        (∀ value', known_mode value' = true →
                   SetMode e value' w' = SetMode e value' w) ∧
        (∀ e' eng', e' ≠ e → heap w !! e' = Some eng' → heap w' !! e' = Some eng') ∧
        ∀ engines, targets_of w' engines = targets_of w engines.
Proof.
  intros H Hk. pose proof (lookup_lt_Some _ _ _ H) as Hlt.
  eexists. split; [by apply SetMode_known|]. split_and!.
  - unfold IsDebug, bind, load, ret. simpl. rewrite list_lookup_insert_eq by done.
    f_equal. simpl.
    destruct (decide (value = DebugMode)) as [H3 | H3];
      [by rewrite !(bool_decide_true _ H3) | rewrite !(bool_decide_false _ H3)].
    destruct (decide (value = TestMode)) as [H4 | H4];
      [by rewrite !(bool_decide_true _ H4) | by rewrite !(bool_decide_false _ H4)].
  - unfold IsDebug, bind, load, ret. by rewrite H.
  - intros value' Hk'.
    erewrite !SetMode_known; try done; last by (simpl; apply list_lookup_insert_eq).
    simpl. by rewrite list_insert_insert_eq.
  - intros e' eng' Hne He'. simpl. by rewrite list_lookup_insert_ne.
  - intros engines. apply targets_of_keep. intros e'.
    rewrite (addrs_of_insert _ _ _ _ _ H). destruct (decide (e' = e)) as [-> | ?]; [|done].
    unfold addrs_of. by rewrite H.
Qed.

Lemma IsDebug_follows_SetMode_witness :
  ∃ w', SetMode 0 "test" one_engine = Ret tt w' ∧
        IsDebug 0 w' = Ret true w' ∧
        IsDebug 0 one_engine = Ret false one_engine ∧
        SetMode 0 "prod" w' = SetMode 0 "prod" one_engine ∧
        targets_of w' [0%nat] = [(0%nat, defaultAddr)].
Proof.
  pose proof (IsDebug_follows_SetMode 0 (newEngine "Z") "test" one_engine eq_refl eq_refl)
    as (w' & H1 & H2 & H3 & H4 & _ & H6).
  exists w'. split; [exact H1|]. split; [exact H2|]. split; [exact H3|].
  split; [exact (H4 "prod" eq_refl)|]. exact (eq_trans (H6 [0%nat]) eq_refl).
Defined.

Lemma SetTimeout_ok e eng t wts w :
  heap w !! e = Some eng →
  SetTimeout e t wts w =
    Ret tt (set_heap (<[e := with_timeouts t (default t (head wts)) eng]> (heap w)) w).
Proof. intros H. unfold SetTimeout. destruct wts; by apply modify_ok. Qed.

(** X2: [SetCustomMethodField] writes the one field of the engine behind
    the pointer: the mode, the timeouts and the bind targets of that engine,
    every other engine, the registry and the trace stay as they were, a
    second call replaces the first, and through a nil pointer the call
    panics. *)
Theorem SetCustomMethodField_only_field e field w :
  (∀ eng, heap w !! e = Some eng →
     ∃ w' eng',
       SetCustomMethodField e field w = Ret tt w' ∧
       heap w' !! e = Some eng' ∧ customMethodType eng' = field ∧
       with_customMethodType (customMethodType eng) eng' = eng ∧
       (∀ e' x, e' ≠ e → heap w !! e' = Some x → heap w' !! e' = Some x) ∧
       zservers w' = zservers w ∧ out w' = out w ∧
       (∀ engines, targets_of w' engines = targets_of w engines) ∧
       (∀ field', SetCustomMethodField e field' w' = SetCustomMethodField e field' w)) ∧
  (heap w !! e = None →
     SetCustomMethodField e field w =
       Panicked "invalid memory address or nil pointer dereference" w).
Proof.
  split.
  - intros eng H. pose proof (lookup_lt_Some _ _ _ H) as Hlt.
    destruct (modify_keeps_targets w e eng (with_customMethodType field) H eq_refl)
      as (w' & Hm & Hh & Hz & Ho & _ & _ & _ & Ht).
    exists w', (with_customMethodType field eng).
    split; [exact Hm|]. rewrite Hh. split_and!; try done.
    + by apply list_lookup_insert_eq.
    + by destruct eng.
    + intros e' x Hne Hx. by rewrite list_lookup_insert_ne.
    + intros field'. unfold SetCustomMethodField.
      rewrite (modify_ok _ _ _ _ H).
      erewrite modify_ok; last by (rewrite Hh; apply list_lookup_insert_eq).
      unfold set_heap. rewrite Hh, list_insert_insert_eq.
      unfold SetCustomMethodField in Hm. rewrite (modify_ok _ _ _ _ H) in Hm.
      injection Hm as <-. done.
  - intros H. unfold SetCustomMethodField, modify, bind, load. by rewrite H.
Qed.

Lemma SetCustomMethodField_only_field_witness :
  (∃ w' eng',
     SetCustomMethodField 0 "_method" one_engine = Ret tt w' ∧
     heap w' !! 0%nat = Some eng' ∧ customMethodType eng' = "_method" ∧
     targets_of w' [0%nat] = [(0%nat, defaultAddr)] ∧
     SetCustomMethodField 0 "m" w' = SetCustomMethodField 0 "m" one_engine) ∧
  SetCustomMethodField 3 "_method" one_engine =
    Panicked "invalid memory address or nil pointer dereference" one_engine.
Proof.
  pose proof (SetCustomMethodField_only_field 0 "_method" one_engine) as [H1 _].
  pose proof (SetCustomMethodField_only_field 3 "_method" one_engine) as [_ H2].
  specialize (H1 (newEngine "Z") eq_refl).
  destruct H1 as (w' & eng' & Hs & Hh & Hc & _ & _ & _ & _ & Ht & Hl).
  split; [|exact (H2 eq_refl)].
  exists w', eng'. split; [exact Hs|]. split; [exact Hh|]. split; [exact Hc|].
  split; [exact (eq_trans (Ht [0%nat]) eq_refl) | exact (Hl "m")].
Defined.

(** X3: [SetAddr] leaves the engine with the one bind target it is given,
    [AddAddr] appends its bind target to those the engine has, neither
    touches another engine, and a later [SetAddr] makes every earlier
    [AddAddr] and [SetAddr] void; so [Run] ranges over one target more
    after [AddAddr] and over exactly one after [SetAddr]. *)
Theorem bind_targets_follow_addr e eng r w :
  heap w !! e = Some eng →
  (∃ w1, SetAddr e r w = Ret tt w1 ∧ targets_of w1 [e] = [(e, r)] ∧
         (∀ e', e' ≠ e → targets_of w1 [e'] = targets_of w [e']) ∧
         zservers w1 = zservers w ∧ out w1 = out w) ∧
  (∃ w2, AddAddr e r w = Ret tt w2 ∧
         targets_of w2 [e] = (targets_of w [e] ++ [(e, r)])%list ∧
         (∀ e', e' ≠ e → targets_of w2 [e'] = targets_of w [e']) ∧
         zservers w2 = zservers w ∧ out w2 = out w ∧
         (∀ r', SetAddr e r' w2 = SetAddr e r' w)).
Proof.
  intros H. pose proof (lookup_lt_Some _ _ _ H) as Hlt.
  assert (∀ l, targets_of (set_heap (<[e := with_addr l eng]> (heap w)) w) [e] =
               (λ cfg, (e, cfg)) <$> l) as Hself.
  { intros l. rewrite targets_of_addrs. csimpl. rewrite app_nil_r.
    rewrite (addrs_of_insert _ _ _ _ _ H). by rewrite decide_True. }
  assert (∀ l e', e' ≠ e →
            targets_of (set_heap (<[e := with_addr l eng]> (heap w)) w) [e'] =
            targets_of w [e']) as Hother.
  { intros l e' Hne. rewrite !targets_of_addrs. csimpl.
    rewrite (addrs_of_insert _ _ _ _ _ H). by rewrite decide_False. }
  split.
  - eexists. split; [by apply modify_ok|].
    split; [exact (Hself [r])|]. split; [apply Hother | done].
  - eexists. split.
    { unfold AddAddr, bind, load. rewrite H. by apply modify_ok. }
    split; [|split; [apply Hother|]; split_and!; try done].
    + rewrite Hself, fmap_app. f_equal. rewrite targets_of_addrs. csimpl.
      rewrite app_nil_r. unfold addrs_of. by rewrite H.
    + intros r'. unfold SetAddr. rewrite (modify_ok _ _ _ _ H).
      erewrite modify_ok; last by (simpl; apply list_lookup_insert_eq).
      simpl. by rewrite list_insert_insert_eq.
Qed.

Lemma bind_targets_follow_addr_witness :
  (∃ w1, SetAddr 0 tls_target one_engine = Ret tt w1 ∧
         targets_of w1 [0%nat] = [(0%nat, tls_target)]) ∧
  (∃ w2, AddAddr 0 tls_target one_engine = Ret tt w2 ∧
         targets_of w2 [0%nat] = [(0%nat, defaultAddr); (0%nat, tls_target)] ∧
         SetAddr 0 defaultAddr w2 = SetAddr 0 defaultAddr one_engine).
Proof.
  pose proof (bind_targets_follow_addr 0 (newEngine "Z") tls_target one_engine eq_refl)
    as [(w1 & H1 & H2 & _) (w2 & H3 & H4 & _ & _ & _ & H5)].
  split.
  - exists w1. split; [exact H1 | exact H2].
  - exists w2. split; [exact H3|].
    split; [exact (eq_trans H4 eq_refl) | exact (H5 defaultAddr)].
Defined.

(** X4: [Server] always returns: for a registered name it hands out the
    registered engine and changes nothing; for an absent name the engine it
    creates is registered under that name, so the duplicate check of [New]
    cannot fire; in both cases asking again gives the same engine with
    [ok] true. *)
Theorem Server_returns_and_repeats names w :
  ∃ e ok w',
    Server names w = Ret (e, ok) w' ∧
    ok = bool_decide (is_Some (zservers w !! name_of names)) ∧
    zservers w' !! name_of names = Some e ∧
    Server names w' = Ret (e, true) w' ∧
    (ok = true → w' = w) ∧
    (ok = false → heap w' = (heap w ++ [newEngine (name_of names)])%list ∧
                  e = length (heap w)).
Proof.
  destruct (zservers w !! name_of names) as [e|] eqn:E.
  - exists e, true, w. rewrite (Server_found _ _ _ E). split_and!; try done.
  - rewrite (Server_absent _ _ E). eexists _, false, _. split; [reflexivity|].
    split_and!; try done.
    + simpl. apply lookup_insert_eq.
    + apply Server_found. simpl. apply lookup_insert_eq.
Qed.

Lemma Server_returns_and_repeats_witness :
  ∃ e w',
    Server ["api"] one_engine = Ret (e, false) w' ∧
    zservers w' !! "api" = Some e ∧
    Server ["api"] w' = Ret (e, true) w' ∧
    e = 1%nat.
Proof.
  pose proof (Server_returns_and_repeats ["api"] one_engine)
    as (e & ok & w' & H1 & H2 & H3 & H4 & _ & H6).
  assert (ok = false) as Hok by (rewrite H2; reflexivity).
  rewrite Hok in H1. exists e, w'.
  split; [exact H1|]. split; [exact H3|]. split; [exact H4|].
  exact (proj2 (H6 Hok)).
Defined.

(** ** Resolved addresses *)

Lemma Contains_delimiter x : Contains (":" +:+ x) ":" = true.
Proof. done. Qed.

Lemma with_delimiter_has a : Contains (with_delimiter a) ":" = true.
Proof.
  unfold with_delimiter. destruct (Contains a ":") eqn:E; simpl; [done|].
  exact (Contains_delimiter a).
Qed.

Lemma with_delimiter_fixed a : Contains a ":" = true → with_delimiter a = a.
Proof. intros H. unfold with_delimiter. by rewrite H. Qed.

Lemma Itoa_zero p : Itoa p = "0" → p = 0.
Proof.
  intros H. pose proof (Itoa_numeric p) as Hn. rewrite H in Hn.
  by injection Hn as <-.
Qed.

(** X5: what [getPort] returns is a resolved address: it carries the
    delimiter, it is either the input with the delimiter supplied (and then
    nothing was listened on) or the port a throwaway listener was given,
    the package-level state is as before, and unless the system handed out
    port 0 a second resolution returns it unchanged without touching the
    network. *)
Theorem getPort_result_is_resolved os a w a' w' :
  getPort os a w = Ret a' w' →
  Contains a' ":" = true ∧
  same_globals w w' ∧
  (a' = with_delimiter a ∧ with_delimiter a ≠ ":0" ∧ w' = w ∨
   with_delimiter a = ":0" ∧ w' = emit [ENetListen ":0"; ENetClose] w ∧
   ∃ p, os = Listening p ∧ a' = ":" +:+ Itoa p) ∧
  (a' = ":0" → os = Listening 0) ∧
  (a' ≠ ":0" → ∀ os' w'', getPort os' a' w'' = Ret a' w'').
Proof.
  intros H. destruct (decide (with_delimiter a = ":0")) as [Hz | Hz].
  - rewrite (getPort_ephemeral _ _ _ Hz) in H. destruct os as [err | p]; [done|].
    injection H as <- <-. split_and!.
    + exact (Contains_delimiter (Itoa p)).
    + done.
    + right. eauto.
    + intros Hp. f_equal. apply Itoa_zero. injection Hp as Hp. exact Hp.
    + intros Hne os' w''. rewrite getPort_fixed;
        rewrite with_delimiter_fixed by exact (Contains_delimiter (Itoa p)); done.
  - rewrite (getPort_fixed _ _ _ Hz) in H. injection H as <- <-. split_and!.
    + apply with_delimiter_has.
    + done.
    + by left.
    + done.
    + intros _ os' w''. rewrite getPort_fixed;
        rewrite with_delimiter_fixed by apply with_delimiter_has; done.
Qed.

Lemma getPort_result_is_resolved_witness :
  Contains ":40123" ":" = true ∧
  getPort (ListenErr (ErrOther "too many open files")) ":40123" (world0 "") =
    Ret ":40123" (world0 "") ∧
  Contains ":8080" ":" = true ∧
  getPort (ListenErr (ErrOther "too many open files")) ":8080" (world0 "") =
    Ret ":8080" (world0 "").
Proof.
  pose proof (getPort_result_is_resolved (Listening 40123) "0" (world0 "") ":40123"
                (emit [ENetListen ":0"; ENetClose] (world0 "")) eq_refl)
    as (H1 & _ & _ & _ & H5).
  pose proof (getPort_result_is_resolved (Listening 40123) "8080" (world0 "") ":8080"
                (world0 "") eq_refl) as (H1' & _ & _ & _ & H5').
  assert (":40123" ≠ ":0") as Hne by discriminate.
  assert (":8080" ≠ ":0") as Hne' by discriminate.
  split; [exact H1|]. split; [exact (H5 Hne _ _)|].
  split; [exact H1'|]. exact (H5' Hne' _ _).
Defined.

(** ** The listeners of a run *)

Lemma target_of_alter pc i (ls : list Listener) :
  target_of <$> alter (set_l_pc pc) i ls = target_of <$> ls.
Proof.
  revert i. induction ls as [|l ls IH]; intros [|i]; csimpl; try done.
  f_equal. apply IH.
Qed.

Lemma launched_step targets s tid env s' :
  launched targets s → step tid env s = Some s' → launched targets s'.
Proof.
  intros Hl H. unfold launched in *.
  step_cases H; step_norm H; simpl.
  all: rewrite ?HpcM in Hl; rewrite ?target_of_alter.
  all: try done.
  all: try (by destruct (mainpc s)).
  - by rewrite app_nil_r in Hl.
  - rewrite fmap_app, <- app_assoc. done.
Qed.

Lemma launched_exec w targets sched : launched targets (exec sched (start w targets)).
Proof.
  apply exec_invariant; [done | intros; by eapply launched_step].
Qed.

Lemma well_built_alter w0 (ls : list Listener) i l pc :
  (∀ j l, ls !! j = Some l → well_built w0 l) →
  ls !! i = Some l → well_built w0 (set_l_pc pc l) →
  ∀ j l', alter (set_l_pc pc) i ls !! j = Some l' → well_built w0 l'.
Proof.
  intros Hall Hi Hnew j l'. destruct (decide (i = j)) as [<- | Hne].
  - rewrite list_lookup_alter_eq, Hi. by intros [= <-].
  - rewrite list_lookup_alter_ne by done. apply Hall.
Qed.

Lemma well_built_launch w0 (ls : list Listener) e cfg :
  (∀ j l, ls !! j = Some l → well_built w0 l) →
  ∀ j l', (ls ++ [mkListener e cfg LStart])%list !! j = Some l' → well_built w0 l'.
Proof.
  intros Hall j l' [Hj | [_ Hj]]%lookup_app_Some; [by eapply Hall|].
  apply list_lookup_singleton_Some in Hj as [_ <-]. by intros sv.
Qed.

Lemma isTls_false_Config cfg : isTls cfg = false → Config (tls cfg) = None.
Proof.
  unfold isTls. intros [_ H]%orb_false_iff. apply bool_decide_eq_false in H.
  destruct (Config (tls cfg)); [|done]. by destruct H.
Qed.

Lemma getPort_Ret os a w a' w' :
  getPort os a w = Ret a' w' →
  same_globals w w' ∧
  (a' = with_delimiter a ∧ with_delimiter a ≠ ":0" ∧ w' = w ∨
   with_delimiter a = ":0" ∧ w' = emit [ENetListen ":0"; ENetClose] w ∧
   ∃ p, os = Listening p ∧ a' = ":" +:+ Itoa p).
Proof.
  intros H. destruct (decide (with_delimiter a = ":0")) as [Hz | Hz].
  - rewrite (getPort_ephemeral _ _ _ Hz) in H. destruct os as [err | p]; [done|].
    injection H as <- <-. split; [done|]. right. eauto.
  - rewrite (getPort_fixed _ _ _ Hz) in H. injection H as <- <-.
    split; [done | by left].
Qed.

(** The first step of a listener: the address is resolved and the server
    is built from the engine, or the process is gone. *)
Lemma listener_start_lift i l env s s' :
  Some (lift (a <- getPort (os env) (addr (l_cfg l)) ;;
              eng <- load (l_engine l) ;;
              ret (mkHttpServer a (l_engine l) (readTimeout eng) (writeTimeout eng) None))
          s (fun srv s => at_listener i (LBuilt srv) s)) = Some s' →
  (halted s' = true ∧ listeners s' = listeners s ∧ timers s' = timers s ∧
   companions s' = companions s ∧ shutdowns s' = shutdowns s ∧
   mainpc s' = mainpc s ∧ srvMap s' = srvMap s) ∨
  (∃ a w' eng,
     getPort (os env) (addr (l_cfg l)) (world s) = Ret a w' ∧
     heap (world s) !! l_engine l = Some eng ∧
     s' = at_listener i
            (LBuilt (mkHttpServer a (l_engine l) (readTimeout eng) (writeTimeout eng) None))
            (set_world w' s)).
Proof.
  intros H. injection H as <-. unfold lift, bind.
  destruct (getPort (os env) (addr (l_cfg l)) (world s)) as [a w'| |] eqn:Hg;
    [|by left..].
  destruct (getPort_Ret _ _ _ _ _ Hg) as [(_ & Hh & _) _].
  unfold load. rewrite Hh.
  destruct (heap (world s) !! l_engine l) as [eng|] eqn:He; [|by left].
  right. by eexists _, _, _.
Qed.

Lemma well_built_step w0 s tid env s' :
  heap (world s) = heap w0 →
  (∀ i l, listeners s !! i = Some l → well_built w0 l) →
  step tid env s = Some s' →
  ∀ i l, listeners s' !! i = Some l → well_built w0 l.
Proof.
  intros Hheap Hall H. step_cases H.
  all: try match goal with
       | Hs : l_pc ?l = LStart |- _ =>
           apply listener_start_lift in H;
           destruct H as [(_ & -> & _) | (a & w' & eng & Hg & He & ->)]; [exact Hall|];
           simpl; (eapply well_built_alter; [exact Hall | exact Hl |]);
           intros sv [= <-]; exists eng; rewrite <- Hheap; (split; [done|]);
           unfold server_of; simpl; split_and!; try done;
           destruct (getPort_Ret _ _ _ _ _ Hg)
             as [_ [(-> & Hz & _) | (Hz & _ & p & _ & ->)]];
           [by left | right; eauto]
       end.
  all: step_norm H; simpl.
  all: try exact Hall.
  all: try (by apply well_built_launch).
  all: try (eapply well_built_alter; [exact Hall | exact Hl |]).
  all: pose proof (Hall _ _ Hl) as Hwb; unfold well_built in *; simpl.
  all: rewrite HpcL in Hwb; simpl in Hwb.
  all: intros sv [= <-]; destruct (Hwb _ eq_refl) as (eng & He & Hh & Hr & Hw & Ha & Ht).
  all: exists eng; (split; [done|]); unfold server_of; simpl; rewrite HpcL in Ht.
  all: split_and!; try done; simpl in Ht; rewrite ?Hcfg; try done.
  all: try (by rewrite isTls_false_Config).
  all: apply isTls_false_Config in Hif; congruence.
Qed.

Lemma well_built_exec w targets sched :
  ∀ i l, listeners (exec sched (start w targets)) !! i = Some l → well_built w l.
Proof.
  apply (exec_invariant
           (λ s, coordinated w s ∧ ∀ i l, listeners s !! i = Some l → well_built w l)).
  - split; [apply coordinated_start | done].
  - intros s tid env s' [Hc Hall] Hstep. split; [by eapply coordinated_step|].
    destruct (co_globals _ _ Hc) as (_ & Hheap & _).
    by eapply well_built_step.
Qed.

Lemma launched_lookup targets s i l :
  launched targets s → listeners s !! i = Some l → targets !! i = Some (target_of l).
Proof.
  intros Hla Hl.
  assert ((target_of <$> listeners s) !! i = Some (target_of l)) as Hi
    by (by rewrite list_lookup_fmap, Hl).
  unfold launched in Hla. destruct (mainpc s); subst targets; try done.
  by apply lookup_app_l_Some.
Qed.

(** X6: the [http.Server] a listener goroutine builds: the [i]-th listener
    works on the [i]-th bind target; its server has the engine as handler
    and the engine's read and write timeouts; its address is the bind
    address with the delimiter supplied, or a port the system chose when
    that is [":0"]; and its TLS configuration is nil until the [isTls]
    branch is behind and the [Config] of the target from then on. *)
Theorem server_construction w targets sched :
  let s := exec sched (start w targets) in
  ∀ i l sv, listeners s !! i = Some l → built (l_pc l) = Some sv →
    targets !! i = Some (l_engine l, l_cfg l) ∧
    ∃ eng,
      heap w !! l_engine l = Some eng ∧
      Handler sv = l_engine l ∧
      ReadTimeout sv = readTimeout eng ∧ WriteTimeout sv = writeTimeout eng ∧
      (Addr sv = with_delimiter (addr (l_cfg l)) ∧
       with_delimiter (addr (l_cfg l)) ≠ ":0" ∨
       with_delimiter (addr (l_cfg l)) = ":0" ∧ ∃ p, Addr sv = ":" +:+ Itoa p) ∧
      TLSConfig sv = if past_tls (l_pc l) then Config (tls (l_cfg l)) else None.
Proof.
  intros s i l sv Hl Hb. split.
  - by apply (launched_lookup targets s); [apply launched_exec|].
  - destruct (well_built_exec w targets sched i l Hl sv Hb) as (eng & He & Hs).
    exists eng. split; [done | exact Hs].
Qed.

Lemma server_construction_witness :
  targets_of tls_engine [0%nat] !! 0%nat = Some (0%nat, tls_target) ∧
  ∃ eng,
    heap tls_engine !! 0%nat = Some eng ∧
    Handler (mkHttpServer ":443" 0 0 0 None) = 0%nat ∧
    0 = readTimeout eng ∧ 0 = writeTimeout eng ∧
    (":443" = with_delimiter ":443" ∧ with_delimiter ":443" ≠ ":0" ∨
     with_delimiter ":443" = ":0" ∧ ∃ p, ":443" = ":" +:+ Itoa p) ∧
    TLSConfig (mkHttpServer ":443" 0 0 0 None) = None.
Proof.
  pose proof (server_construction tls_engine (targets_of tls_engine [0%nat])
                up_to_serving) as H.
  cbv zeta in H.
  assert (listeners (exec up_to_serving
                       (start tls_engine (targets_of tls_engine [0%nat]))) !! 0%nat =
          Some (mkListener 0 tls_target (LServing (mkHttpServer ":443" 0 0 0 None))))
    as Hl by reflexivity.
  exact (H 0%nat _ (mkHttpServer ":443" 0 0 0 None) Hl eq_refl).
Defined.

(** X7: the timeouts [SetTimeout] stores are the ones [Run] serves with:
    with one argument both timeouts are that value, with a second argument
    the write timeout is the second and the read timeout the first; every
    server a listener then builds for this engine carries them, and the
    bind targets are as before. *)
Theorem SetTimeout_reaches_servers e eng t wts w targets sched :
  heap w !! e = Some eng →
  ∃ w',
    SetTimeout e t wts w = Ret tt w' ∧
    (∀ engines, targets_of w' engines = targets_of w engines) ∧
    zservers w' = zservers w ∧ out w' = out w ∧
    ∀ i l sv,
      listeners (exec sched (start w' targets)) !! i = Some l →
      l_engine l = e → built (l_pc l) = Some sv →
      ReadTimeout sv = t ∧ WriteTimeout sv = default t (head wts).
Proof.
  intros H. pose proof (lookup_lt_Some _ _ _ H) as Hlt.
  eexists. split; [by apply SetTimeout_ok|]. split_and!; try done.
  - intros engines. apply targets_of_keep. intros e'.
    rewrite (addrs_of_insert _ _ _ _ _ H). destruct (decide (e' = e)) as [-> | ?]; [|done].
    unfold addrs_of. by rewrite H.
  - intros i l sv Hl He Hb.
    destruct (well_built_exec _ targets sched i l Hl sv Hb)
      as (eng' & He' & _ & Hr & Hw & _).
    rewrite He in He'. simpl in He'. rewrite list_lookup_insert_eq in He' by done.
    injection He' as <-. by rewrite Hr, Hw.
Qed.

Lemma SetTimeout_reaches_servers_witness :
  ∃ w',
    SetTimeout 0 (30 * second) [10 * second] one_engine = Ret tt w' ∧
    targets_of w' [0%nat] = [(0%nat, defaultAddr)] ∧
    ∃ sv, listeners (exec up_to_serving (start w' (targets_of w' [0%nat]))) !! 0%nat =
            Some (mkListener 0 defaultAddr (LServing sv)) ∧
          ReadTimeout sv = 30 * second ∧ WriteTimeout sv = 10 * second.
Proof.
  pose proof (SetTimeout_reaches_servers 0 (newEngine "Z") (30 * second) [10 * second]
                one_engine [(0%nat, defaultAddr)] up_to_serving eq_refl)
    as (w' & H1 & H2 & _ & _ & H5).
  assert (w' = set_heap [with_timeouts (30 * second) (10 * second) (newEngine "Z")]
                 one_engine) as Hw by (injection H1 as <-; reflexivity).
  exists w'. split; [exact H1|]. split; [exact (eq_trans (H2 [0%nat]) eq_refl)|].
  exists (mkHttpServer ":3788" 0 (30 * second) (10 * second) None).
  assert (listeners (exec up_to_serving (start w' (targets_of w' [0%nat]))) !! 0%nat =
          Some (mkListener 0 defaultAddr
                  (LServing (mkHttpServer ":3788" 0 (30 * second) (10 * second) None))))
    as Hl by (rewrite Hw; reflexivity).
  split; [exact Hl|].
  assert (listeners (exec up_to_serving (start w' [(0%nat, defaultAddr)])) !! 0%nat =
          Some (mkListener 0 defaultAddr
                  (LServing (mkHttpServer ":3788" 0 (30 * second) (10 * second) None))))
    as Hl' by (rewrite Hw; reflexivity).
  exact (H5 0%nat _ _ Hl' eq_refl eq_refl).
Defined.

(** ** The barrier counter *)

Lemma filter_length_lt {A} (p : A → bool) (l : list A) i x :
  l !! i = Some x → p x = false → (length (List.filter p l) < length l)%nat.
Proof.
  intros Hi Hp. pose proof (filter_length_le p l) as Hle.
  destruct (decide (length (List.filter p l) = length l)) as [Heq | Hne]; [|lia].
  pose proof (filter_length_all p l i x Heq Hi). congruence.
Qed.

(** A shutdown goroutine that stands before [m.Done()] finds the counter
    positive. *)
Lemma signal_has_count n s i t :
  accounted n s → shutdowns s !! i = Some t → s_pc t = SSignal → (1 ≤ wg s)%Z.
Proof.
  intros Hacc Ht Hpc.
  pose proof (accounted_chain _ _ Hacc) as (_ & H2 & H3 & H4).
  pose proof (acc_count _ _ Hacc) as Hc.
  assert (is_done t = false) as Hd by (unfold is_done; by rewrite Hpc).
  pose proof (filter_length_lt is_done (shutdowns s) i t Ht Hd) as Hlt.
  unfold signaled in Hc. lia.
Qed.

Lemma accounted_listeners n s : accounted n s → (length (listeners s) ≤ n)%nat.
Proof.
  intros Hacc. pose proof (acc_loop _ _ Hacc) as H. destruct (mainpc s); lia.
Qed.

(** X8: the counter of the [sync.WaitGroup] never leaves the range from
    zero to the number of bind targets, so [m.Done()] never panics on a
    negative counter: a shutdown goroutine that stands before it finds
    the counter positive, takes one off and is over. *)
Theorem done_never_panics w targets sched :
  let s := exec sched (start w targets) in
  (0 ≤ wg s ≤ Z.of_nat (length targets))%Z ∧
  ∀ i t env, shutdowns s !! i = Some t → s_pc t = SSignal → halted s = false →
    (1 ≤ wg s)%Z ∧
    ∃ s', step (TShutdown i) env s = Some s' ∧ halted s' = false ∧
          wg s' = wg s - 1 ∧
          out (world s') = (out (world s) ++ [EDone (srv (s_val t))])%list ∧
          shutdowns s' !! i = Some (set_s_pc SDone t) ∧
          step (TShutdown i) env s' = None.
Proof.
  intros s. pose proof (accounted_exec w targets sched) as Hacc. fold s in Hacc.
  split.
  - pose proof (accounted_chain _ _ Hacc) as (H1 & H2 & H3 & H4).
    pose proof (acc_count _ _ Hacc) as Hc.
    pose proof (accounted_listeners _ _ Hacc). lia.
  - intros i t env Ht Hpc Hh.
    pose proof (signal_has_count _ _ _ _ Hacc Ht Hpc) as Hge. split; [done|].
    eexists. split.
    { unfold step. rewrite Hh, Ht. simpl. unfold shutdown_step. rewrite Hpc.
      rewrite bool_decide_false by lia. reflexivity. }
    simpl. split_and!; try done.
    + by rewrite list_lookup_alter_eq, Ht.
    + unfold step. simpl. rewrite Hh, list_lookup_alter_eq, Ht. simpl. done.
Qed.

Lemma done_never_panics_witness :
  ∃ s', step (TShutdown 0) calm
          (Run one_engine [0%nat] (up_to_stopping ++ [(TShutdown 0, calm)])) = Some s' ∧
        halted s' = false ∧ wg s' = 0 ∧
        step (TShutdown 0) calm s' = None.
Proof.
  unfold Run.
  pose proof (done_never_panics one_engine (targets_of one_engine [0%nat])
                (up_to_stopping ++ [(TShutdown 0, calm)])) as H.
  cbv zeta in H. destruct H as [_ H].
  assert (shutdowns (exec (up_to_stopping ++ [(TShutdown 0, calm)])
                       (start one_engine (targets_of one_engine [0%nat]))) !! 0%nat =
          Some (mkShutdownTask (mkServerMap 0 0) true (20 * second) SSignal)) as Ht
    by reflexivity.
  assert (halted (exec (up_to_stopping ++ [(TShutdown 0, calm)])
                    (start one_engine (targets_of one_engine [0%nat]))) = false) as Hh
    by reflexivity.
  assert (wg (exec (up_to_stopping ++ [(TShutdown 0, calm)])
                (start one_engine (targets_of one_engine [0%nat]))) = 1) as Hwg
    by reflexivity.
  destruct (H 0%nat _ calm Ht eq_refl Hh) as (_ & s' & Hs & Hh' & Hw & _ & _ & Hn).
  exists s'. split; [exact Hs|]. split; [exact Hh'|].
  split; [rewrite Hw, Hwg; reflexivity | exact Hn].
Defined.

(** X9: [Run] reads the package-level state and never writes it: the
    registry, the engines behind it, [CloseHotRestart], the fingerprint of
    the executable and the [ShutdownDone] callback are, in every state of
    every run, what they were when [Run] was called. *)
Theorem Run_keeps_package_state w targets sched :
  let s := exec sched (start w targets) in
  zservers (world s) = zservers w ∧ heap (world s) = heap w ∧
  CloseHotRestart (world s) = CloseHotRestart w ∧ fileMd5 (world s) = fileMd5 w ∧
  ShutdownDone (world s) = ShutdownDone w.
Proof. intros s. apply (co_globals _ _ (coordinated_exec w targets sched)). Qed.

(** ** How a run can end the process *)

Lemma getPort_outcome os a w :
  (∃ a' evs, getPort os a w = Ret a' (emit evs w) ∧ List.filter is_exit evs = []) ∨
  (∃ msg, getPort os a w =
            Exited (emit [ENetListen ":0";
                          ELog PkgLog LogFatal ("Listen: " +:+ msg +:+ nl);
                          EExit 1] w)).
Proof.
  destruct (decide (with_delimiter a = ":0")) as [H|H].
  - rewrite (getPort_ephemeral _ _ _ H). destruct os; [right; eauto|].
    left. by eexists _, _.
  - rewrite (getPort_fixed _ _ _ H). left. exists (with_delimiter a), [].
    by rewrite emit_nil.
Qed.

Lemma restart_events_no_exit md5 spawn :
  List.filter is_exit (restart_events md5 spawn) = [].
Proof. unfold restart_events. by destruct (bool_decide (md5 = "")), spawn. Qed.

Lemma stop_events_no_exit iskill v err :
  List.filter is_exit (stop_events iskill v err) = [].
Proof. unfold stop_events. by destruct iskill, err. Qed.

Lemma fatal_listen_app t who msg (evs : list Event) :
  fatal_listen ((t ++ evs) ++ [ELog who LogFatal ("Listen: " +:+ msg +:+ nl); EExit 1]).
Proof. by exists (t ++ evs)%list, who, msg. Qed.

Ltac step_norm_exits H :=
  unfold lift, bind, say, logf in H;
  repeat match type of H with
  | context [if ?b then runNewProcess ?e else ret tt] => destruct b eqn:?Hif
  end;
  unfold ret in H;
  rewrite ?runNewProcess_emits, ?afterShutdown_emits, ?afterServe_cases in H;
  simpl in H;
  repeat match type of H with
  | context [getPort ?o ?a ?w] =>
      let evs := fresh "evs" in
      let Hev := fresh "Hev" in
      let a' := fresh "a'" in
      let msg := fresh "msg" in
      let Hg := fresh "Hg" in
      destruct (getPort_outcome o a w) as [(a' & evs & Hg & Hev) | (msg & Hg)];
      rewrite Hg in H; clear Hg; simpl in H
  | context [load ?e ?w] =>
      unfold load in H; simpl in H;
      destruct (heap _ !! e) eqn:?Hheap; simpl in H
  | context [match served ?env with _ => _ end] =>
      destruct (served env) as [[|?msg]|] eqn:?Herr; simpl in H
  | context [match pick ?env with _ => _ end] =>
      destruct (pick env) eqn:?Hpick; simpl in H
  | context [match srvMap ?s !! ?k with _ => _ end] =>
      destruct (srvMap s !! k) eqn:?Hget; simpl in H
  | context [match Config ?x with _ => _ end] =>
      destruct (Config x) eqn:?Hcfg; simpl in H
  | context [if ?b then _ else _] => destruct b eqn:?Hif; simpl in H
  end;
  try discriminate H;
  injection H as <-.

Lemma ended_step n s tid env s' :
  accounted n s →
  (∀ i l, listeners s !! i = Some l → is_Some (heap (world s) !! l_engine l)) →
  ended s → step tid env s = Some s' → ended s'.
Proof.
  intros Hacc Hvalid [Hview _] H.
  step_cases H; step_norm_exits H.
  all: rewrite ?Hhalt in Hview.
  all: unfold ended, view in *; simpl.
  all: rewrite ?Hhalt.
  all: rewrite ?List.filter_app, ?Hview, ?Hev, ?restart_events_no_exit,
         ?stop_events_no_exit; simpl.
  all: try (split; [done | done]).
  all: try (split; [done | intros _; rewrite <- ?app_assoc; simpl;
                              by eexists _, _, _]).
  - destruct (Hvalid _ _ Hl) as [eng Heng]. congruence.
  - split; [done|]. intros _.
    by exists (out (world s) ++ [ENetListen ":0"])%list, PkgLog, msg; rewrite <- app_assoc.
  - split; [done|]. intros _.
    by exists (out (world s) ++ [ENetListen ":0"])%list, PkgLog, msg; rewrite <- app_assoc.
  - split; [done|]. intros _.
    by exists (out (world s) ++ [ENetListen ":0"])%list, PkgLog, msg; rewrite <- app_assoc.
  - split; [done|]. intros _. by eexists _, _, _.
  - pose proof (signal_has_count _ _ _ _ Hacc Ht HpcS) as Hge.
    apply bool_decide_eq_true in Hif. lia.
Qed.

Lemma ended_exec w targets sched :
  targets_ok w targets → ended (exec sched (start w targets)).
Proof.
  intros Hok.
  apply (exec_invariant
           (λ s, accounted (length targets) s ∧ coordinated w s ∧
                 launched targets s ∧ ended s)).
  - split_and!; [apply accounted_start | apply coordinated_start | done | done].
  - intros s tid env s' (Ha & Hc & Hl & He) Hstep. split_and!.
    + by eapply accounted_step.
    + by eapply coordinated_step.
    + by eapply launched_step.
    + eapply ended_step; [exact Ha | | exact He | exact Hstep].
      intros i l Hi. destruct (co_globals _ _ Hc) as (_ & -> & _).
      pose proof (launched_lookup _ _ _ _ Hl Hi) as Ht.
      unfold targets_ok in Hok. rewrite Forall_lookup in Hok.
      apply (Hok _ _ Ht).
Qed.

(** X10: what can end the process inside [Run]: with every bind target on
    an engine of the heap, the process is gone exactly when the trace
    holds an exit, there is at most one, its code is 1, and it stands at
    the end of the trace right after a fatal [Listen:] line, the one of
    [getPort] or the one for the error of a serve call. *)
Theorem process_ends_by_fatal_listen w targets sched :
  targets_ok w targets →
  let s := exec sched (start w targets) in
  (halted s = true ↔ EExit 1 ∈ out (world s)) ∧
  view is_exit s = (if halted s then [EExit 1] else []) ∧
  (halted s = true →
     ∃ pre who msg,
       out (world s) =
         (pre ++ [ELog who LogFatal ("Listen: " +:+ msg +:+ nl); EExit 1])%list) ∧
  (∀ sched', halted s = true → exec sched' s = s).
Proof.
  intros Hok s. destruct (ended_exec w targets sched Hok) as [Hview Hfatal].
  fold s in Hview, Hfatal. split_and!; try done.
  - split.
    + intros Hh. destruct (Hfatal Hh) as (pre & who & msg & ->).
      apply elem_of_app. right. apply elem_of_cons. right. apply elem_of_cons. by left.
    + intros Hin. destruct (halted s); [done|].
      assert (EExit 1 ∈ view is_exit s) as Hin'.
      { unfold view. apply list_elem_of_In, filter_In. split; [|done].
        by apply list_elem_of_In. }
      rewrite Hview in Hin'. by apply elem_of_nil in Hin'.
  - intros sched' Hh. induction sched' as [|[tid env] sched' IH]; [done|].
    simpl. unfold turn, step. simpl. by rewrite Hh.
Qed.

Lemma targets_of_ok w engines : targets_ok w (targets_of w engines).
Proof.
  unfold targets_ok. rewrite Forall_forall. intros [e cfg].
  rewrite targets_of_addrs, list_elem_of_bind.
  intros (e' & Hin & _). apply list_elem_of_fmap in Hin as (cfg' & Heq & Hin).
  injection Heq as -> ->. simpl.
  unfold addrs_of in Hin. destruct (heap w !! e'); [done|].
  by apply elem_of_nil in Hin.
Qed.

Lemma process_ends_by_fatal_listen_witness :
  halted (Run one_engine [0%nat]
            (up_to_serving ++
             [(TListener 0,
               mkEnv (Listening 40000) (Some (ErrOther "bind: address already in use"))
                     None None false None)])) = true ∧
  EExit 1 ∈ out (world (Run one_engine [0%nat]
            (up_to_serving ++
             [(TListener 0,
               mkEnv (Listening 40000) (Some (ErrOther "bind: address already in use"))
                     None None false None)]))) ∧
  halted (Run one_engine [0%nat] (up_to_wait ":3788")) = false ∧
  view is_exit (Run one_engine [0%nat] (up_to_wait ":3788")) = [].
Proof.
  unfold Run.
  pose proof (process_ends_by_fatal_listen one_engine (targets_of one_engine [0%nat])
                (up_to_serving ++
                 [(TListener 0,
                   mkEnv (Listening 40000)
                         (Some (ErrOther "bind: address already in use"))
                         None None false None)])
                (targets_of_ok one_engine [0%nat])) as Hbad.
  pose proof (process_ends_by_fatal_listen one_engine (targets_of one_engine [0%nat])
                (up_to_wait ":3788") (targets_of_ok one_engine [0%nat])) as Hgood.
  cbv zeta in Hbad, Hgood.
  destruct Hbad as (H1 & _). destruct Hgood as (_ & H2 & _).
  assert (halted (exec (up_to_serving ++
                    [(TListener 0,
                      mkEnv (Listening 40000)
                            (Some (ErrOther "bind: address already in use"))
                            None None false None)])
                   (start one_engine (targets_of one_engine [0%nat]))) = true) as Hh
    by reflexivity.
  assert (halted (exec (up_to_wait ":3788")
                   (start one_engine (targets_of one_engine [0%nat]))) = false) as Hh'
    by reflexivity.
  split; [exact Hh|]. split; [exact (proj1 H1 Hh)|]. split; [exact Hh'|].
  rewrite H2, Hh'. reflexivity.
Defined.

(** ** The fingerprint of the executable *)

Lemma reaches_decision w targets env :
  let s := exec (replicate (length targets + 2) (TMain, env)) (start w targets) in
  mainpc s = MRestart (kill env) (20 * second) ∧ halted s = false.
Proof.
  rewrite replicate_add, exec_app.
  destruct (main_loop_runs env targets (start w targets) eq_refl eq_refl) as [Hpc Hh].
  set (s0 := exec (replicate (length targets) (TMain, env)) (start w targets)) in *.
  simpl.
  assert (∃ s1, turn s0 (TMain, env) = s1 ∧ mainpc s1 = MWithTimeout (kill env) ∧
                halted s1 = false) as (s1 & -> & Hpc1 & Hh1).
  { unfold turn, step. simpl. rewrite Hh. unfold main_step. rewrite Hpc. simpl. eauto. }
  unfold turn, step. simpl. rewrite Hh1. unfold main_step. rewrite Hpc1. simpl. eauto.
Qed.

Lemma restart_step_out env s b ctx :
  mainpc s = MRestart b ctx → halted s = false →
  ∃ s', step TMain env s = Some s' ∧ halted s' = false ∧
        out (world s') =
          (out (world s) ++
           if negb b && negb (CloseHotRestart (world s))
           then restart_events (fileMd5 (world s)) (spawned env) else [])%list.
Proof.
  intros Hpc Hh. unfold step. rewrite Hh. unfold main_step. rewrite Hpc.
  eexists. split; [reflexivity|]. unfold lift.
  destruct (negb b && negb (CloseHotRestart (world s))); unfold ret;
    rewrite ?runNewProcess_emits; simpl; by rewrite ?app_nil_r.
Qed.

(** X11: [CloseHotRestartFileMd5] empties the fingerprint and nothing else;
    in particular it does not switch the restart off: [runNewProcess] then
    warns that the check is ignored and spawns with the empty fingerprint,
    and a run that was not killed, with [CloseHotRestart] unset, still
    spawns its successor, with that warning in its trace. *)
Theorem CloseHotRestartFileMd5_keeps_restart w :
  ∃ w',
    CloseHotRestartFileMd5 w = Ret tt w' ∧
    fileMd5 w' = "" ∧ CloseHotRestart w' = CloseHotRestart w ∧
    zservers w' = zservers w ∧ heap w' = heap w ∧
    ShutdownDone w' = ShutdownDone w ∧ out w' = out w ∧
    CloseHotRestartFileMd5 w' = Ret tt w' ∧
    (∀ spawn,
       runNewProcess spawn w' =
         Ret tt (emit (ELog PkgLog LogWarn "ignore execution file md5 check" ::
                       ERunNewProcess "" ::
                       match spawn with
                       | Some err => [ELog PkgLog LogError (error_text err)]
                       | None => []
                       end) w')) ∧
    ∀ targets env,
      let s := exec (replicate (length targets + 3) (TMain, env)) (start w' targets) in
      halted s = false ∧
      view is_spawn s =
        (if negb (kill env) && negb (CloseHotRestart w) then [ERunNewProcess ""] else []) ∧
      (kill env = false → CloseHotRestart w = false →
       ELog PkgLog LogWarn "ignore execution file md5 check" ∈ out (world s)).
Proof.
  eexists. split; [reflexivity|]. split_and!; try done.
  - intros spawn. by rewrite runNewProcess_emits.
  - intros targets env s. set (w' := set_fileMd5 "" w) in *.
    destruct (reaches_restart w' targets env) as (Hp & Hk & Hh). fold s in Hp, Hk, Hh.
    pose proof (co_spawn _ _ (coordinated_exec w' targets
                  (replicate (length targets + 3) (TMain, env)))) as Hs.
    fold s in Hs. split_and!; [done | |].
    + rewrite Hs. destruct (mainpc s); simplify_eq/=; done.
    + intros Hkill Hclose.
      destruct (reaches_decision w' targets env) as [Hpc2 Hh2].
      set (s2 := exec (replicate (length targets + 2) (TMain, env)) (start w' targets)) in *.
      destruct (restart_step_out env s2 _ _ Hpc2 Hh2) as (s3 & Hstep & _ & Hout).
      assert (s = s3) as ->.
      { unfold s. replace (length targets + 3)%nat with (length targets + 2 + 1)%nat by lia.
        rewrite replicate_add, exec_app. fold s2. simpl. by apply turn_step. }
      rewrite Hout.
      destruct (co_globals _ _ (coordinated_exec w' targets
                  (replicate (length targets + 2) (TMain, env)))) as (_ & _ & G3 & G4 & _).
      fold s2 in G3, G4. rewrite G3, G4, Hkill. simpl. rewrite Hclose. simpl.
      apply elem_of_app. right. unfold restart_events. simpl.
      apply elem_of_cons. by left.
Qed.

Lemma CloseHotRestartFileMd5_keeps_restart_witness :
  ∃ w',
    CloseHotRestartFileMd5 two_engines = Ret tt w' ∧ fileMd5 two_engines = "abc" ∧
    fileMd5 w' = "" ∧
    view is_spawn (exec (replicate (2 + 3) (TMain, calm))
                     (start w' (targets_of w' [0%nat; 1%nat]))) = [ERunNewProcess ""] ∧
    ELog PkgLog LogWarn "ignore execution file md5 check"
      ∈ out (world (exec (replicate (2 + 3) (TMain, calm))
                      (start w' (targets_of w' [0%nat; 1%nat])))).
Proof.
  pose proof (CloseHotRestartFileMd5_keeps_restart two_engines)
    as (w' & H1 & H2 & _ & _ & _ & _ & _ & _ & _ & H10).
  assert (w' = set_fileMd5 "" two_engines) as Hw by (injection H1 as <-; reflexivity).
  assert (length (targets_of w' [0%nat; 1%nat]) = 2%nat) as Hlen
    by (rewrite Hw; reflexivity).
  specialize (H10 (targets_of w' [0%nat; 1%nat]) calm). cbv zeta in H10.
  rewrite Hlen in H10. destruct H10 as (_ & H11 & H12).
  exists w'. split; [exact H1|]. split; [reflexivity|]. split; [exact H2|].
  split; [exact H11 | exact (H12 eq_refl eq_refl)].
Defined.

(** ** The shutdown goroutines and their servers *)

Lemma owned_move (ls : list Listener) i l pc v a :
  ls !! i = Some l →
  (∀ a, stored_addr l = Some a → Addr <$> stored pc = Some a) →
  owned ls v a → owned (alter (set_l_pc pc) i ls) v a.
Proof.
  intros Hl Hkeep (l0 & Hl0 & Ha & He).
  destruct (decide (i = srv v)) as [-> | Hne].
  - exists (set_l_pc pc l). rewrite list_lookup_alter_eq, Hl. simplify_eq.
    split; [done|]. split; [|done]. rewrite stored_addr_set_l_pc. auto.
  - exists l0. by rewrite list_lookup_alter_ne.
Qed.

Lemma owned_launch (ls : list Listener) l v a : owned ls v a → owned (ls ++ [l]) v a.
Proof.
  intros (l0 & Hl0 & Ha & He). exists l0. split; [by apply lookup_app_l_Some | done].
Qed.

Lemma dispatched_move pc (ls : list Listener) ts i l pcl :
  ls !! i = Some l →
  (∀ a, stored_addr l = Some a → Addr <$> stored pcl = Some a) →
  dispatched_on pc ls ts → dispatched_on pc (alter (set_l_pc pcl) i ls) ts.
Proof.
  intros Hl Hkeep [Htask Hdist]. split; [|done].
  intros j t Ht. destruct (Htask _ _ Ht) as (a & Ho & Hv).
  exists a. split; [by eapply owned_move | done].
Qed.

Lemma dispatched_launch pc pc' (ls : list Listener) ts l :
  (∀ a, in_visited pc a → in_visited pc' a) →
  dispatched_on pc ls ts → dispatched_on pc' (ls ++ [l]) ts.
Proof.
  intros Hpc [Htask Hdist]. split; [|done].
  intros j t Ht. destruct (Htask _ _ Ht) as (a & Ho & Hv).
  exists a. split; [by apply owned_launch | auto].
Qed.

Lemma dispatched_pc pc pc' (ls : list Listener) ts :
  (∀ a, in_visited pc a → in_visited pc' a) →
  dispatched_on pc ls ts → dispatched_on pc' ls ts.
Proof.
  intros Hpc [Htask Hdist]. split; [|done].
  intros j t Ht. destruct (Htask _ _ Ht) as (a & Ho & Hv). eauto.
Qed.

Lemma dispatched_none pc (ls : list Listener) : dispatched_on pc ls [].
Proof. split; [by intros j t ? | by intros j1 j2 t1 t2 ?]. Qed.

Lemma dispatched_task pc (ls : list Listener) ts i p :
  dispatched_on pc ls ts → dispatched_on pc ls (alter (set_s_pc p) i ts).
Proof.
  intros [Htask Hdist].
  assert (∀ j t', alter (set_s_pc p) i ts !! j = Some t' →
                  ∃ t, ts !! j = Some t ∧ s_val t' = s_val t) as Hback.
  { intros j t'. destruct (decide (i = j)) as [-> | Hne].
    - rewrite list_lookup_alter_eq. destruct (ts !! j) eqn:E; simpl; [|done].
      intros [= <-]. eauto.
    - rewrite list_lookup_alter_ne by done. eauto. }
  split.
  - intros j t' (t & Ht & ->)%Hback. eauto.
  - intros j1 j2 t1' t2' (t1 & Ht1 & ->)%Hback (t2 & Ht2 & ->)%Hback. eauto.
Qed.

Lemma dispatched_visit b c st visited (ls : list Listener) ts k v :
  k ∉ visited → owned ls v k →
  dispatched_on (MRange b c st visited) ls ts →
  dispatched_on (MRange b c st (k :: visited)) ls (ts ++ [mkShutdownTask v b c SStart]).
Proof.
  intros Hk Ho [Htask Hdist].
  assert (∀ j t, ts !! j = Some t → srv (s_val t) ≠ srv v) as Hfresh.
  { intros j t Ht Heq. destruct (Htask _ _ Ht) as (a & (l & Hl & Ha & _) & Hv).
    destruct Ho as (l' & Hl' & Ha' & _). rewrite Heq in Hl. by simplify_eq/=. }
  split.
  - intros j t [Ht | [_ Ht]]%lookup_app_Some.
    + destruct (Htask _ _ Ht) as (a & Hoa & Hv). exists a. split; [done|].
      simpl. by apply elem_of_cons; right.
    + apply list_lookup_singleton_Some in Ht as [_ <-]. exists k. split; [done|].
      simpl. by apply elem_of_cons; left.
  - intros j1 j2 t1 t2 [H1 | [Hj1 H1]]%lookup_app_Some [H2 | [Hj2 H2]]%lookup_app_Some Heq.
    + eauto.
    + apply list_lookup_singleton_Some in H2 as [_ <-]. by apply Hfresh in H1.
    + apply list_lookup_singleton_Some in H1 as [_ <-]. symmetry in Heq.
      by apply Hfresh in H2.
    + apply list_lookup_singleton_Some in H1 as [? _].
      apply list_lookup_singleton_Some in H2 as [? _]. lia.
Qed.

Lemma dispatched_step n s tid env s' :
  accounted n s → supervised s → dispatched s →
  step tid env s = Some s' → dispatched s'.
Proof.
  intros Hacc Hsup Hd H. unfold dispatched in *.
  pose proof (acc_range _ _ Hacc) as Hrange.
  step_cases H; step_norm H; simpl.
  all: rewrite ?HpcM in *.
  all: try exact Hd.
  all: try (by apply dispatched_task).
  all: try (apply (dispatched_move _ _ _ _ l); [done | unfold stored_addr; by rewrite HpcL | done]).
  all: try (rewrite Hrange; apply dispatched_none).
  all: try (eapply dispatched_pc; [|exact Hd]; done).
  all: try (eapply dispatched_launch; [|exact Hd]; done).
  apply dispatched_visit; [by apply bool_decide_eq_false in Hif | | exact Hd].
  destruct (su_entry _ Hsup _ _ Hget) as (l & sv & Hl & Hst & Ha & He).
  exists l. split; [done|]. split; [|done]. unfold stored_addr. by rewrite Hst, <- Ha.
Qed.

Lemma dispatched_exec w targets sched : dispatched (exec sched (start w targets)).
Proof.
  apply (exec_invariant
           (λ s, accounted (length targets) s ∧ supervised s ∧ dispatched s)).
  - split_and!; [apply accounted_start | apply supervised_start | apply dispatched_none].
  - intros s tid env s' (Ha & Hs & Hd) Hstep. split_and!.
    + by eapply accounted_step.
    + by eapply supervised_step.
    + by eapply dispatched_step.
Qed.

(** X12: what [Range] hands to the shutdown goroutines: each of them works
    on a server that a listener of this run has built and stored in
    [srvMap], together with the engine of that listener, which is the
    engine of the bind target the listener was launched for; no server is
    handed to two shutdown goroutines, and there are never more of them
    than listeners. *)
Theorem shutdown_dispatch w targets sched :
  let s := exec sched (start w targets) in
  (∀ j t, shutdowns s !! j = Some t →
     ∃ l sv, listeners s !! srv (s_val t) = Some l ∧
             stored (l_pc l) = Some sv ∧
             engine (s_val t) = l_engine l ∧
             targets !! srv (s_val t) = Some (engine (s_val t), l_cfg l)) ∧
  (∀ j1 j2 t1 t2, shutdowns s !! j1 = Some t1 → shutdowns s !! j2 = Some t2 →
     srv (s_val t1) = srv (s_val t2) → j1 = j2) ∧
  (length (shutdowns s) ≤ length (listeners s))%nat.
Proof.
  intros s. destruct (dispatched_exec w targets sched) as [Htask Hdist].
  fold s in Htask, Hdist. split_and!; [|done|].
  - intros j t Ht. destruct (Htask _ _ Ht) as (a & (l & Hl & Ha & He) & _).
    unfold stored_addr in Ha. destruct (stored (l_pc l)) as [sv|] eqn:Hst; [|done].
    exists l, sv. split_and!; try done.
    rewrite He. by apply (launched_lookup targets s); [apply launched_exec|].
  - pose proof (accounted_chain _ _ (accounted_exec w targets sched)) as (_ & H2 & H3 & H4).
    fold s in H2, H3, H4. lia.
Qed.

Lemma shutdown_dispatch_witness :
  ∃ l sv,
    listeners (Run one_engine [0%nat] up_to_stopping) !! 0%nat = Some l ∧
    stored (l_pc l) = Some sv ∧ 0%nat = l_engine l ∧
    targets_of one_engine [0%nat] !! 0%nat = Some (0%nat, l_cfg l).
Proof.
  unfold Run.
  pose proof (shutdown_dispatch one_engine (targets_of one_engine [0%nat])
                up_to_stopping) as H.
  cbv zeta in H. destruct H as (H1 & _ & _).
  assert (shutdowns (exec up_to_stopping
                       (start one_engine (targets_of one_engine [0%nat]))) !! 0%nat =
          Some (mkShutdownTask (mkServerMap 0 0) true (20 * second) SWaiting)) as Ht
    by reflexivity.
  exact (H1 0%nat _ Ht).
Defined.

(** ** The readiness lines *)

Lemma filter_insert_length {A} (p : A → bool) (l : list A) i x y :
  l !! i = Some x →
  (length (List.filter p (<[i := y]> l)) + (if p x then 1 else 0) =
   length (List.filter p l) + (if p y then 1 else 0))%nat.
Proof.
  revert i. induction l as [|z l IH]; intros [|i] H; simplify_eq/=.
  - destruct (p x), (p y); simpl; lia.
  - specialize (IH _ H). destruct (p z); simpl; lia.
Qed.

Lemma timer_for_move (ls : list Listener) i l pc t :
  ls !! i = Some l →
  (∀ sv, stored (l_pc l) = Some sv → timed l = true →
         ∃ sv', stored pc = Some sv' ∧ Addr sv' = Addr sv ∧
                timed (set_l_pc pc l) = true) →
  timer_for ls t → timer_for (alter (set_l_pc pc) i ls) t.
Proof.
  intros Hl Hkeep (j & l0 & sv & Hj & Hst & Htm & He & Ha & Hs).
  destruct (decide (i = j)) as [-> | Hne].
  - rewrite Hl in Hj. injection Hj as <-.
    destruct (Hkeep _ Hst Htm) as (sv' & Hst' & Ha' & Htm').
    exists j, (set_l_pc pc l), sv'. rewrite list_lookup_alter_eq, Hl. simpl.
    split_and!; try done. by rewrite Ha'.
  - exists j, l0, sv. by rewrite list_lookup_alter_ne.
Qed.

Lemma timer_for_launch (ls : list Listener) l t :
  timer_for ls t → timer_for (ls ++ [l]) t.
Proof.
  intros (j & l0 & sv & Hj & Hrest). exists j, l0, sv.
  split; [by apply lookup_app_l_Some | done].
Qed.

Lemma restart_events_calm md5 spawn :
  List.filter is_afterfunc (restart_events md5 spawn) = [] ∧
  List.filter is_listen_line (restart_events md5 spawn) = [] ∧
  Forall after_100ms (restart_events md5 spawn).
Proof.
  unfold restart_events.
  destruct (bool_decide (md5 = "")), spawn; simpl; split_and!; try done;
    repeat constructor.
Qed.

Lemma stop_events_calm iskill v err :
  List.filter is_afterfunc (stop_events iskill v err) = [] ∧
  List.filter is_listen_line (stop_events iskill v err) = [] ∧
  Forall after_100ms (stop_events iskill v err).
Proof.
  unfold stop_events.
  destruct iskill, err; simpl; split_and!; try done; repeat constructor.
Qed.

Lemma announced_start w targets : announced (start w targets).
Proof. by constructor. Qed.

Lemma announced_step s tid env s' :
  announced s → step tid env s = Some s' → announced s'.
Proof.
  intros [Htimer Hcount Hsched Hdelay Hlines] H.
  step_cases H; step_norm H.
  all: try destruct Hev.
  all: constructor; unfold view in *; simpl.
  all: rewrite ?List.filter_app, ?Forall_app, ?length_app; simpl.
  all: rewrite ?app_nil_r, ?Nat.add_0_r.
  all: try done.
  all: try match goal with
       | |- context [restart_events ?m ?e] =>
           destruct (restart_events_calm m e) as (R1 & R2 & R3);
           rewrite ?R1, ?R2; simpl; rewrite ?Nat.add_0_r
       | |- context [stop_events ?b ?v ?e] =>
           destruct (stop_events_calm b v e) as (R1 & R2 & R3);
           rewrite ?R1, ?R2; simpl; rewrite ?Nat.add_0_r
       end.
  all: try done.
  all: try (split_and!; try done; repeat (constructor; try done); fail).
  all: try (intros j t0 Hj; eapply timer_for_move; [exact Hl | | by eapply Htimer];
            intros sv Hst Htm; unfold timed in *; simpl; rewrite HpcL in Hst, Htm;
            simpl in *;
            first [ done
                  | eexists; split; [reflexivity|]; injection Hst as <-; done ]).
  all: try (pose proof (filter_alter_length timed (set_l_pc (LBuilt
              {| Addr := a'; Handler := l_engine l; ReadTimeout := readTimeout e;
                 WriteTimeout := writeTimeout e; TLSConfig := None |}))
              _ _ _ Hl) as Hfl;
            unfold timed at 2 4 in Hfl; simpl in Hfl; rewrite HpcL in Hfl; lia).
  all: try match goal with
       | |- context [List.filter timed (alter (set_l_pc ?pc) ?i ?ls)] =>
           pose proof (filter_alter_length timed (set_l_pc pc) ls i l Hl) as Hfl;
           unfold timed at 2 4 in Hfl; simpl in Hfl; rewrite HpcL in Hfl
       end.
  all: try lia.
  - intros j t Hj. apply timer_for_launch. eauto.
  - intros j t0 [Hj | [_ Hj]]%lookup_app_Some.
    + eapply timer_for_move; [exact Hl | | by eapply Htimer].
      intros sv Hst Htm. unfold timed in Htm. by rewrite HpcL in Htm.
    + apply list_lookup_singleton_Some in Hj as [_ <-].
      exists i, (set_l_pc (LTimed s0) l), s0. rewrite list_lookup_alter_eq, Hl. simpl.
      split_and!; try done. unfold scheme_of. by rewrite Hif.
  - intros j t0 [Hj | [_ Hj]]%lookup_app_Some.
    + eapply timer_for_move; [exact Hl | | by eapply Htimer].
      intros sv Hst Htm. unfold timed in Htm. by rewrite HpcL in Htm.
    + apply list_lookup_singleton_Some in Hj as [_ <-].
      exists i, (set_l_pc (LTimed s0) l), s0. rewrite list_lookup_alter_eq, Hl. simpl.
      split_and!; try done. unfold scheme_of. by rewrite Hif.
  - pose proof (filter_alter_length started
                  (set_c_pc (CServing (companionStrategy (c_engine c) (c_processing c))))
                  _ _ _ Hc) as Hfl.
    unfold started at 2 4 in Hfl. simpl in Hfl. rewrite HpcC in Hfl. lia.
  - pose proof (filter_alter_length started (set_c_pc CReturned) _ _ _ Hc) as Hfl.
    unfold started at 2 4 in Hfl. simpl in Hfl. rewrite HpcC in Hfl. lia.
  - intros j t0 Hj. apply list_lookup_insert_Some in Hj as [(-> & <- & _) | (Hne & Hj)];
      [|by eauto].
    destruct (Htimer _ _ Ht) as (k & l & sv & Hk & Hrest). by exists k, l, sv.
  - by rewrite length_insert.
  - by rewrite length_insert.
  - pose proof (filter_insert_length t_fired (timers s) i t
                  (mkTimer (t_engine t) (t_scheme t) (t_addr t) true) Ht) as Hfl.
    rewrite Hf in Hfl. simpl in Hfl. lia.
Qed.

Lemma announced_exec w targets sched : announced (exec sched (start w targets)).
Proof.
  apply exec_invariant; [apply announced_start | intros; by eapply announced_step].
Qed.

(** X13: the readiness line of lines 283-290: a listener sets its timer
    after it has stored its server and before its serve call, with a delay
    of 100 ms; there is one timer per listener that got that far; the line
    names the engine of that listener, its resolved address and the scheme
    [https://] exactly when TLS is active for the bind target; a timer
    fires once; and the trace holds one such line per fired timer and per
    started companion, so never more than one per listener and companion. *)
Theorem readiness_lines w targets sched :
  let s := exec sched (start w targets) in
  (∀ j t, timers s !! j = Some t →
     ∃ i l sv, listeners s !! i = Some l ∧ stored (l_pc l) = Some sv ∧
               t_engine t = l_engine l ∧ t_addr t = Addr sv ∧
               t_scheme t = (if isTls (l_cfg l) then "https://" else "http://")) ∧
  length (timers s) = length (List.filter timed (listeners s)) ∧
  length (view is_afterfunc s) = length (timers s) ∧
  Forall after_100ms (out (world s)) ∧
  (length (view is_listen_line s) ≤ length (listeners s) + length (companions s))%nat ∧
  (∀ j t env, timers s !! j = Some t → halted s = false →
     step (TTimer j) env s =
       if t_fired t then None
       else Some (tell [EListenLine (EngineLog (t_engine t)) (t_scheme t) (t_addr t)]
                    (set_timers (<[j := mkTimer (t_engine t) (t_scheme t) (t_addr t) true]>
                                   (timers s)) s))).
Proof.
  intros s. destruct (announced_exec w targets sched)
    as [Htimer Hcount Hsched Hdelay Hlines].
  fold s in Htimer, Hcount, Hsched, Hdelay, Hlines. split_and!; try done.
  - intros j t Ht. destruct (Htimer _ _ Ht) as (i & l & sv & Hl & Hst & _ & He & Ha & Hs).
    by exists i, l, sv.
  - rewrite Hlines.
    pose proof (filter_length_le t_fired (timers s)).
    pose proof (filter_length_le timed (listeners s)).
    pose proof (filter_length_le started (companions s)). lia.
  - intros j t env Ht Hh. unfold step. rewrite Hh. simpl. rewrite Ht. simpl.
    unfold timer_step. by destruct (t_fired t).
Qed.

Lemma readiness_lines_witness :
  (∃ i l sv,
     listeners (Run tls_engine [0%nat] up_to_serving) !! i = Some l ∧
     stored (l_pc l) = Some sv ∧ 0%nat = l_engine l ∧ ":443" = Addr sv ∧
     "https://" = (if isTls (l_cfg l) then "https://" else "http://")) ∧
  step (TTimer 0) calm (Run tls_engine [0%nat] up_to_serving) =
    Some (tell [EListenLine (EngineLog 0) "https://" ":443"]
            (set_timers (<[0%nat := mkTimer 0 "https://" ":443" true]>
                           (timers (Run tls_engine [0%nat] up_to_serving)))
               (Run tls_engine [0%nat] up_to_serving))).
Proof.
  unfold Run.
  pose proof (readiness_lines tls_engine (targets_of tls_engine [0%nat]) up_to_serving)
    as H.
  cbv zeta in H. destruct H as (H1 & _ & _ & _ & _ & H6).
  assert (timers (exec up_to_serving
                    (start tls_engine (targets_of tls_engine [0%nat]))) !! 0%nat =
          Some (mkTimer 0 "https://" ":443" false)) as Ht by reflexivity.
  assert (halted (exec up_to_serving
                    (start tls_engine (targets_of tls_engine [0%nat]))) = false) as Hh
    by reflexivity.
  split; [exact (H1 0%nat _ Ht) | exact (H6 0%nat _ calm Ht Hh)].
Defined.

(** ** Where [Run] can block *)

Lemma range_ok_step s tid env s' : range_ok s → step tid env s = Some s' → range_ok s'.
Proof.
  intros Hr H. unfold range_ok in *.
  step_cases H; step_norm H; simpl.
  all: rewrite ?HpcM in Hr.
  all: try done.
  all: destruct (mainpc s); try done.
  all: etrans; [exact Hr|]; rewrite dom_insert; set_solver.
Qed.

Lemma range_ok_exec w targets sched : range_ok (exec sched (start w targets)).
Proof.
  apply exec_invariant; [done | intros; by eapply range_ok_step].
Qed.

(** X14: the goroutine that called [Run] waits for the other goroutines
    of the run in [m.Wait()] and nowhere else: each of its other steps
    (the launches, [isKill()] returning, the deadline, the restart
    decision, every visit of [Range], the callback, the sleep) can be
    taken in every state that is reached, for a suitable answer of the
    outside; [m.Wait()] returns exactly when the counter is zero; and once
    [Run] has returned its goroutine does nothing more. *)
Theorem Run_waits_only_on_barrier w targets sched :
  let s := exec sched (start w targets) in
  halted s = false →
  match mainpc s with
  | MReturned _ => ∀ env, step TMain env s = None
  | MWait _ => ∀ env, is_Some (step TMain env s) ↔ wg s = 0
  | _ => main_can_move s
  end.
Proof.
  intros s Hh. pose proof (range_ok_exec w targets sched) as Hr. fold s in Hr.
  unfold range_ok, main_can_move, step in *. rewrite Hh. unfold main_step.
  destruct (mainpc s) as [[|[e cfg] rest]|b|b ctx|b ctx st visited|b|b|b|b] eqn:Hpc.
  - by exists calm; eexists.
  - by exists calm; eexists.
  - by exists calm; eexists.
  - by exists calm; eexists.
  - destruct (decide (st ⊆ list_to_set visited)) as [Hsub | Hsub].
    + exists calm. simpl. rewrite bool_decide_true by done. by eexists.
    + assert (∃ k, k ∈ st ∧ k ∉ visited) as (k & Hk & Hv).
      { assert (¬ set_Forall (λ k, k ∈ visited) st) as Hnf.
        { intros Hall. apply Hsub. intros k Hk. apply elem_of_list_to_set.
          by apply Hall. }
        apply (not_set_Forall_Exists _) in Hnf as (k & Hk & Hv). by exists k. }
      exists (visiting k). simpl. rewrite bool_decide_false by done.
      apply Hr, elem_of_dom in Hk as [v Hk]. rewrite Hk. by eexists.
  - intros env. destruct (decide (wg s = 0)) as [Hz | Hz].
    + rewrite bool_decide_true by done. split; [done | by eexists].
    + rewrite bool_decide_false by done. split; [by intros [? ?] | done].
  - by exists calm; eexists.
  - by exists calm; eexists.
  - done.
Qed.

Lemma Run_waits_only_on_barrier_witness :
  (∀ env, is_Some (step TMain env
                     (Run two_engines [0%nat; 1%nat] (both_resolved ++ try_to_finish)))
          ↔ wg (Run two_engines [0%nat; 1%nat] (both_resolved ++ try_to_finish)) = 0) ∧
  wg (Run two_engines [0%nat; 1%nat] (both_resolved ++ try_to_finish)) = 1 ∧
  main_can_move (Run one_engine [0%nat] (up_to_wait ":3788")).
Proof.
  unfold Run.
  pose proof (Run_waits_only_on_barrier two_engines (targets_of two_engines [0%nat; 1%nat])
                (both_resolved ++ try_to_finish)) as Hdup.
  pose proof (Run_waits_only_on_barrier one_engine (targets_of one_engine [0%nat])
                (up_to_wait ":3788")) as Hone.
  cbv zeta in Hdup, Hone.
  assert (halted (exec (both_resolved ++ try_to_finish)
                    (start two_engines (targets_of two_engines [0%nat; 1%nat]))) = false)
    as Hh by reflexivity.
  assert (mainpc (exec (both_resolved ++ try_to_finish)
                    (start two_engines (targets_of two_engines [0%nat; 1%nat]))) =
          MWait false) as Hpc by reflexivity.
  assert (halted (exec (up_to_wait ":3788")
                    (start one_engine (targets_of one_engine [0%nat]))) = false)
    as Hh' by reflexivity.
  assert (mainpc (exec (up_to_wait ":3788")
                    (start one_engine (targets_of one_engine [0%nat]))) = MWait false)
    as Hpc' by reflexivity.
  specialize (Hdup Hh). specialize (Hone Hh'). rewrite Hpc in Hdup. rewrite Hpc' in Hone.
  split; [exact Hdup|]. split; [reflexivity|].
  exists calm. apply Hone. reflexivity.
Defined.

(** ** A fresh engine *)

Lemma New_Ret names w e w' :
  New names w = Ret e w' →
  zservers w !! name_of names = None ∧ e = length (heap w) ∧
  w' = registered (name_of names) w.
Proof.
  intros H. destruct (zservers w !! name_of names) as [e0|] eqn:E.
  - by rewrite (New_duplicate _ _ _ E) in H.
  - rewrite (New_fresh _ _ E) in H. by injection H as <- <-.
Qed.

Lemma targets_of_single w e eng :
  heap w !! e = Some eng → targets_of w [e] = (λ cfg, (e, cfg)) <$> eaddr eng.
Proof.
  intros H. rewrite targets_of_addrs. csimpl. rewrite app_nil_r.
  unfold addrs_of. by rewrite H.
Qed.

(** X15: the engine [New] returns, as [Run] meets it: it is not in debug
    mode, it has the one bind target [":3788"] without TLS, and every
    server a listener builds for it listens on [":3788"] with the engine as
    handler, no timeouts and no TLS configuration; no companion listener
    is ever started for it. *)
Theorem New_engine_defaults names w e w' sched :
  New names w = Ret e w' →
  IsDebug e w' = Ret false w' ∧
  targets_of w' [e] = [(e, defaultAddr)] ∧
  let s := exec sched (start w' (targets_of w' [e])) in
  (∀ i l sv, listeners s !! i = Some l → built (l_pc l) = Some sv →
             i = 0%nat ∧ sv = mkHttpServer ":3788" e 0 0 None) ∧
  companions s = [].
Proof.
  intros H. apply New_Ret in H as (Hfresh & He & ->).
  assert (heap (registered (name_of names) w) !! e = Some (newEngine (name_of names)))
    as Hheap by (rewrite He; exact (proj1 (proj2 (registered_lookup (name_of names) w)))).
  clear He.
  assert (targets_of (registered (name_of names) w) [e] = [(e, defaultAddr)]) as Ht
    by exact (targets_of_single _ _ _ Hheap).
  split; [unfold IsDebug, bind, load, ret; by rewrite Hheap|].
  split; [exact Ht|]. rewrite Ht. intros s. unfold s. split.
  - intros i l sv Hl Hb.
    pose proof (launched_lookup _ _ _ _ (launched_exec _ _ sched) Hl) as Hi.
    apply list_lookup_singleton_Some in Hi as [-> [= He Hc]].
    split; [done|].
    destruct (well_built_exec _ _ sched _ _ Hl sv Hb)
      as (eng & Heng & Hh & Hr & Hw & Ha & Htls).
    rewrite <- He, Hheap in Heng. injection Heng as <-.
    rewrite <- Hc in Ha, Htls. simpl in *.
    destruct Ha as [[Ha _] | [Ha _]]; [|done].
    destruct sv as [a h r wt c]. simpl in *. subst.
    f_equal. by destruct (past_tls (l_pc l)).
  - pose proof (supervised_exec (registered (name_of names) w)
                  [(e, defaultAddr)] sched) as Hsup.
    destruct (companions _) as [|c cs] eqn:Hcs; [done|]. exfalso.
    destruct (cm_owner _ Hsup 0%nat c) as (l & Hl & Hw & _); [by rewrite Hcs|].
    pose proof (launched_lookup _ _ _ _ (launched_exec _ _ sched) Hl) as Hi.
    apply list_lookup_singleton_Some in Hi as [_ [= _ Hc]].
    by rewrite <- Hc in Hw.
Qed.

Lemma New_engine_defaults_witness :
  IsDebug 0 one_engine = Ret false one_engine ∧
  targets_of one_engine [0%nat] = [(0%nat, defaultAddr)] ∧
  companions (exec up_to_serving (start one_engine (targets_of one_engine [0%nat]))) = [].
Proof.
  pose proof (New_engine_defaults [] (world0 "") 0%nat one_engine up_to_serving eq_refl)
    as (H1 & H2 & H3).
  cbv zeta in H3. destruct H3 as [_ H4].
  split; [exact H1|]. split; [exact H2 | exact H4].
Defined.
